(** * BypassAIGC word formatter: validator, fixer, package, compiler, jobs

    A shallow embedding of the parts of [app/word_formatter] that the
    specification makes claims about, and the proofs that settle them.

    Conventions of the embedding.
    - A Python call that may raise returns [result A]: [Ok a] or
      [Raise e].
    - An lxml element is a value of [element]; the in-place mutations
      of the source become functions from trees to trees, and a
      reference into the tree (an item of [findall]) becomes the
      position of that item in document order.
    - Python [str] is [string]; Python [int] is [Z]; [bool] is an [int]
      in Python and is represented by its integer value. *)

From Stdlib Require Import ZArith QArith Qround Qabs String Ascii List Lia Bool.
From Stdlib Require Import DecimalString DecimalZ.
From stdpp Require Import base list strings gmap.

Local Open Scope Z_scope.
Local Open Scope string_scope.
Local Open Scope list_scope.

(** ** Python results *)

Module Py.

Inductive pyexn :=
| KeyError (msg : string)
| ValueError (msg : string)
| TypeError (msg : string)
| OverflowError (msg : string)
| IndexError (msg : string)
| ZeroDivisionError (msg : string)
| StructError (msg : string)
| XMLSyntaxError
| BadZipFile.

Inductive result (A : Type) :=
| Ok (a : A)
| Raise (e : pyexn).
Arguments Ok {A} a.
Arguments Raise {A} e.

Definition bind {A B} (r : result A) (k : A -> result B) : result B :=
  match r with
  | Ok a => k a
  | Raise e => Raise e
  end.

Definition is_ok {A} (r : result A) : bool :=
  match r with Ok _ => true | Raise _ => false end.

(** Values found in the [params] dictionary of a patch action
    ([Dict[str, Any]]).  [True] and [False] are the integers 1 and 0. *)
Inductive pyvalue :=
| PyNone
| PyInt (z : Z)
| PyStr (s : string).

#[global] Instance pyvalue_eq_dec : EqDecision pyvalue.
Proof. solve_decision. Defined.

(** A [dict] keeps insertion order: an association list whose keys are
    pairwise distinct. *)
Definition pydict (K V : Type) := list (K * V).

Section dict.
Context {K V : Type} `{EqDecision K}.

Fixpoint dict_get (d : pydict K V) (k : K) : option V :=
  match d with
  | [] => None
  | (k', v) :: d' => if decide (k' = k) then Some v else dict_get d' k
  end.

(** [d[k] = v]: the value is replaced in place when the key exists and
    the pair is appended otherwise. *)
Fixpoint dict_set (d : pydict K V) (k : K) (v : V) : pydict K V :=
  match d with
  | [] => [(k, v)]
  | (k', v') :: d' =>
      if decide (k' = k) then (k', v) :: d' else (k', v') :: dict_set d' k v
  end.

Definition dict_keys (d : pydict K V) : list K := map fst d.

Definition dict_has (d : pydict K V) (k : K) : bool :=
  bool_decide (k ∈ dict_keys d).

End dict.

(** *** [str(int)] *)

Definition str_of_int (z : Z) : string :=
  NilZero.string_of_int (Z.to_int z).

(** *** Characters

    A [str] is kept as the string of its UTF-8 bytes. Where the code
    acts on single characters the string is read as the list of its
    code points: a byte that is no part of a well-formed character is
    read as 1114112 plus the byte, a number that no character has. *)

Definition is_cont (b : N) : bool := ((128 <=? b) && (b <? 192))%N.

Fixpoint code_points (s : string) : list N :=
  match s with
  | EmptyString => []
  | String a0 s1 =>
      let b0 := N_of_ascii a0 in
      let stray := (1114112 + b0)%N :: code_points s1 in
      if (b0 <? 128)%N then b0 :: code_points s1
      else
        match s1 with
        | EmptyString => stray
        | String a1 s2 =>
            let b1 := N_of_ascii a1 in
            if ((194 <=? b0) && (b0 <? 224))%N && is_cont b1 then
              ((b0 - 192) * 64 + (b1 - 128))%N :: code_points s2
            else
              match s2 with
              | EmptyString => stray
              | String a2 s3 =>
                  let b2 := N_of_ascii a2 in
                  let c3 := ((b0 - 224) * 4096 + (b1 - 128) * 64 + (b2 - 128))%N in
                  if ((224 <=? b0) && (b0 <? 240))%N && is_cont b1 && is_cont b2
                     && (2048 <=? c3)%N
                     && negb ((55296 <=? c3) && (c3 <? 57344))%N then
                    c3 :: code_points s3
                  else
                    match s3 with
                    | EmptyString => stray
                    | String a3 s4 =>
                        let b3 := N_of_ascii a3 in
                        let c4 := ((b0 - 240) * 262144 + (b1 - 128) * 4096
                                   + (b2 - 128) * 64 + (b3 - 128))%N in
                        if ((240 <=? b0) && (b0 <? 245))%N
                           && is_cont b1 && is_cont b2 && is_cont b3
                           && (65536 <=? c4)%N && (c4 <? 1114112)%N then
                          c4 :: code_points s4
                        else stray
                    end
              end
        end
  end.

(** The UTF-8 bytes of a code point. *)
Definition utf8_bytes (c : N) : list N :=
  if (c <? 128)%N then [c]
  else if (c <? 2048)%N then [192 + c / 64; 128 + c mod 64]%N
  else if (c <? 65536)%N then
    [224 + c / 4096; 128 + (c / 64) mod 64; 128 + c mod 64]%N
  else if (c <? 1114112)%N then
    [240 + c / 262144; 128 + (c / 4096) mod 64; 128 + (c / 64) mod 64;
     128 + c mod 64]%N
  else [c - 1114112]%N.

Definition of_code_points (cs : list N) : string :=
  string_of_list_ascii (map ascii_of_N (List.flat_map utf8_bytes cs)).

(** [str.isspace] for one character, which is also what [\s] matches
    in a [str] pattern. *)
Definition is_space_cp (c : N) : bool :=
  ((9 <=? c) && (c <=? 13) || (28 <=? c) && (c <=? 32)
   || (c =? 133) || (c =? 160) || (c =? 5760)
   || (8192 <=? c) && (c <=? 8202)
   || (c =? 8232) || (c =? 8233) || (c =? 8239) || (c =? 8287)
   || (c =? 12288))%N.

Fixpoint lstrip_cp (s : list N) : list N :=
  match s with
  | c :: s' => if is_space_cp c then lstrip_cp s' else s
  | [] => []
  end.

Definition rstrip_cp (s : list N) : list N := rev (lstrip_cp (rev s)).

Definition strip_cp (s : list N) : list N := rstrip_cp (lstrip_cp s).

(** [s.strip()] *)
Definition strip (s : string) : string :=
  of_code_points (strip_cp (code_points s)).

(** *** [int(str)]

    [int] first turns every character from 127 on into an ASCII one: a
    space for a white-space character, the ASCII digit for a decimal
    digit, and nothing that a number can hold for any other. It then
    skips the white space of C at both ends, reads a sign and reads
    the digits. *)

(** The decimal digits of Unicode 14.0, the version of CPython 3.11,
    come in runs of ten; the list holds the zero of each run. *)
Definition digit_zeros : list N :=
  [48; 1632; 1776; 1984; 2406; 2534; 2662; 2790; 2918; 3046; 3174; 3302;
   3430; 3558; 3664; 3792; 3872; 4160; 4240; 6112; 6160; 6470; 6608;
   6784; 6800; 6992; 7088; 7232; 7248; 42528; 43216; 43264; 43472; 43504;
   43600; 44016; 65296; 66720; 68912; 69734; 69872; 69942; 70096; 70384;
   70736; 70864; 71248; 71360; 71472; 71904; 72016; 72784; 73040; 73120;
   92768; 92864; 93008; 120782; 120792; 120802; 120812; 120822; 123200;
   123632; 125264; 130032]%N.

Definition decimal_value (c : N) : option N :=
  (fun z => (c - z)%N)
    <$> List.find (fun z => ((z <=? c) && (c <? z + 10))%N) digit_zeros.

Definition int_char (c : N) : option ascii :=
  if (c <? 127)%N then Some (ascii_of_N c)
  else if is_space_cp c then Some " "%char
  else (fun d => ascii_of_N (48 + d)) <$> decimal_value c.

Fixpoint int_chars (cs : list N) : option string :=
  match cs with
  | [] => Some EmptyString
  | c :: cs' =>
      match int_char c, int_chars cs' with
      | Some a, Some s => Some (String a s)
      | _, _ => None
      end
  end.

(** [Py_ISSPACE]: the white space of C. *)
Definition is_space (a : ascii) : bool :=
  let n := nat_of_ascii a in
  ((9 <=? n) && (n <=? 13) || (n =? 32))%nat.

Fixpoint lstrip (s : string) : string :=
  match s with
  | String a s' => if is_space a then lstrip s' else s
  | EmptyString => EmptyString
  end.

Fixpoint rstrip (s : string) : string :=
  match s with
  | EmptyString => EmptyString
  | String a s' =>
      match rstrip s' with
      | EmptyString => if is_space a then EmptyString else String a EmptyString
      | r => String a r
      end
  end.

Definition is_digit (a : ascii) : bool :=
  let n := nat_of_ascii a in ((48 <=? n) && (n <=? 57))%nat.

(** The digits of an integer literal: single underscores are allowed
    between digits and are dropped. [prev] tells whether the previous
    character was a digit. *)
Fixpoint literal_digits (prev : bool) (s : string) : option string :=
  match s with
  | EmptyString => if prev then Some EmptyString else None
  | String a s' =>
      if is_digit a then String a <$> literal_digits true s'
      else if decide (a = "_"%char) then
             if prev then
               match s' with
               | String b _ => if is_digit b then literal_digits false s' else None
               | EmptyString => None
               end
             else None
           else None
  end.

(** [sys.get_int_max_str_digits()], as the interpreter starts. *)
Definition int_max_str_digits : Z := 4300.

(** [int(s)] for a [str] argument, base 10. Every failure is a
    [ValueError]; the messages are shortened. *)
Definition int_of_str (s : string) : result Z :=
  match int_chars (code_points s) with
  | None => Raise (ValueError "invalid literal for int()")
  | Some s0 =>
      let s1 := rstrip (lstrip s0) in
      let '(neg, body) :=
        match s1 with
        | String "-" r => (true, r)
        | String "+" r => (false, r)
        | _ => (false, s1)
        end in
      match literal_digits false body with
      | Some ds =>
          if (int_max_str_digits <? Z.of_nat (String.length ds))%Z then
            Raise (ValueError "Exceeds the limit for integer string conversion")
          else
            match NilEmpty.uint_of_string ds with
            | Some u => Ok (if neg then - Z.of_uint u else Z.of_uint u)
            | None => Raise (ValueError "invalid literal for int()")
            end
      | None => Raise (ValueError "invalid literal for int()")
      end
  end.

End Py.
Export Py.

#[global] Instance result_ret : MRet result := @Ok.
#[global] Instance result_bind : MBind result := fun A B k r => Py.bind r k.

(** ** lxml element trees *)

Module Etree.

(** A tag or attribute name in Clark notation [{namespace}local]. *)
Record qname := QName { q_ns : string; q_local : string }.

#[global] Instance qname_eq_dec : EqDecision qname.
Proof. solve_decision. Defined.

Definition W_NS : string :=
  "http://schemas.openxmlformats.org/wordprocessingml/2006/main".

Definition NSMAP : pydict string string := [("w", W_NS)].

(** [s.split(sep)] for a one-character separator. *)
Fixpoint split_on (sep : ascii) (s : string) : list string :=
  match s with
  | EmptyString => [EmptyString]
  | String a s' =>
      if decide (a = sep) then EmptyString :: split_on sep s'
      else match split_on sep s' with
           | [] => [String a EmptyString]
           | w :: ws => String a w :: ws
           end
  end.

(** [_qn]: [prefix, local = tag.split(":")], then [NSMAP[prefix]]. *)
Definition _qn (tag : string) : result qname :=
  match split_on ":" tag with
  | [prefix; local] =>
      match dict_get NSMAP prefix with
      | Some ns => Ok (QName ns local)
      | None => Raise (KeyError prefix)
      end
  | _ => Raise (ValueError "too many or not enough values to unpack")
  end.

(** The name that [_qn("w:" + local)] yields for a colon-free [local]. *)
Definition wq (local : string) : qname := QName W_NS local.

(** An element: tag, attributes in insertion order, text, tail and
    child elements.  Comments and processing instructions are not
    part of the embedding. *)
#[warnings="-register-all"]
Inductive element := Element {
  tag : qname;
  attrib : pydict qname string;
  text : option string;
  tail : option string;
  children : list element
}.

(** [etree.Element(tag)] *)
Definition new_element (t : qname) : element := Element t [] None None [].

Definition set_children (e : element) (cs : list element) : element :=
  Element (tag e) (attrib e) (text e) (tail e) cs.

(** [e.set(k, v)] and [e.get(k)] *)
Definition set_attr (k : qname) (v : string) (e : element) : element :=
  Element (tag e) (dict_set (attrib e) k v) (text e) (tail e) (children e).

Definition get_attr (k : qname) (e : element) : option string :=
  dict_get (attrib e) k.

Definition has_tag (t : qname) (e : element) : bool := bool_decide (tag e = t).

(** [e.find("w:t")]: the first child with that tag. *)
Definition find (t : qname) (e : element) : option element :=
  List.find (has_tag t) (children e).

(** [e.findall("w:t")]: the children with that tag. *)
Definition findall (t : qname) (e : element) : list element :=
  List.filter (has_tag t) (children e).

(** All proper descendants in document order. *)
Fixpoint descendants (e : element) : list element :=
  List.flat_map (fun c => c :: descendants c) (children e).

(** [e.findall(".//w:t")] *)
Definition findall_desc (t : qname) (e : element) : list element :=
  List.filter (has_tag t) (descendants e).

(** [etree.SubElement(parent, tag)]: a new last child. *)
Definition sub_element (t : qname) (parent : element) : element :=
  set_children parent (children parent ++ [new_element t]).

(** [parent.insert(i, child)] for [0 <= i]; like a list, an index past
    the end appends. *)
Definition insert_child (i : nat) (c : element) (parent : element) : element :=
  set_children parent (take i (children parent) ++ c :: drop i (children parent)).

(** The mutation [f] applied through the reference that [find] returns:
    the first child with tag [t] is replaced by its image. *)
Fixpoint update_first (t : qname) (f : element -> element) (cs : list element)
  : list element :=
  match cs with
  | [] => []
  | c :: cs' => if has_tag t c then f c :: cs' else c :: update_first t f cs'
  end.

Definition update_find (t : qname) (f : element -> element) (e : element) : element :=
  set_children e (update_first t f (children e)).

(** The mutation [f] applied through the last item of [findall(t)]. *)
Fixpoint update_last (t : qname) (f : element -> element) (cs : list element)
  : list element :=
  match cs with
  | [] => []
  | c :: cs' =>
      if has_tag t c && negb (existsb (has_tag t) cs') then f c :: cs'
      else c :: update_last t f cs'
  end.

(** Number of items of [findall(".//t")]. *)
Definition count_desc (t : qname) (e : element) : nat :=
  length (findall_desc t e).

(** The mutation [f] applied through item [n] of [e.findall(".//t")]:
    the walk follows document order, skipping the subtrees that hold
    fewer matches than remain to be passed. *)
Fixpoint update_desc (t : qname) (f : element -> element) (n : nat) (e : element)
  : element :=
  set_children e
    ((fix go (cs : list element) (n : nat) {struct cs} : list element :=
        match cs with
        | [] => []
        | c :: cs' =>
            if has_tag t c then
              match n with
              | O => f c :: cs'
              | S m =>
                  if (m <? count_desc t c)%nat then update_desc t f m c :: cs'
                  else c :: go cs' (m - count_desc t c)%nat
              end
            else
              if (n <? count_desc t c)%nat then update_desc t f n c :: cs'
              else c :: go cs' (n - count_desc t c)%nat
        end) (children e) n).

End Etree.
Export Etree.

(** ** models/stylespec.py *)

Module Stylespec.

(** A Python [float]: an IEEE 754 binary64 number. A finite value is
    kept as the rational it denotes. The rational of a [Finite] need
    not be a binary64 number (a specification read from JSON keeps the
    decimal it was written with): it stands for the float nearest to
    it, which is what Python holds. The sign of a zero is not kept. *)
Inductive pyfloat :=
| Finite (q : Q)
| Inf (negative : bool)
| NaN.

Inductive Alignment := AlignLeft | AlignCenter | AlignRight | AlignJustify.
Inductive LineSpacingRule := LsSingle | LsOneHalf | LsDouble | LsExact.
Inductive PageNumFormat := RomanUpper | RomanLower | Decimal.
Inductive NumSuffix := SuffixSpace | SuffixTab | SuffixNothing.

Record MarginMM := {
  top : pyfloat;
  bottom : pyfloat;
  left : pyfloat;
  right : pyfloat;
  binding : pyfloat
}.

(** [size] is [Literal["A4"]]: it has one value and carries no data. *)
Record PageSpec := {
  margins_mm : MarginMM;
  header_mm : pyfloat;
  footer_mm : pyfloat
}.

Record FontMapping := {
  eastAsia : string;
  ascii : string;
  hAnsi : string
}.

Record StyleParagraph := {
  alignment : Alignment;
  line_spacing_rule : LineSpacingRule;
  line_spacing : option pyfloat;
  space_before_pt : pyfloat;
  space_after_pt : pyfloat;
  space_before_lines : option pyfloat;
  space_after_lines : option pyfloat;
  first_line_indent_chars : pyfloat;
  hanging_indent_chars : pyfloat;
  keep_with_next : bool;
  keep_lines : bool;
  page_break_before : bool;
  widows_control : bool
}.

Record StyleRun := {
  bold : bool;
  italic : bool;
  underline : bool;
  size_pt : pyfloat;
  font : FontMapping
}.

Record StyleDef := {
  style_id : string;
  name : string;
  based_on : option string;
  is_heading : bool;
  outline_level : option Z;
  run : StyleRun;
  paragraph : StyleParagraph
}.

(** [fmt] is [Literal["decimal"]]. *)
Record NumberingLevel := {
  level : Z;
  nl_style_id : string;
  start : Z;
  lvl_text : string;
  suffix : NumSuffix
}.

Record NumberingSpec := {
  abstract_num_id : Z;
  num_id : Z;
  levels : list NumberingLevel
}.

Record ForbiddenDirectFormatting := {
  fdf_font : bool;
  fdf_size : bool;
  fdf_bold : bool;
  fdf_italic : bool;
  fdf_underline : bool;
  fdf_color : bool
}.

Record StructureSpec := {
  required_h1_titles : list string;
  toc_max_level : Z
}.

Record PageNumberingSpec := {
  enabled : bool;
  front_format : PageNumFormat;
  front_start : Z;
  main_format : PageNumFormat;
  main_start : Z;
  show_in_footer : bool;
  footer_alignment : Alignment
}.

Record StyleSpec := {
  meta : pydict string string;
  page : PageSpec;
  styles : pydict string StyleDef;
  numbering : option NumberingSpec;
  structure : StructureSpec;
  forbidden_direct_formatting : ForbiddenDirectFormatting;
  page_numbering : option PageNumberingSpec;
  auto_prefix_abstract_keywords : bool;
  auto_number_figures_tables : bool
}.

(** *** Float arithmetic

    Every operation returns the float nearest to the exact result, a
    tie going to the even mantissa, and an infinity when that float
    would lie past the largest one. *)

(** To the nearest integer, ties to even. *)
Definition round_half_even (q : Q) : Z :=
  let f := Qfloor q in
  match Qcompare (q - inject_Z f) (1 # 2) with
  | Lt => f
  | Gt => f + 1
  | Eq => if Z.even f then f else f + 1
  end.

Definition pow2 (e : Z) : Q :=
  if (0 <=? e)%Z then inject_Z (2 ^ e) else 1 / inject_Z (2 ^ (- e)).

(** [floor(log2 q)] for a positive [q]. *)
Definition ilog2 (q : Q) : Z :=
  let e := (Z.log2 (Qnum q) - Z.log2 (Zpos (Qden q)))%Z in
  if Qle_bool (pow2 e) q then e else (e - 1)%Z.

(** The float nearest to [q]: 53 bits of mantissa, the smallest unit
    2^-1074, and an infinity from 2^1024 on. *)
Definition fl (q : Q) : pyfloat :=
  if Qeq_bool q 0 then Finite 0
  else
    let a := Qabs q in
    let ulp := pow2 (Z.max (ilog2 a - 52) (-1074)) in
    let r := Qred (inject_Z (round_half_even (a / ulp)) * ulp) in
    if Qle_bool (pow2 1024) r then Inf (Qnum q <? 0)%Z
    else Finite (if (Qnum q <? 0)%Z then Qopp r else r).

(** The float that a value of the embedding stands for. *)
Definition to_float (x : pyfloat) : pyfloat :=
  match x with
  | Finite q => fl q
  | _ => x
  end.

(** [x * y] *)
Definition fmul (x y : pyfloat) : pyfloat :=
  match to_float x, to_float y with
  | NaN, _ | _, NaN => NaN
  | Finite a, Finite b => fl (a * b)
  | Inf s, Finite b | Finite b, Inf s =>
      if Qeq_bool b 0 then NaN else Inf (xorb s (Qnum b <? 0)%Z)
  | Inf s, Inf s' => Inf (xorb s s')
  end.

(** [x / y] *)
Definition fdiv (x y : pyfloat) : result pyfloat :=
  match to_float x, to_float y with
  | x', Finite b =>
      if Qeq_bool b 0 then Raise (ZeroDivisionError "float division by zero")
      else
        match x' with
        | Finite a => Ok (fl (a / b))
        | Inf s => Ok (Inf (xorb s (Qnum b <? 0)%Z))
        | NaN => Ok NaN
        end
  | NaN, _ | _, NaN => Ok NaN
  | Finite _, Inf _ => Ok (Finite 0)
  | Inf _, Inf _ => Ok NaN
  end.

(** [a / b] for two [int]: the float nearest to the quotient, and an
    [OverflowError] where that would be an infinity. *)
Definition int_truediv (a b : Z) : result pyfloat :=
  if (b =? 0)%Z then Raise (ZeroDivisionError "division by zero")
  else
    match fl (inject_Z a / inject_Z b) with
    | Inf _ => Raise (OverflowError "integer division result too large for a float")
    | x => Ok x
    end.

(** [round(x)]: an [int]. *)
Definition py_round (x : pyfloat) : result Z :=
  match to_float x with
  | Finite q => Ok (round_half_even q)
  | Inf _ => Raise (OverflowError "cannot convert float infinity to integer")
  | NaN => Raise (ValueError "cannot convert float NaN to integer")
  end.

(** [round(x, 2)]: a [float]. *)
Definition py_round2 (x : pyfloat) : pyfloat :=
  match to_float x with
  | Finite q => fl (inject_Z (round_half_even (q * 100)) / 100)
  | x' => x'
  end.

(** [_mm_to_twips(mm) = int(round(mm / 25.4 * 1440))] *)
Definition _mm_to_twips (mm : pyfloat) : result Z :=
  x ← fdiv mm (Finite (254 # 10));
  py_round (fmul x (Finite 1440)).

(** [_twips_to_mm(twips) = twips / 1440 * 25.4] *)
Definition _twips_to_mm (twips : Z) : result pyfloat :=
  x ← int_truediv twips 1440;
  Ok (fmul x (Finite (254 # 10))).

End Stylespec.

(** ** models/validation.py and models/patch.py *)

Module Validation.

Inductive Severity := info | warning | error.

#[global] Instance Severity_eq_dec : EqDecision Severity.
Proof. solve_decision. Defined.

(** [FixSuggestion] and [PatchAction] have the same two fields. *)
Record PatchAction := {
  action : string;
  params : pydict string pyvalue
}.

Definition FixSuggestion := PatchAction.
Definition Patch := list PatchAction.

(** The payload [{"mm": ..., "twips": ...}] of a margin violation. *)
Record MarginPayload := {
  payload_mm : Stylespec.pyfloat;
  payload_twips : Z
}.

(** A violation. [expected] and [actual] are kept where they are the
    payloads of a margin violation, whose computation can raise; the
    message, the text snippet of the location and the texts that the
    other violations carry as [expected] and [actual] are presentation
    data and are left out. *)
Record Violation := {
  violation_id : string;
  severity : Severity;
  paragraph_index : option Z;
  expected : option MarginPayload;
  actual : option MarginPayload;
  suggestion : option FixSuggestion
}.

Record ValidationSummary := {
  ok : bool;
  errors : nat;
  warnings : nat;
  infos : nat
}.

Record ValidationReport := {
  summary : ValidationSummary;
  violations : list Violation
}.

End Validation.
Export Validation.

(** ** utils/ooxml.py *)

Module Ooxml.

(** Python [bytes] values, as far as the package code tells them apart.
    - [XmlDoc v root]: a byte string that [etree.fromstring] parses to
      [root]. Variant 0 is the one [etree.tostring(root,
      xml_declaration=True, encoding="UTF-8", standalone="yes")] emits;
      the other variants are the other spellings of the same tree.
    - [ZipArchive v entries]: a byte string that [zipfile] reads as
      these members, in archive order, each with the name its header
      holds, the time of its header in units of two seconds and its
      (decompressed) data. Variant 0 is the one [zipfile] writes with
      [ZIP_DEFLATED].
    - [Raw b]: any other byte string. *)
#[warnings="-register-all"]
Inductive pybytes :=
| Raw (b : list Byte.byte)
| XmlDoc (variant : nat) (root : element)
| ZipArchive (variant : nat) (entries : list (string * Z * pybytes)).

(** [DocxPackage]: the dataclass with its one field [files]. *)
Record DocxPackage := { files : pydict string pybytes }.

(** [ZipInfo] ends a member name at its first null character, when
    it reads an archive and when it writes one. *)
Fixpoint cut_nul (s : string) : string :=
  match s with
  | EmptyString => EmptyString
  | String a s' =>
      if decide (a = Ascii.zero) then EmptyString else String a (cut_nul s')
  end.

(** [z.read(name)]: the data of the last member with that name. *)
Definition zip_read (entries : list (string * Z * pybytes)) (name : string)
  : option pybytes :=
  snd <$> List.find (fun e => bool_decide (cut_nul e.1.1 = name)) (rev entries).

(** [from_bytes]: [{name: z.read(name) for name in z.namelist()}]. *)
Definition from_bytes (data : pybytes) : result DocxPackage :=
  match data with
  | ZipArchive _ entries =>
      Ok {| files :=
              fold_left
                (fun d e =>
                   match zip_read entries (cut_nul e.1.1) with
                   | Some content => dict_set d (cut_nul e.1.1) content
                   | None => d
                   end)
                entries [] |}
  | _ => Raise BadZipFile
  end.

(** The header of a member holds its time in units of two seconds and
    its year as an offset from 1980 in seven bits. [t] is the local time
    in seconds since the start of 1980; 2108 starts 4039286400 seconds
    later. *)
Definition dos_time (t : Z) : Z := t / 2.

Definition first_tick_of_2108 : Z := 2019643200.

(** [z.writestr(name, content)] with a name, not a [ZipInfo]: the
    member is stamped with the local time [t] at the moment of the
    call. [ZipInfo] refuses a time before 1980, [writestr] looks at the
    last character of the name, and packing the header fails on a year
    past 2107 and on a name of more than 65535 bytes. *)
Definition writestr (name : string) (t : Z) (content : pybytes)
  : result (string * Z * pybytes) :=
  let tick := dos_time t in
  let n := cut_nul name in
  if (tick <? 0)%Z then
    Raise (ValueError "ZIP does not support timestamps before 1980")
  else if decide (n = "") then Raise (IndexError "string index out of range")
  else if (first_tick_of_2108 <=? tick)%Z
          || (65535 <? Z.of_nat (String.length n))%Z then
    Raise (StructError "ushort format requires 0 <= number <= 65535")
  else Ok (n, tick, content).

(** The loop of [to_bytes]; [i] is the number of the next member. *)
Fixpoint write_members (fs : pydict string pybytes) (clock : nat -> Z) (i : nat)
  : result (list (string * Z * pybytes)) :=
  match fs with
  | [] => Ok []
  | (name, content) :: rest =>
      e ← writestr name (clock i) content;
      es ← write_members rest clock (S i);
      Ok (e :: es)
  end.

(** [to_bytes]: one [writestr] per item of [files], in the order of the
    dictionary; [clock i] is the time read for member number [i]. *)
Definition to_bytes (pkg : DocxPackage) (clock : nat -> Z) : result pybytes :=
  es ← write_members (files pkg) clock O;
  Ok (ZipArchive 0 es).

Definition read_xml (pkg : DocxPackage) (name : string) : result element :=
  match dict_get (files pkg) name with
  | None => Raise (KeyError ("missing file in docx: " ++ name))
  | Some (XmlDoc _ root) => Ok root
  | Some _ => Raise XMLSyntaxError
  end.

Definition write_xml (pkg : DocxPackage) (name : string) (root : element)
  : DocxPackage :=
  {| files := dict_set (files pkg) name (XmlDoc 0 root) |}.

Definition ensure_file (pkg : DocxPackage) (name : string) (content : pybytes)
  : DocxPackage :=
  if dict_has (files pkg) name then pkg
  else {| files := dict_set (files pkg) name content |}.

End Ooxml.
Export Ooxml.

(** ** services/validator.py *)

Module Validator.
Import Stylespec.

Definition _get_p_style (p : element) : option string :=
  match find (wq "pPr") p with
  | None => None
  | Some pPr =>
      match find (wq "pStyle") pPr with
      | None => None
      | Some pStyle => get_attr (wq "val") pStyle
      end
  end.

(** The last item of a list: [ps[-1]]. *)
Definition last_item {A} (l : list A) : option A := last l.

Definition _find_sectpr (doc_root : element) : option element :=
  match find (wq "body") doc_root with
  | None => None
  | Some body =>
      match find (wq "sectPr") body with
      | Some sectPr => Some sectPr
      | None =>
          match last_item (findall (wq "p") body) with
          | None => None
          | Some last_p =>
              match find (wq "pPr") last_p with
              | None => None
              | Some last_ppr => find (wq "sectPr") last_ppr
              end
          end
      end
  end.

(** [sub in s] for strings. *)
Fixpoint contains (sub s : string) : bool :=
  String.prefix sub s ||
  match s with
  | EmptyString => false
  | String _ s' => contains sub s'
  end.

Definition _has_toc_field (doc_root : element) : bool :=
  existsb (fun fld => contains "TOC" (default "" (get_attr (wq "instr") fld)))
          (findall_desc (wq "fldSimple") doc_root).

(** The text nodes selected by [.//w:t/text()]: the text of every
    [w:t] below the element and the tails of the children of such a
    [w:t], in document order. *)
Definition opt_text (o : option string) : list string :=
  match o with Some s => [s] | None => [] end.

Fixpoint t_text_nodes (e : element) : list string :=
  (if has_tag (wq "t") e then opt_text (text e) else []) ++
  List.flat_map
    (fun c => t_text_nodes c ++
              (if has_tag (wq "t") e then opt_text (tail c) else []))
    (children e).

Definition _get_text (p : element) : string :=
  strip (String.concat "" (List.flat_map t_text_nodes (children p))).

Definition _DIRECT_RPR_TAGS : pydict string string :=
  [ ("rFonts", "font"); ("sz", "size"); ("szCs", "size"); ("b", "bold");
    ("bCs", "bold"); ("i", "italic"); ("iCs", "italic"); ("u", "underline");
    ("color", "color") ].

Definition forbid_flags (spec : StyleSpec) : pydict string bool :=
  let f := forbidden_direct_formatting spec in
  [ ("font", fdf_font f); ("size", fdf_size f); ("bold", fdf_bold f);
    ("italic", fdf_italic f); ("underline", fdf_underline f);
    ("color", fdf_color f) ].

(** The pairs [(kind, local)] that one [rPr] contributes. *)
Definition rpr_violations (forbid : pydict string bool) (rpr : element)
  : list (string * string) :=
  List.flat_map
    (fun child =>
       let local := q_local (tag child) in
       match dict_get _DIRECT_RPR_TAGS local with
       | Some kind =>
           if default false (dict_get forbid kind) then [(kind, local)] else []
       | None => []
       end)
    (children rpr).

Definition _check_run_direct_formatting (p : element) (forbid : pydict string bool)
  : list (string * string) :=
  List.flat_map (rpr_violations forbid) (findall_desc (wq "rPr") p).

Definition margin_checks (spec : StyleSpec) : pydict string pyfloat :=
  let exp := margins_mm (page spec) in
  [ ("top", top exp); ("bottom", bottom exp); ("left", left exp);
    ("right", right exp); ("gutter", binding exp);
    ("header", header_mm (page spec)); ("footer", footer_mm (page spec)) ].

Definition margin_violation (k : string) (exp_mm : pyfloat) (exp_twips : Z)
  (act_mm : pyfloat) (act_twips : Z) : Violation :=
  {| violation_id := "layout.margin_" ++ k;
     severity := error;
     paragraph_index := None;
     expected := Some {| payload_mm := exp_mm; payload_twips := exp_twips |};
     actual := Some {| payload_mm := act_mm; payload_twips := act_twips |};
     suggestion := Some {| action := "set_page_margins";
                           params := [("target", PyStr "section0");
                                      (k, PyInt exp_twips)] |} |}.

(** The loop over [checks.items()]. *)
Fixpoint check_margins (pgMar : element) (checks : pydict string pyfloat)
  : result (list Violation) :=
  match checks with
  | [] => Ok []
  | (k, exp_mm) :: rest =>
      qn ← _qn ("w:" ++ k);
      match get_attr qn pgMar with
      | None => check_margins pgMar rest
      | Some val =>
          act_twips ← int_of_str val;
          exp_twips ← _mm_to_twips exp_mm;
          if (10 <? Z.abs (act_twips - exp_twips))%Z then
            act_mm ← _twips_to_mm act_twips;
            vs ← check_margins pgMar rest;
            Ok (margin_violation k exp_mm exp_twips (py_round2 act_mm) act_twips
                  :: vs)
          else check_margins pgMar rest
      end
  end.

Definition simple_violation (vid : string) (sev : Severity) : Violation :=
  {| violation_id := vid; severity := sev; paragraph_index := None;
     expected := None; actual := None; suggestion := None |}.

Definition check_layout (doc_root : element) (spec : StyleSpec)
  : result (list Violation) :=
  match _find_sectpr doc_root with
  | None => Ok [simple_violation "layout.sectpr_missing" error]
  | Some sectPr =>
      match find (wq "pgMar") sectPr with
      | None => Ok [simple_violation "layout.pgmar_missing" error]
      | Some pgMar => check_margins pgMar (margin_checks spec)
      end
  end.

(** [doc_root.findall(".//w:body/w:p")] *)
Definition body_paragraphs (doc_root : element) : list element :=
  List.flat_map (findall (wq "p")) (findall_desc (wq "body") doc_root).

Definition h1_titles (doc_root : element) : list string :=
  List.flat_map
    (fun p =>
       let text := _get_text p in
       let style := default "" (_get_p_style p) in
       if (bool_decide (style = "H1") || bool_decide (style = "FrontHeading"))
          && negb (bool_decide (text = ""))
       then [strip text] else [])
    (body_paragraphs doc_root).

Definition check_structure (doc_root : element) (spec : StyleSpec)
  : list Violation :=
  List.flat_map
    (fun req =>
       if bool_decide (req ∈ h1_titles doc_root) then []
       else [simple_violation "structure.required_section_missing" warning])
    (required_h1_titles (structure spec)).

Definition spec_style_ids (spec : StyleSpec) : list string :=
  dict_keys (styles spec).

(** The body of the loop [for idx, p in enumerate(all_paras)]. *)
Definition check_paragraph (spec : StyleSpec) (idx : nat) (p : element)
  : list Violation :=
  (match _get_p_style p with
   | Some style =>
       if negb (bool_decide (style = ""))
          && negb (bool_decide (style ∈ spec_style_ids spec))
          && negb (bool_decide (style ∈ ["Normal"; "DefaultParagraphFont"]))
       then [ {| violation_id := "style.unknown_style";
                 severity := warning;
                 paragraph_index := Some (Z.of_nat idx);
                 expected := None;
                 actual := None;
                 suggestion :=
                   Some {| action := "set_paragraph_style";
                           params := [("paragraph_index", PyInt (Z.of_nat idx));
                                      ("style_id", PyStr "Body")] |} |} ]
       else []
   | None => []
   end) ++
  (match _check_run_direct_formatting p (forbid_flags spec) with
   | [] => []
   | _ :: _ =>
       [ {| violation_id := "style.direct_formatting_forbidden";
            severity := error;
            paragraph_index := Some (Z.of_nat idx);
            expected := None;
            actual := None;
            suggestion :=
              Some {| action := "clear_direct_run_formatting";
                      params := [("paragraph_index", PyInt (Z.of_nat idx))] |} |} ]
   end).

Definition check_paragraphs (doc_root : element) (spec : StyleSpec)
  : list Violation :=
  List.concat (imap (check_paragraph spec) (findall_desc (wq "p") doc_root)).

Definition check_toc (doc_root : element) (spec : StyleSpec) : list Violation :=
  if (0 <? toc_max_level (structure spec))%Z && negb (_has_toc_field doc_root)
  then [ {| violation_id := "field.toc_missing";
            severity := warning;
            paragraph_index := None;
            expected := None;
            actual := None;
            suggestion :=
              Some {| action := "insert_toc_field";
                      params := [("max_level",
                                  PyInt (toc_max_level (structure spec)))] |} |} ]
  else [].

Definition count_severity (sev : Severity) (vs : list Violation) : nat :=
  length (List.filter (fun v => bool_decide (severity v = sev)) vs).

Definition make_report (vs : list Violation) : ValidationReport :=
  let errors := count_severity error vs in
  {| summary := {| ok := (errors =? 0)%nat;
                   errors := errors;
                   warnings := count_severity warning vs;
                   infos := count_severity info vs |};
     violations := vs |}.

(** [validate_docx] once [document.xml] has been read and parsed. *)
Definition validate_root (doc_root : element) (spec : StyleSpec)
  : result ValidationReport :=
  layout ← check_layout doc_root spec;
  Ok (make_report (layout ++ check_structure doc_root spec
                          ++ check_paragraphs doc_root spec
                          ++ check_toc doc_root spec)).

(** [validate_docx] *)
Definition validate_docx (docx_bytes : pybytes) (spec : StyleSpec)
  : result ValidationReport :=
  pkg ← from_bytes docx_bytes;
  doc_root ← read_xml pkg "word/document.xml";
  validate_root doc_root spec.

End Validator.

(** ** services/fixer.py *)

Module Fixer.
Import Stylespec.

(** [fixer._find_sectpr] is the same function as the validator's. *)
Definition _find_sectpr (doc_root : element) : option element :=
  Validator._find_sectpr doc_root.

(** The mutation [f] applied through the reference that [_find_sectpr]
    returns. *)
Definition update_sectpr (f : element -> element) (doc_root : element) : element :=
  update_find (wq "body")
    (fun body =>
       match find (wq "sectPr") body with
       | Some _ => update_find (wq "sectPr") f body
       | None =>
           set_children body
             (update_last (wq "p")
                (update_find (wq "pPr") (update_find (wq "sectPr") f))
                (children body))
       end)
    doc_root.

Definition margin_mapping (spec : StyleSpec) : pydict string pyfloat :=
  let exp := margins_mm (page spec) in
  [ ("top", top exp); ("bottom", bottom exp); ("left", left exp);
    ("right", right exp); ("gutter", binding exp);
    ("header", header_mm (page spec)); ("footer", footer_mm (page spec)) ].

(** The attribute writes of the loop [for k in params.keys()], in
    order; the first failing call raises. *)
Fixpoint margin_writes (mapping : pydict string pyfloat)
  (items : pydict string pyvalue) : result (list (qname * string)) :=
  match items with
  | [] => Ok []
  | (k, v) :: rest =>
      if decide (k = "target") then margin_writes mapping rest
      else
        match dict_get mapping k with
        | Some mm =>
            qn ← _qn ("w:" ++ k);
            tw ← _mm_to_twips mm;
            ws ← margin_writes mapping rest;
            Ok ((qn, str_of_int tw) :: ws)
        | None =>
            match v with
            | PyInt z =>
                qn ← _qn ("w:" ++ k);
                ws ← margin_writes mapping rest;
                Ok ((qn, str_of_int z) :: ws)
            | _ => margin_writes mapping rest
            end
        end
  end.

Definition apply_writes (ws : list (qname * string)) (e : element) : element :=
  fold_left (fun e w => set_attr w.1 w.2 e) ws e.

Definition ensure_child (t : qname) (parent : element) : element :=
  match find t parent with
  | Some _ => parent
  | None => sub_element t parent
  end.

Definition _apply_set_page_margins (doc_root : element)
  (params : pydict string pyvalue) (spec : StyleSpec) : result element :=
  match _find_sectpr doc_root with
  | None => Ok doc_root
  | Some _ =>
      ws ← margin_writes (margin_mapping spec) params;
      Ok (update_sectpr
            (fun sectPr =>
               update_find (wq "pgMar") (apply_writes ws)
                 (ensure_child (wq "pgMar") sectPr))
            doc_root)
  end.

(** What [_apply_set_paragraph_style] does to the paragraph it found. *)
Definition style_paragraph (style_id : string) (p : element) : element :=
  let p1 :=
    match find (wq "pPr") p with
    | Some _ => p
    | None => insert_child 0 (new_element (wq "pPr")) p
    end in
  update_find (wq "pPr")
    (fun pPr =>
       update_find (wq "pStyle") (set_attr (wq "val") style_id)
         (ensure_child (wq "pStyle") pPr))
    p1.

(** The checks on [idx] shared by the two paragraph actions: [None]
    for "return", [Some n] for the item to work on. Comparing a [str]
    with an [int] raises. *)
Definition paragraph_target (doc_root : element) (idx : option pyvalue)
  : result (option nat) :=
  match idx with
  | None | Some PyNone => Ok None
  | Some (PyStr _) =>
      Raise (TypeError "'<' not supported between instances of 'str' and 'int'")
  | Some (PyInt i) =>
      let all_paras := findall_desc (wq "p") doc_root in
      if (i <? 0)%Z || (Z.of_nat (length all_paras) <=? i)%Z then Ok None
      else Ok (Some (Z.to_nat i))
  end.

Definition _apply_set_paragraph_style (doc_root : element)
  (params : pydict string pyvalue) : result element :=
  let idx := dict_get params "paragraph_index" in
  let style_id := default (PyStr "Body") (dict_get params "style_id") in
  target ← paragraph_target doc_root idx;
  match target with
  | None => Ok doc_root
  | Some n =>
      match style_id with
      | PyStr sid => Ok (update_desc (wq "p") (style_paragraph sid) n doc_root)
      | _ => Raise (TypeError "Argument must be bytes or unicode")
      end
  end.

Definition forbidden_tags : list string :=
  ["rFonts"; "sz"; "szCs"; "b"; "bCs"; "i"; "iCs"; "u"; "color"].

Definition is_forbidden (child : element) : bool :=
  bool_decide (q_local (tag child) ∈ forbidden_tags).

(** Every [rPr] at or below [e] loses its forbidden children. *)
Fixpoint clear_rpr (e : element) : element :=
  set_children e
    ((fix go (cs : list element) : list element :=
        match cs with
        | [] => []
        | c :: cs' =>
            if has_tag (wq "rPr") e && is_forbidden c then go cs'
            else clear_rpr c :: go cs'
        end) (children e)).

(** What [_apply_clear_direct_formatting] does to the paragraph it
    found: the loop over [p.findall(".//w:rPr")]. *)
Definition clear_paragraph (p : element) : element :=
  set_children p (map clear_rpr (children p)).

Definition _apply_clear_direct_formatting (doc_root : element)
  (params : pydict string pyvalue) : result element :=
  let idx := dict_get params "paragraph_index" in
  target ← paragraph_target doc_root idx;
  match target with
  | None => Ok doc_root
  | Some n => Ok (update_desc (wq "p") clear_paragraph n doc_root)
  end.

(** [str(v)] as used by the f-string of the TOC instruction. *)
Definition py_str (v : pyvalue) : string :=
  match v with
  | PyNone => "None"
  | PyInt z => str_of_int z
  | PyStr s => s
  end.

Definition dquote : string := String (ascii_of_nat 34) EmptyString.

Definition toc_instr (max_level : pyvalue) : string :=
  "TOC \o " ++ dquote ++ "1-" ++ py_str max_level ++ dquote ++ " \h \z \u".

Definition toc_paragraph (max_level : pyvalue) : element :=
  Element (wq "p") [] None None
    [ Element (wq "pPr") [] None None
        [ Element (wq "pStyle") [(wq "val", "FrontHeading")] None None [] ];
      Element (wq "r") [] None None
        [ Element (wq "fldSimple") [(wq "instr", toc_instr max_level)]
            None None [] ] ].

Definition is_h1_paragraph (p : element) : bool :=
  match Validator._get_p_style p with
  | Some v => bool_decide (v ∈ ["H1"; "FrontHeading"])
  | None => false
  end.

(** The index, within [ps], of the first heading paragraph; 0 when
    there is none. *)
Fixpoint first_h1_index (ps : list element) : option nat :=
  match ps with
  | [] => None
  | p :: ps' => if is_h1_paragraph p then Some O else S <$> first_h1_index ps'
  end.

Definition _apply_insert_toc (doc_root : element)
  (params : pydict string pyvalue) : result element :=
  let max_level := default (PyInt 3) (dict_get params "max_level") in
  match find (wq "body") doc_root with
  | None => Ok doc_root
  | Some body =>
      let ps := findall (wq "p") body in
      let insert_idx := default O (first_h1_index ps) in
      Ok (update_find (wq "body")
            (insert_child insert_idx (toc_paragraph max_level)) doc_root)
  end.

Definition apply_action (spec : StyleSpec) (doc_root : element) (act : PatchAction)
  : result element :=
  if decide (action act = "set_page_margins") then
    _apply_set_page_margins doc_root (params act) spec
  else if decide (action act = "set_paragraph_style") then
    _apply_set_paragraph_style doc_root (params act)
  else if decide (action act = "clear_direct_run_formatting") then
    _apply_clear_direct_formatting doc_root (params act)
  else if decide (action act = "insert_toc_field") then
    _apply_insert_toc doc_root (params act)
  else Ok doc_root.

(** The loop of [apply_patch] over [patch.actions]. *)
Fixpoint apply_actions (spec : StyleSpec) (doc_root : element) (acts : Patch)
  : result element :=
  match acts with
  | [] => Ok doc_root
  | act :: rest =>
      doc_root' ← apply_action spec doc_root act;
      apply_actions spec doc_root' rest
  end.

Definition build_patch_from_report (report : ValidationReport) : Patch :=
  List.flat_map
    (fun v => match suggestion v with Some sg => [sg] | None => [] end)
    (violations report).

(** [apply_patch]; [clock] is the time source of [to_bytes]. *)
Definition apply_patch (docx_bytes : pybytes) (patch : Patch) (spec : StyleSpec)
  (clock : nat -> Z) : result pybytes :=
  pkg ← from_bytes docx_bytes;
  doc_root ← read_xml pkg "word/document.xml";
  doc_root' ← apply_actions spec doc_root patch;
  to_bytes (write_xml pkg "word/document.xml" doc_root') clock.

Definition fix_docx (docx_bytes : pybytes) (report : ValidationReport)
  (spec : StyleSpec) (clock : nat -> Z) : result pybytes :=
  let patch := build_patch_from_report report in
  match patch with
  | [] => Ok docx_bytes
  | _ :: _ => apply_patch docx_bytes patch spec clock
  end.

End Fixer.

(** ** models/ast.py *)

Module Ast.

(** Python [str] where the code acts on single characters: the list of
    its code points. *)
Definition ustr := list N.

(** The code points of an ASCII literal. *)
Definition cp (s : string) : ustr :=
  map (fun a => N.of_nat (nat_of_ascii a)) (list_ascii_of_string s).

Inductive InlineType :=
| IText | IBold | IItalic | IUnderline | ISuperscript | ISubscript | ICode.

Record Inline := { i_type : InlineType; i_text : ustr }.

Inductive Block :=
| HeadingBlock (level : Z) (text : ustr)
| ParagraphBlock (text : option ustr) (inlines : option (list Inline))
| ListBlock (ordered : bool) (items : list (list Inline))
| TableBlock (rows : list (list ustr)) (caption : option ustr)
| FigureBlock (path : ustr) (caption : option ustr)
| PageBreakBlock
| SectionBreakBlock
| BibliographyBlock (items : list ustr).

Record DocumentMeta := {
  title_cn : option ustr;
  title_en : option ustr;
  author : option ustr;
  major : option ustr;
  tutor : option ustr;
  extra : pydict ustr ustr
}.

Record DocumentAST := {
  meta : DocumentMeta;
  blocks : list Block
}.

End Ast.
Export Ast.

(** ** services/ast_generator.py: the plain-text heuristic *)

Module AstGenerator.

(** *** String methods on code points *)

(** The characters at which [str.splitlines] breaks a line. *)
Definition is_linebreak_cp (c : N) : bool :=
  ((10 <=? c) && (c <=? 13) || (28 <=? c) && (c <=? 30)
   || (c =? 133) || (c =? 8232) || (c =? 8233))%N.

(** [s.splitlines()]; [cur] is the line read so far. A carriage return
    followed by a line feed is one break. *)
Fixpoint splitlines_from (cur : ustr) (s : ustr) : list ustr :=
  match s with
  | [] => match cur with [] => [] | _ :: _ => [cur] end
  | c :: s' =>
      if is_linebreak_cp c then
        cur :: match s' with
               | d :: s'' =>
                   if ((c =? 13) && (d =? 10))%N then splitlines_from [] s''
                   else splitlines_from [] s'
               | [] => []
               end
      else splitlines_from (cur ++ [c]) s'
  end.

Definition splitlines (s : ustr) : list ustr := splitlines_from [] s.

(** [s.split()]: the maximal runs of characters that are not white
    space; [cur] is the run read so far. *)
Fixpoint split_ws_from (cur : ustr) (s : ustr) : list ustr :=
  match s with
  | [] => match cur with [] => [] | _ :: _ => [cur] end
  | c :: s' =>
      if is_space_cp c then
        match cur with
        | [] => split_ws_from [] s'
        | _ :: _ => cur :: split_ws_from [] s'
        end
      else split_ws_from (cur ++ [c]) s'
  end.

Definition split_ws (s : ustr) : list ustr := split_ws_from [] s.

Fixpoint take_word (s : ustr) : ustr :=
  match s with
  | c :: s' => if is_space_cp c then [] else c :: take_word s'
  | [] => []
  end.

Fixpoint drop_word (s : ustr) : ustr :=
  match s with
  | c :: s' => if is_space_cp c then s else drop_word s'
  | [] => []
  end.

(** [s.split(None, 1)]: the first word and, when something other than
    white space follows it, the rest of the string from there. *)
Definition split_ws_1 (s : ustr) : list ustr :=
  match lstrip_cp s with
  | [] => []
  | s1 =>
      match lstrip_cp (drop_word s1) with
      | [] => [take_word s1]
      | rest => [take_word s1; rest]
      end
  end.

(** [s.count(c)] for a one-character [c]. *)
Definition count_cp (c : N) (s : ustr) : nat :=
  length (List.filter (fun d => (d =? c)%N) s).

(** [sep.join(items)] *)
Fixpoint join_cp (sep : ustr) (items : list ustr) : ustr :=
  match items with
  | [] => []
  | [x] => x
  | x :: rest => x ++ sep ++ join_cp sep rest
  end.

(** [s.split(":", 1)] when [s] holds a colon: the text before the
    first colon and the text after it. *)
Fixpoint split_colon (s : ustr) : option (ustr * ustr) :=
  match s with
  | [] => None
  | c :: s' =>
      if (c =? 58)%N then Some ([], s')
      else match split_colon s' with
           | Some (k, v) => Some (c :: k, v)
           | None => None
           end
  end.

(** *** Regular expressions *)

Inductive regex :=
| Void
| Eps
| Chr (p : N -> bool)
| Cat (r1 r2 : regex)
| Alt (r1 r2 : regex)
| Star (r : regex).

Fixpoint nullable (r : regex) : bool :=
  match r with
  | Void => false
  | Eps => true
  | Chr _ => false
  | Cat r1 r2 => nullable r1 && nullable r2
  | Alt r1 r2 => nullable r1 || nullable r2
  | Star _ => true
  end.

(** The derivative of [r] by the character [c]. *)
Fixpoint deriv (c : N) (r : regex) : regex :=
  match r with
  | Void => Void
  | Eps => Void
  | Chr p => if p c then Eps else Void
  | Cat r1 r2 =>
      if nullable r1 then Alt (Cat (deriv c r1) r2) (deriv c r2)
      else Cat (deriv c r1) r2
  | Alt r1 r2 => Alt (deriv c r1) (deriv c r2)
  | Star r1 => Cat (deriv c r1) (Star r1)
  end.

(** Whether the whole of [s] is in the language of [r]. *)
Definition matches (r : regex) (s : ustr) : bool :=
  nullable (fold_left (fun r c => deriv c r) s r).

Definition Plus (r : regex) : regex := Cat r (Star r).

Section heuristic.

(** [\d] in a [str] pattern matches every character of the Unicode
    category Nd; the table is the interpreter's and is a parameter
    here. *)
Variable is_decimal : N -> bool.

Definition is_sep_cp (c : N) : bool := ((c =? 46) || (c =? 65294))%N.

Definition not_newline (c : N) : bool := negb (c =? 10)%N.

Definition digits : regex := Plus (Chr is_decimal).

Definition sep_digits : regex := Cat (Chr is_sep_cp) digits.

(** [_HEADING_NUM_RE]: the pattern
    [^\s*(\d+)([\.．](\d+))*([\.．](\d+))*\s+(.+)$]. [match] anchors it at
    the start; [$] lets it end at the end of the string or before a
    line feed that ends the string. *)
Definition numeric_prefix : regex :=
  Cat digits (Cat (Star sep_digits) (Star sep_digits)).

Definition _HEADING_NUM_RE : regex :=
  Cat (Star (Chr is_space_cp))
    (Cat numeric_prefix
       (Cat (Plus (Chr is_space_cp))
          (Cat (Plus (Chr not_newline))
             (Alt Eps (Chr (fun c => (c =? 10)%N)))))).

(** *** [_parse_front_matter] *)

Definition dashes : ustr := cp "---".

(** The [while] loop: [None] when no closing line is found. *)
Fixpoint front_matter_loop (lines : list ustr) (meta : pydict ustr ustr)
  : option (pydict ustr ustr * ustr) :=
  match lines with
  | [] => None
  | l :: rest =>
      if decide (strip_cp l = dashes) then Some (meta, join_cp [10%N] rest)
      else
        match split_colon l with
        | Some (k, v) =>
            front_matter_loop rest (dict_set meta (strip_cp k) (strip_cp v))
        | None => front_matter_loop rest meta
        end
  end.

Definition _parse_front_matter (text : ustr) : pydict ustr ustr * ustr :=
  match splitlines text with
  | [] => ([], text)
  | l0 :: rest =>
      if decide (strip_cp l0 = dashes) then
        match front_matter_loop rest [] with
        | Some r => r
        | None => ([], text)
        end
      else ([], text)
  end.

(** *** [parse_plaintext_heuristic] *)

(** The two variables of the loop. *)
Record pstate := { st_blocks : list Block; st_para_buf : list ustr }.

Definition flush_para (st : pstate) : pstate :=
  match st_para_buf st with
  | [] => st
  | _ :: _ =>
      let t := strip_cp (join_cp [10%N] (st_para_buf st)) in
      {| st_blocks :=
           match t with
           | [] => st_blocks st
           | _ :: _ => st_blocks st ++ [ParagraphBlock (Some t) None]
           end;
         st_para_buf := [] |}
  end.

Definition add_block (b : Block) (st : pstate) : pstate :=
  {| st_blocks := st_blocks st ++ [b]; st_para_buf := st_para_buf st |}.

(** [line.split()[0]]; the line is not blank where this is used. *)
Definition first_word (line : ustr) : ustr := hd [] (split_ws line).

Definition heading_level (line : ustr) : Z :=
  let prefix := first_word line in
  let sep_count := (count_cp 46 prefix + count_cp 65294 prefix)%nat in
  Z.min (1 + Z.of_nat sep_count) 3.

Definition heading_title (line : ustr) : ustr :=
  match split_ws_1 line with
  | [_; rest] => strip_cp rest
  | _ => strip_cp line
  end.

(** The body of the loop [for line in lines]. *)
Definition heuristic_step (st : pstate) (line : ustr) : pstate :=
  let s := strip_cp line in
  match s with
  | [] => flush_para st
  | _ :: _ =>
      if bool_decide (s ∈ [cp "[[PAGEBREAK]]"; cp "---pagebreak---"]) then
        add_block PageBreakBlock (flush_para st)
      else if bool_decide (s ∈ [cp "[[SECTIONBREAK]]"; cp "---sectionbreak---"]) then
        add_block SectionBreakBlock (flush_para st)
      else if matches _HEADING_NUM_RE line then
        add_block (HeadingBlock (heading_level line) (heading_title line))
          (flush_para st)
      else {| st_blocks := st_blocks st; st_para_buf := st_para_buf st ++ [line] |}
  end.

Definition meta_keys : list ustr :=
  [cp "title_cn"; cp "title_en"; cp "author"; cp "major"; cp "tutor"].

Definition document_meta (meta : pydict ustr ustr) : DocumentMeta :=
  {| title_cn := dict_get meta (cp "title_cn");
     title_en := dict_get meta (cp "title_en");
     author := dict_get meta (cp "author");
     major := dict_get meta (cp "major");
     tutor := dict_get meta (cp "tutor");
     extra := List.filter (fun kv => negb (bool_decide (kv.1 ∈ meta_keys))) meta |}.

Definition parse_plaintext_heuristic (text : ustr) : DocumentAST :=
  let '(meta, body) := _parse_front_matter text in
  let st := fold_left heuristic_step (splitlines body)
              {| st_blocks := []; st_para_buf := [] |} in
  {| meta := document_meta meta; blocks := st_blocks (flush_para st) |}.

End heuristic.

(** The ASCII digits, which every table of decimal digits contains. *)
Definition is_ascii_digit (c : N) : bool := ((48 <=? c) && (c <=? 57))%N.

End AstGenerator.

(** ** services/compiler.py *)

Module Compiler.
Import Stylespec.

Inductive InputFormat := MARKDOWN | PLAINTEXT | AUTO.

Inductive CompilePhase := PARSE | SPEC | TEMPLATE | RENDER | VALIDATE | FIX | DONE.

Record CompileProgress := {
  phase : CompilePhase;
  progress : Q;
  message : string;
  detail : option string
}.

Record CompileResult := {
  success : bool;
  docx_bytes : option pybytes;
  ast : option DocumentAST;
  spec : option StyleSpec;
  report : option ValidationReport;
  error : option string;
  warnings : list string
}.

Record CompileOptions := {
  input_format : InputFormat;
  spec_name : option string;
  custom_spec : option StyleSpec;
  reference_docx_bytes : option pybytes;
  include_cover : bool;
  include_toc : bool;
  toc_title : string;
  auto_fix : bool;
  max_fix_iterations : Z
}.

(** [CompileOptions()] *)
Definition default_options : CompileOptions :=
  {| input_format := AUTO; spec_name := None; custom_spec := None;
     reference_docx_bytes := None; include_cover := true; include_toc := true;
     toc_title := "目 录"; auto_fix := true; max_fix_iterations := 3 |}.

Record RenderOptions := {
  r_include_cover : bool;
  r_include_toc : bool;
  r_toc_title : string
}.

(** A progress callback returns nothing and may raise. *)
Definition ProgressCallback := CompileProgress -> result unit.

(** What the compiler calls and this file does not define: the
    Markdown parser (mistune), the paragraph typing that asks the AI
    service, the built-in specifications, the template generator and
    the renderer, the table of decimal digits and the clock. *)
Record Env := {
  parse_markdown_to_ast : ustr -> result DocumentAST;
  ai_parse_plaintext : ustr -> result DocumentAST;
  builtin_specs : pydict string StyleSpec;
  build_generic_spec : StyleSpec;
  generate_reference_docx : StyleSpec -> result pybytes;
  patch_reference_docx : StyleSpec -> pybytes -> result pybytes;
  render_docx : DocumentAST -> StyleSpec -> pybytes -> RenderOptions -> result pybytes;
  is_decimal : N -> bool;
  clock : nat -> Z
}.

(** [str(e)] *)
Definition exn_str (e : pyexn) : string :=
  match e with
  | KeyError msg => "'" +:+ msg +:+ "'"
  | ValueError msg | TypeError msg | OverflowError msg => msg
  | IndexError msg | ZeroDivisionError msg | StructError msg => msg
  | XMLSyntaxError => "XMLSyntaxError"
  | BadZipFile => "File is not a zip file"
  end.

(** *** [detect_input_format] *)

Fixpoint starts_with (sub s : ustr) : bool :=
  match sub, s with
  | [], _ => true
  | a :: sub', b :: s' => (a =? b)%N && starts_with sub' s'
  | _ :: _, [] => false
  end.

(** [sub in s] *)
Fixpoint contains_cp (sub s : ustr) : bool :=
  starts_with sub s ||
  match s with
  | [] => false
  | _ :: s' => contains_cp sub s'
  end.

Definition detect_input_format (text : ustr) : InputFormat :=
  let head := take 500 text in
  let md_indicators :=
    [ starts_with (cp "---") (strip_cp text);
      contains_cp (cp "# ") head;
      contains_cp (cp "## ") head;
      contains_cp (cp "### ") head;
      contains_cp (cp "```") text;
      contains_cp (cp "![") text;
      contains_cp (cp "| ") text && contains_cp (cp " |") text ] in
  if (2 <=? length (List.filter id md_indicators))%nat then MARKDOWN else PLAINTEXT.

(** *** Effects of a compilation

    A computation reads and extends the list [warnings], calls the
    progress callback, and returns or raises. It yields the progress
    events it delivered, the list of warnings at its end and its
    outcome. *)
Definition M (A : Type) : Type :=
  list string -> list CompileProgress * list string * result A.

Definition ret {A} (a : A) : M A := fun w => ([], w, Ok a).

Definition bindM {A B} (m : M A) (k : A -> M B) : M B :=
  fun w =>
    let '(ev1, w1, r) := m w in
    match r with
    | Ok a => let '(ev2, w2, r2) := k a w1 in (ev1 ++ ev2, w2, r2)
    | Raise e => (ev1, w1, Raise e)
    end.

#[global] Instance M_ret : MRet M := @ret.
#[global] Instance M_bind : MBind M := fun A B k m => bindM m k.

Definition lift {A} (r : result A) : M A := fun w => ([], w, r).

(** [warnings.append(msg)] *)
Definition warn (msg : string) : M unit := fun w => ([], w ++ [msg], Ok tt).

(** [try: body except Exception as e: handler(e)] *)
Definition try_except {A} (body : M A) (handler : pyexn -> M A) : M A :=
  fun w =>
    let '(ev1, w1, r) := body w in
    match r with
    | Ok a => (ev1, w1, Ok a)
    | Raise e => let '(ev2, w2, r2) := handler e w1 in (ev1 ++ ev2, w2, r2)
    end.

(** The local function [notify]. *)
Definition notify (cb : option ProgressCallback) (ph : CompilePhase) (pr : Q)
  (msg : string) (det : option string) : M unit :=
  match cb with
  | None => ret tt
  | Some f =>
      let p := {| phase := ph; progress := pr; message := msg; detail := det |} in
      fun w => ([p], w, f p)
  end.

(** [return CompileResult(success=False, error=msg, warnings=warnings)] *)
Definition failure (msg : string) : M CompileResult :=
  fun w => ([], w, Ok {| success := false; docx_bytes := None; ast := None;
                         spec := None; report := None; error := Some msg;
                         warnings := w |}).

(** The truth value of a [bytes] object: false when it is empty. *)
Definition bytes_truthy (b : pybytes) : bool :=
  match b with Raw [] => false | _ => true end.

Section pipeline.
Variable env : Env.
Variable options : CompileOptions.
Variable progress_callback : option ProgressCallback.

Definition select_spec : StyleSpec :=
  match custom_spec options with
  | Some s => s
  | None =>
      match spec_name options with
      | Some n =>
          if negb (bool_decide (n = "")) then
            match dict_get (builtin_specs env) n with
            | Some s => s
            | None => build_generic_spec env
            end
          else build_generic_spec env
      | None => build_generic_spec env
      end
  end.

Definition make_reference (sp : StyleSpec) : result pybytes :=
  match reference_docx_bytes options with
  | Some b =>
      if bytes_truthy b then patch_reference_docx env sp b
      else generate_reference_docx env sp
  | None => generate_reference_docx env sp
  end.

Definition render_opts : RenderOptions :=
  {| r_include_cover := include_cover options;
     r_include_toc := include_toc options;
     r_toc_title := toc_title options |}.

(** The loop [for i in range(options.max_fix_iterations)]; [n] counts
    the iterations left, [i] the ones done. [note] tells whether the
    iteration publishes its progress, which only [compile_document]
    does. *)
Fixpoint fix_loop (note : bool) (sp : StyleSpec) (n : nat) (i : Z)
  (docx : pybytes) (rep : ValidationReport) : M (pybytes * ValidationReport) :=
  match n with
  | O => ret (docx, rep)
  | S n' =>
      docx' ← lift (Fixer.fix_docx docx rep sp (clock env));
      rep' ← lift (Validator.validate_docx docx' sp);
      _ ← (if note then
             notify progress_callback FIX
               (inject_Z (i + 1) / inject_Z (max_fix_iterations options))
               ("修复迭代 " +:+ str_of_int (i + 1) +:+ "/"
                  +:+ str_of_int (max_fix_iterations options)) None
           else ret tt);
      if ok (summary rep') then ret (docx', rep')
      else fix_loop note sp n' (i + 1) docx' rep'
  end.

Definition blocks_detail (a : DocumentAST) : string :=
  "识别到 " +:+ str_of_int (Z.of_nat (length (blocks a))) +:+ " 个内容块".

Definition success_result (docx : pybytes) (a : DocumentAST) (sp : StyleSpec)
  (rep : ValidationReport) : M CompileResult :=
  fun w => ([], w, Ok {| success := true; docx_bytes := Some docx;
                         ast := Some a; spec := Some sp; report := Some rep;
                         error := None; warnings := w |}).

(** The [try] block of [compile_document]. *)
Definition compile_document_body (text : ustr) : M CompileResult :=
  _ ← notify progress_callback PARSE 0 "解析输入文本..." None;
  let fmt := match input_format options with
             | AUTO => detect_input_format text
             | f => f
             end in
  a ← lift (match fmt with
            | MARKDOWN => parse_markdown_to_ast env text
            | _ => Ok (AstGenerator.parse_plaintext_heuristic (is_decimal env) text)
            end);
  _ ← notify progress_callback PARSE 1 "文本解析完成" (Some (blocks_detail a));
  _ ← notify progress_callback SPEC 0 "加载格式规范..." None;
  let sp := select_spec in
  _ ← notify progress_callback SPEC 1 "格式规范已加载"
        (Some (default "Custom" (dict_get (Stylespec.meta sp) "name")));
  _ ← notify progress_callback TEMPLATE 0 "生成模板文档..." None;
  reference_bytes ← lift (make_reference sp);
  _ ← notify progress_callback TEMPLATE 1 "模板文档已生成" None;
  _ ← notify progress_callback RENDER 0 "渲染文档..." None;
  docx ← lift (render_docx env a sp reference_bytes render_opts);
  _ ← notify progress_callback RENDER 1 "文档渲染完成" None;
  _ ← notify progress_callback VALIDATE 0 "验证文档..." None;
  rep ← lift (Validator.validate_docx docx sp);
  _ ← notify progress_callback VALIDATE 1 "文档验证完成"
        (Some ("错误: " +:+ str_of_int (Z.of_nat (errors (summary rep)))
                 +:+ ", 警告: "
                 +:+ str_of_int (Z.of_nat (Validation.warnings (summary rep)))));
  fixed ←
    (if auto_fix options && negb (ok (summary rep)) then
       _ ← notify progress_callback FIX 0 "自动修复问题..." None;
       r ← fix_loop true sp (Z.to_nat (max_fix_iterations options)) 0 docx rep;
       _ ← (if negb (ok (summary r.2)) then
              warn ("自动修复后仍有 "
                      +:+ str_of_int (Z.of_nat (errors (summary r.2)))
                      +:+ " 个错误")
            else ret tt);
       _ ← notify progress_callback FIX 1 "修复完成" None;
       ret r
     else ret (docx, rep));
  _ ← notify progress_callback DONE 1 "编译完成" None;
  success_result fixed.1 a sp fixed.2.

(** [compile_document]: its list [warnings] is its own; the caller
    sees the events it delivered and the result it returns. *)
Definition compile_document (text : ustr) : list CompileProgress * CompileResult :=
  let '(ev, w, r) :=
    try_except (compile_document_body text) (fun e => failure (exn_str e)) [] in
  (ev, match r with
       | Ok res => res
       | Raise e =>
           {| success := false; docx_bytes := None; ast := None; spec := None;
              report := None; error := Some (exn_str e); warnings := w |}
       end).

(** [_compile_from_ast]: works on the list [warnings] of its caller. *)
Definition _compile_from_ast (a : DocumentAST) : M CompileResult :=
  try_except
    (_ ← notify progress_callback SPEC 0 "加载格式规范..." None;
     let sp := select_spec in
     _ ← notify progress_callback SPEC 1 "格式规范已加载" None;
     _ ← notify progress_callback TEMPLATE 0 "生成模板文档..." None;
     reference_bytes ← lift (make_reference sp);
     _ ← notify progress_callback TEMPLATE 1 "模板文档已生成" None;
     _ ← notify progress_callback RENDER 0 "渲染文档..." None;
     docx ← lift (render_docx env a sp reference_bytes render_opts);
     _ ← notify progress_callback RENDER 1 "文档渲染完成" None;
     _ ← notify progress_callback VALIDATE 0 "验证文档..." None;
     rep ← lift (Validator.validate_docx docx sp);
     _ ← notify progress_callback VALIDATE 1 "验证完成" None;
     fixed ←
       (if auto_fix options && negb (ok (summary rep)) then
          _ ← notify progress_callback FIX 0 "自动修复..." None;
          r ← fix_loop false sp (Z.to_nat (max_fix_iterations options)) 0 docx rep;
          _ ← notify progress_callback FIX 1 "修复完成" None;
          ret r
        else ret (docx, rep));
     _ ← notify progress_callback DONE 1 "编译完成" None;
     success_result fixed.1 a sp fixed.2)
    (fun e => failure (exn_str e)).

(** The value of a call expression: calling an [async def] function
    gives a coroutine, which runs when it is awaited; calling a [def]
    function runs it and gives what it returns. *)
Inductive callvalue (A : Type) :=
| Coroutine (body : M A)
| Plain (a : A).
Arguments Coroutine {A} body.
Arguments Plain {A} a.

(** [await v]: an object that is not awaitable raises [TypeError]. *)
Definition await {A} (tyname : string) (v : callvalue A) : M A :=
  match v with
  | Coroutine body => body
  | Plain _ =>
      lift (Raise (TypeError ("object " +:+ tyname
                                +:+ " can't be used in 'await' expression")))
  end.

(** The call [compile_document(text, options, progress_callback)]. *)
Definition call_compile_document (text : ustr) : M (callvalue CompileResult) :=
  fun w => let '(ev, res) := compile_document text in (ev, w, Ok (Plain res)).

(** The [try] block of [compile_document_with_ai]. *)
Definition compile_with_ai_body (text : ustr) : M CompileResult :=
  _ ← notify progress_callback PARSE 0 "AI 分析文本结构..." None;
  let fmt := match input_format options with
             | AUTO => detect_input_format text
             | f => f
             end in
  a ← (match fmt with
       | MARKDOWN =>
           a ← lift (parse_markdown_to_ast env text);
           _ ← notify progress_callback PARSE 1 "Markdown 解析完成" None;
           ret a
       | _ =>
           _ ← notify progress_callback PARSE (3 # 10)
                 "调用 AI 识别段落类型..." None;
           a ← lift (ai_parse_plaintext env text);
           _ ← notify progress_callback PARSE 1 "段落识别完成"
                 (Some (blocks_detail a));
           ret a
       end);
  await "CompileResult" (Coroutine (_compile_from_ast a)).

(** [compile_document_with_ai] *)
Definition compile_document_with_ai (text : ustr)
  : list CompileProgress * CompileResult :=
  let '(ev, w, r) :=
    try_except (compile_with_ai_body text)
      (fun e =>
         try_except
           (_ ← warn ("AI 编译失败，已降级到规则模式: " +:+ exn_str e);
            _ ← notify progress_callback PARSE (1 # 2) "降级到规则解析模式..." None;
            v ← call_compile_document text;
            await "CompileResult" v)
           (fun fallback_error =>
              failure ("编译失败: " +:+ exn_str fallback_error
                         +:+ " (原始错误: " +:+ exn_str e +:+ ")"))) [] in
  (ev, match r with
       | Ok res => res
       | Raise e =>
           {| success := false; docx_bytes := None; ast := None; spec := None;
              report := None; error := Some (exn_str e); warnings := w |}
       end).

End pipeline.

End Compiler.

(** ** services/job_manager.py *)

Module JobManager.

Inductive JobStatus := PENDING | RUNNING | COMPLETED | FAILED | CANCELLED.

#[global] Instance JobStatus_eq_dec : EqDecision JobStatus.
Proof. solve_decision. Defined.

(** The time stamps of the records are left out. *)
Record JobProgress := {
  jp_phase : Compiler.CompilePhase;
  jp_progress : Q;
  jp_message : string;
  jp_detail : option string
}.

Record Job := {
  job_id : string;
  status : JobStatus;
  input_text : option ustr;
  input_file_name : option string;
  options : option Compiler.CompileOptions;
  result : option Compiler.CompileResult;
  progress_history : list JobProgress;
  current_progress : option JobProgress;
  error : option string;
  output_bytes : option pybytes;
  output_filename : option string
}.

Definition set_status (s : JobStatus) (j : Job) : Job :=
  {| job_id := job_id j; status := s; input_text := input_text j;
     input_file_name := input_file_name j; options := options j;
     result := result j; progress_history := progress_history j;
     current_progress := current_progress j; error := error j;
     output_bytes := output_bytes j; output_filename := output_filename j |}.

(** [create_job] *)
Definition create_job (id : string) (text : option ustr) (fname : option string)
  (opts : option Compiler.CompileOptions) : Job :=
  {| job_id := id; status := PENDING; input_text := text;
     input_file_name := fname; options := opts; result := None;
     progress_history := []; current_progress := None; error := None;
     output_bytes := None; output_filename := None |}.

(** The local function [progress_callback] of [run_job]. *)
Definition progress_callback (p : Compiler.CompileProgress) (j : Job) : Job :=
  let jp := {| jp_phase := Compiler.phase p; jp_progress := Compiler.progress p;
               jp_message := Compiler.message p; jp_detail := Compiler.detail p |} in
  {| job_id := job_id j; status := status j; input_text := input_text j;
     input_file_name := input_file_name j; options := options j;
     result := result j; progress_history := progress_history j ++ [jp];
     current_progress := Some jp; error := error j;
     output_bytes := output_bytes j; output_filename := output_filename j |}.

(** [s.rsplit(".", 1)[0]]: [s] without its last dot and what follows. *)
Fixpoint rsplit_dot_head (s : string) : string * bool :=
  match s with
  | EmptyString => (EmptyString, false)
  | String a s' =>
      let '(h, found) := rsplit_dot_head s' in
      if found then (String a h, true)
      else if decide (a = "."%char) then (EmptyString, true)
      else (String a h, false)
  end.

Definition _generate_output_filename (j : Job) : string :=
  match input_file_name j with
  | Some n =>
      if negb (bool_decide (n = "")) then
        (rsplit_dot_head n).1 +:+ "_formatted.docx"
      else "formatted_" +:+ substring 0 8 (job_id j) +:+ ".docx"
  | None => "formatted_" +:+ substring 0 8 (job_id j) +:+ ".docx"
  end.

(** [run_job] up to the call of the compiler. *)
Definition run_job_enter (j : Job) : Job := set_status RUNNING j.

(** [run_job] from the return of the compiler on; [outcome] is what
    the call returned or raised. *)
Definition run_job_finish (outcome : Py.result Compiler.CompileResult) (j : Job)
  : Job :=
  match outcome with
  | Ok r =>
      if Compiler.success r then
        {| job_id := job_id j; status := COMPLETED; input_text := input_text j;
           input_file_name := input_file_name j; options := options j;
           result := Some r; progress_history := progress_history j;
           current_progress := current_progress j; error := error j;
           output_bytes := Compiler.docx_bytes r;
           output_filename := Some (_generate_output_filename j) |}
      else
        {| job_id := job_id j; status := FAILED; input_text := input_text j;
           input_file_name := input_file_name j; options := options j;
           result := Some r; progress_history := progress_history j;
           current_progress := current_progress j; error := Compiler.error r;
           output_bytes := output_bytes j;
           output_filename := output_filename j |}
  | Raise e =>
      {| job_id := job_id j; status := FAILED; input_text := input_text j;
         input_file_name := input_file_name j; options := options j;
         result := result j; progress_history := progress_history j;
         current_progress := current_progress j;
         error := Some (Compiler.exn_str e);
         output_bytes := output_bytes j; output_filename := output_filename j |}
  end.

(** [cancel_job] for a job that exists; it takes no lock and has no
    [await], so it runs in one piece wherever it is scheduled. *)
Definition cancel_job (j : Job) : Job * bool :=
  if bool_decide (status j ∈ [PENDING; RUNNING]) then (set_status CANCELLED j, true)
  else (j, false).

(** Where the task that runs [run_job] stands. *)
Inductive task_pc := NotStarted | InCompile | Returned.

(** One job of the manager, the free permits of the semaphore, the
    lock of the job and the task that runs it. *)
Record manager := {
  job : Job;
  semaphore : nat;
  lock_held : bool;
  task : task_pc
}.

(** What the event loop can run next. [Enter]: the task of [run_job]
    gets the semaphore and the lock, sets [RUNNING] and calls the
    compiler. [Finish]: the call is over and the task runs to its end.
    [Cancel]: some other task calls [cancel_job]. With an AI service
    the compiler awaits the service, and other tasks run between
    [Enter] and [Finish]; without one the call does not yield. *)
Inductive sched := Enter | Finish | Cancel.

Section machine.

(** The events that the compiler delivers to the callback and what the
    call returns or raises, for the job as [run_job] finds it. *)
Variable compile : Job -> list Compiler.CompileProgress * Py.result Compiler.CompileResult.

Definition step (ev : sched) (m : manager) : option manager :=
  match ev with
  | Enter =>
      match task m, semaphore m, lock_held m with
      | NotStarted, S n, false =>
          Some {| job := run_job_enter (job m); semaphore := n;
                  lock_held := true; task := InCompile |}
      | _, _, _ => None
      end
  | Finish =>
      match task m with
      | InCompile =>
          let '(events, outcome) := compile (job m) in
          let j1 := fold_left (fun j p => progress_callback p j) events (job m) in
          Some {| job := run_job_finish outcome j1;
                  semaphore := S (semaphore m);
                  lock_held := false; task := Returned |}
      | _ => None
      end
  | Cancel =>
      Some {| job := (cancel_job (job m)).1; semaphore := semaphore m;
              lock_held := lock_held m; task := task m |}
  end.

(** The values of [job.status] after each event of a schedule; [None]
    when the schedule asks for an event that cannot run. *)
Fixpoint status_trace (evs : list sched) (m : manager) : option (list JobStatus) :=
  match evs with
  | [] => Some []
  | ev :: rest =>
      match step ev m with
      | Some m' => (fun t => status (job m') :: t) <$> status_trace rest m'
      | None => None
      end
  end.

Fixpoint run (evs : list sched) (m : manager) : option manager :=
  match evs with
  | [] => Some m
  | ev :: rest =>
      match step ev m with
      | Some m' => run rest m'
      | None => None
      end
  end.

End machine.

(** A schedule of a job that runs without an AI service: nothing comes
    between [Enter] and [Finish]. *)
Fixpoint sync_schedule (evs : list sched) : bool :=
  match evs with
  | Enter :: rest =>
      match rest with
      | Finish :: rest' => sync_schedule rest'
      | _ => false
      end
  | _ :: rest => sync_schedule rest
  | [] => true
  end.

(** The order of the specification: a status may stay, [PENDING] may
    become anything else, [RUNNING] may become a terminal status, and a
    terminal status stays. *)
Definition terminal (s : JobStatus) : bool :=
  match s with COMPLETED | FAILED | CANCELLED => true | _ => false end.

Definition may_follow (s s' : JobStatus) : bool :=
  bool_decide (s = s') ||
  match s with
  | PENDING => true
  | RUNNING => terminal s'
  | _ => false
  end.

Fixpoint monotonic_from (s : JobStatus) (trace : list JobStatus) : bool :=
  match trace with
  | [] => true
  | s' :: rest => may_follow s s' && monotonic_from s' rest
  end.

(** The manager of a job that was just created. *)
Definition new_manager (j : Job) (permits : nat) : manager :=
  {| job := j; semaphore := permits; lock_held := false; task := NotStarted |}.

(** The compiler call of [run_job]. The callback of [run_job] never
    raises. *)
Definition compile_call (env : Compiler.Env) (ai_service : bool) (j : Job)
  : list Compiler.CompileProgress * Py.result Compiler.CompileResult :=
  let opts := default Compiler.default_options (options j) in
  let text := default [] (input_text j) in
  let cb := Some (fun _ : Compiler.CompileProgress => Ok tt) in
  let '(ev, res) :=
    if ai_service then Compiler.compile_document_with_ai env opts cb text
    else Compiler.compile_document env opts cb text in
  (ev, Ok res).

(** [JobStatus.value] *)
Definition status_value (s : JobStatus) : string :=
  match s with
  | PENDING => "pending"
  | RUNNING => "running"
  | COMPLETED => "completed"
  | FAILED => "failed"
  | CANCELLED => "cancelled"
  end.

(** [get_stats]; [jobs] is the dictionary [self._jobs]. *)
Definition get_stats (jobs : pydict string Job) : pydict string Z :=
  fold_left
    (fun stats j =>
       let k := status_value (status j) in
       dict_set stats k (default 0 (dict_get stats k) + 1))
    (map snd jobs)
    [ ("total", Z.of_nat (length jobs)); ("pending", 0); ("running", 0);
      ("completed", 0); ("failed", 0); ("cancelled", 0) ].

End JobManager.

(** ** services/spec_generator.py: custom specifications as JSON *)

Module SpecJson.
Import Stylespec.

(** What [json.loads] builds: [None], [bool], [int], [float], [str],
    [list] and [dict]. A JSON text is identified with the value it
    parses to; a text that does not parse is not part of the
    embedding. *)
#[warnings="-register-all"]
Inductive json :=
| JNull
| JBool (b : bool)
| JInt (z : Z)
| JFloat (f : pyfloat)
| JStr (s : string)
| JArr (items : list json)
| JObj (members : pydict string json).

(** *** [model_dump_json(exclude_none=True)] *)

(** A float that is not finite is written as [null]. *)
Definition dump_float (f : pyfloat) : json :=
  match f with
  | Finite q => JFloat (Finite q)
  | _ => JNull
  end.

(** A member whose value is [None] is left out. *)
Definition optional_member {A} (k : string) (dump : A -> json) (o : option A)
  : pydict string json :=
  match o with
  | Some a => [(k, dump a)]
  | None => []
  end.

Definition dump_alignment (a : Alignment) : json :=
  JStr match a with
       | AlignLeft => "left" | AlignCenter => "center"
       | AlignRight => "right" | AlignJustify => "justify"
       end.

Definition dump_rule (r : LineSpacingRule) : json :=
  JStr match r with
       | LsSingle => "single" | LsOneHalf => "1.5"
       | LsDouble => "double" | LsExact => "exact"
       end.

Definition dump_format (f : PageNumFormat) : json :=
  JStr match f with
       | RomanUpper => "romanUpper" | RomanLower => "romanLower"
       | Decimal => "decimal"
       end.

Definition dump_suffix (s : NumSuffix) : json :=
  JStr match s with
       | SuffixSpace => "space" | SuffixTab => "tab" | SuffixNothing => "nothing"
       end.

Definition dump_margins (m : MarginMM) : json :=
  JObj [ ("top", dump_float (top m)); ("bottom", dump_float (bottom m));
         ("left", dump_float (left m)); ("right", dump_float (right m));
         ("binding", dump_float (binding m)) ].

Definition dump_page (p : PageSpec) : json :=
  JObj [ ("size", JStr "A4"); ("margins_mm", dump_margins (margins_mm p));
         ("header_mm", dump_float (header_mm p));
         ("footer_mm", dump_float (footer_mm p)) ].

Definition dump_font (f : FontMapping) : json :=
  JObj [ ("eastAsia", JStr (eastAsia f)); ("ascii", JStr (Stylespec.ascii f));
         ("hAnsi", JStr (hAnsi f)) ].

Definition dump_paragraph (p : StyleParagraph) : json :=
  JObj ([ ("alignment", dump_alignment (alignment p));
          ("line_spacing_rule", dump_rule (line_spacing_rule p)) ]
        ++ optional_member "line_spacing" dump_float (line_spacing p)
        ++ [ ("space_before_pt", dump_float (space_before_pt p));
             ("space_after_pt", dump_float (space_after_pt p)) ]
        ++ optional_member "space_before_lines" dump_float (space_before_lines p)
        ++ optional_member "space_after_lines" dump_float (space_after_lines p)
        ++ [ ("first_line_indent_chars", dump_float (first_line_indent_chars p));
             ("hanging_indent_chars", dump_float (hanging_indent_chars p));
             ("keep_with_next", JBool (keep_with_next p));
             ("keep_lines", JBool (keep_lines p));
             ("page_break_before", JBool (page_break_before p));
             ("widows_control", JBool (widows_control p)) ]).

Definition dump_run (r : StyleRun) : json :=
  JObj [ ("bold", JBool (bold r)); ("italic", JBool (italic r));
         ("underline", JBool (underline r)); ("size_pt", dump_float (size_pt r));
         ("font", dump_font (font r)) ].

Definition dump_style (s : StyleDef) : json :=
  JObj ([ ("style_id", JStr (style_id s)); ("name", JStr (name s)) ]
        ++ optional_member "based_on" JStr (based_on s)
        ++ [ ("is_heading", JBool (is_heading s)) ]
        ++ optional_member "outline_level" JInt (outline_level s)
        ++ [ ("run", dump_run (run s)); ("paragraph", dump_paragraph (paragraph s)) ]).

Definition dump_level (l : NumberingLevel) : json :=
  JObj [ ("level", JInt (level l)); ("style_id", JStr (nl_style_id l));
         ("start", JInt (start l)); ("fmt", JStr "decimal");
         ("lvl_text", JStr (lvl_text l)); ("suffix", dump_suffix (suffix l)) ].

Definition dump_numbering (n : NumberingSpec) : json :=
  JObj [ ("abstract_num_id", JInt (abstract_num_id n)); ("num_id", JInt (num_id n));
         ("levels", JArr (map dump_level (levels n))) ].

Definition dump_forbidden (f : ForbiddenDirectFormatting) : json :=
  JObj [ ("font", JBool (fdf_font f)); ("size", JBool (fdf_size f));
         ("bold", JBool (fdf_bold f)); ("italic", JBool (fdf_italic f));
         ("underline", JBool (fdf_underline f)); ("color", JBool (fdf_color f)) ].

Definition dump_structure (s : StructureSpec) : json :=
  JObj [ ("required_h1_titles", JArr (map JStr (required_h1_titles s)));
         ("toc_max_level", JInt (toc_max_level s)) ].

Definition dump_page_numbering (p : PageNumberingSpec) : json :=
  JObj [ ("enabled", JBool (enabled p));
         ("front_format", dump_format (front_format p));
         ("front_start", JInt (front_start p));
         ("main_format", dump_format (main_format p));
         ("main_start", JInt (main_start p));
         ("show_in_footer", JBool (show_in_footer p));
         ("footer_alignment", dump_alignment (footer_alignment p)) ].

(** [export_spec_to_json] *)
Definition export_spec_to_json (s : StyleSpec) : json :=
  JObj ([ ("meta", JObj (map (fun kv => (kv.1, JStr kv.2)) (meta s)));
          ("page", dump_page (page s));
          ("styles", JObj (map (fun kv => (kv.1, dump_style kv.2)) (styles s))) ]
        ++ optional_member "numbering" dump_numbering (numbering s)
        ++ [ ("structure", dump_structure (structure s));
             ("forbidden_direct_formatting",
              dump_forbidden (forbidden_direct_formatting s)) ]
        ++ optional_member "page_numbering" dump_page_numbering (page_numbering s)
        ++ [ ("auto_prefix_abstract_keywords",
              JBool (auto_prefix_abstract_keywords s));
             ("auto_number_figures_tables",
              JBool (auto_number_figures_tables s)) ]).

(** *** [StyleSpec.model_validate]

    Every failure is the [ValueError] that [validate_custom_spec]
    raises. Of the conversions of pydantic's lax mode, only the one
    from [int] to [float] is embedded; a document that needs another
    one is rejected here. *)
Definition invalid {A} : result A := Raise (ValueError "规范验证失败").

Definition as_float (j : json) : result pyfloat :=
  match j with
  | JFloat f => Ok f
  | JInt z => Ok (Finite (inject_Z z))
  | _ => invalid
  end.

(** [x >= 0] and [x > 0] on floats. *)
Definition float_ge0 (f : pyfloat) : bool :=
  match f with
  | Finite q => Qle_bool 0 q
  | Inf negative => negb negative
  | NaN => false
  end.

Definition float_gt0 (f : pyfloat) : bool :=
  match f with
  | Finite q => Qle_bool 0 q && negb (Qeq_bool 0 q)
  | Inf negative => negb negative
  | NaN => false
  end.

Definition as_float_ge0 (j : json) : result pyfloat :=
  f ← as_float j; if float_ge0 f then Ok f else invalid.

Definition as_float_gt0 (j : json) : result pyfloat :=
  f ← as_float j; if float_gt0 f then Ok f else invalid.

Definition as_int (j : json) : result Z :=
  match j with JInt z => Ok z | _ => invalid end.

Definition as_int_between (lo hi : Z) (j : json) : result Z :=
  z ← as_int j; if ((lo <=? z) && (z <=? hi))%Z then Ok z else invalid.

Definition as_int_from (lo : Z) (j : json) : result Z :=
  z ← as_int j; if (lo <=? z)%Z then Ok z else invalid.

Definition as_str (j : json) : result string :=
  match j with JStr s => Ok s | _ => invalid end.

Definition as_nonempty_str (j : json) : result string :=
  s ← as_str j; if bool_decide (s = "") then invalid else Ok s.

Definition as_bool (j : json) : result bool :=
  match j with JBool b => Ok b | _ => invalid end.

Definition as_obj (j : json) : result (pydict string json) :=
  match j with JObj o => Ok o | _ => invalid end.

Definition as_optional {A} (v : json -> result A) (j : json) : result (option A) :=
  match j with
  | JNull => Ok None
  | _ => a ← v j; Ok (Some a)
  end.

Fixpoint each {A B} (v : A -> result B) (l : list A) : result (list B) :=
  match l with
  | [] => Ok []
  | a :: l' => b ← v a; bs ← each v l'; Ok (b :: bs)
  end.

Definition as_list {A} (v : json -> result A) (j : json) : result (list A) :=
  match j with JArr l => each v l | _ => invalid end.

Definition as_dict {A} (v : json -> result A) (j : json)
  : result (pydict string A) :=
  o ← as_obj j; each (fun kv => a ← v kv.2; Ok (kv.1, a)) o.

(** A field without a default, and a field with one. *)
Definition required {A} (v : json -> result A) (o : pydict string json)
  (k : string) : result A :=
  match dict_get o k with
  | Some j => v j
  | None => invalid
  end.

Definition defaulted {A} (v : json -> result A) (d : A) (o : pydict string json)
  (k : string) : result A :=
  match dict_get o k with
  | Some j => v j
  | None => Ok d
  end.

Definition as_alignment (j : json) : result Alignment :=
  s ← as_str j;
  if bool_decide (s = "left") then Ok AlignLeft
  else if bool_decide (s = "center") then Ok AlignCenter
  else if bool_decide (s = "right") then Ok AlignRight
  else if bool_decide (s = "justify") then Ok AlignJustify
  else invalid.

Definition as_rule (j : json) : result LineSpacingRule :=
  s ← as_str j;
  if bool_decide (s = "single") then Ok LsSingle
  else if bool_decide (s = "1.5") then Ok LsOneHalf
  else if bool_decide (s = "double") then Ok LsDouble
  else if bool_decide (s = "exact") then Ok LsExact
  else invalid.

Definition as_format (j : json) : result PageNumFormat :=
  s ← as_str j;
  if bool_decide (s = "romanUpper") then Ok RomanUpper
  else if bool_decide (s = "romanLower") then Ok RomanLower
  else if bool_decide (s = "decimal") then Ok Decimal
  else invalid.

Definition as_suffix (j : json) : result NumSuffix :=
  s ← as_str j;
  if bool_decide (s = "space") then Ok SuffixSpace
  else if bool_decide (s = "tab") then Ok SuffixTab
  else if bool_decide (s = "nothing") then Ok SuffixNothing
  else invalid.

(** A field of type [Literal[lit]]. *)
Definition as_literal (lit : string) (j : json) : result unit :=
  s ← as_str j; if bool_decide (s = lit) then Ok tt else invalid.

Definition as_margins (j : json) : result MarginMM :=
  o ← as_obj j;
  t ← required as_float_ge0 o "top";
  b ← required as_float_ge0 o "bottom";
  l ← required as_float_ge0 o "left";
  r ← required as_float_ge0 o "right";
  g ← defaulted as_float_ge0 (Finite 0) o "binding";
  Ok {| top := t; bottom := b; left := l; right := r; binding := g |}.

Definition as_page (j : json) : result PageSpec :=
  o ← as_obj j;
  _ ← defaulted (as_literal "A4") tt o "size";
  m ← required as_margins o "margins_mm";
  h ← defaulted as_float_ge0 (Finite 0) o "header_mm";
  f ← defaulted as_float_ge0 (Finite 0) o "footer_mm";
  Ok {| margins_mm := m; header_mm := h; footer_mm := f |}.

Definition as_font (j : json) : result FontMapping :=
  o ← as_obj j;
  e ← required as_str o "eastAsia";
  a ← required as_str o "ascii";
  h ← required as_str o "hAnsi";
  Ok {| eastAsia := e; Stylespec.ascii := a; hAnsi := h |}.

Definition as_paragraph (j : json) : result StyleParagraph :=
  o ← as_obj j;
  al ← defaulted as_alignment AlignJustify o "alignment";
  ru ← defaulted as_rule LsSingle o "line_spacing_rule";
  ls ← defaulted (as_optional as_float) None o "line_spacing";
  sb ← defaulted as_float_ge0 (Finite 0) o "space_before_pt";
  sa ← defaulted as_float_ge0 (Finite 0) o "space_after_pt";
  sbl ← defaulted (as_optional as_float_ge0) None o "space_before_lines";
  sal ← defaulted (as_optional as_float_ge0) None o "space_after_lines";
  fi ← defaulted as_float_ge0 (Finite 0) o "first_line_indent_chars";
  hi ← defaulted as_float_ge0 (Finite 0) o "hanging_indent_chars";
  kn ← defaulted as_bool false o "keep_with_next";
  kl ← defaulted as_bool false o "keep_lines";
  pb ← defaulted as_bool false o "page_break_before";
  wc ← defaulted as_bool true o "widows_control";
  Ok {| alignment := al; line_spacing_rule := ru; line_spacing := ls;
        space_before_pt := sb; space_after_pt := sa;
        space_before_lines := sbl; space_after_lines := sal;
        first_line_indent_chars := fi; hanging_indent_chars := hi;
        keep_with_next := kn; keep_lines := kl; page_break_before := pb;
        widows_control := wc |}.

Definition as_run (j : json) : result StyleRun :=
  o ← as_obj j;
  b ← defaulted as_bool false o "bold";
  i ← defaulted as_bool false o "italic";
  u ← defaulted as_bool false o "underline";
  s ← required as_float_gt0 o "size_pt";
  f ← required as_font o "font";
  Ok {| bold := b; italic := i; underline := u; size_pt := s; font := f |}.

Definition as_style (j : json) : result StyleDef :=
  o ← as_obj j;
  sid ← required as_nonempty_str o "style_id";
  nm ← required as_nonempty_str o "name";
  bo ← defaulted (as_optional as_str) None o "based_on";
  ih ← defaulted as_bool false o "is_heading";
  ol ← defaulted (as_optional (as_int_between 0 8)) None o "outline_level";
  r ← required as_run o "run";
  p ← required as_paragraph o "paragraph";
  Ok {| style_id := sid; name := nm; based_on := bo; is_heading := ih;
        outline_level := ol; run := r; paragraph := p |}.

Definition as_level (j : json) : result NumberingLevel :=
  o ← as_obj j;
  l ← required (as_int_between 0 8) o "level";
  sid ← required as_str o "style_id";
  st ← defaulted (as_int_from 1) 1 o "start";
  _ ← defaulted (as_literal "decimal") tt o "fmt";
  lt ← required as_str o "lvl_text";
  sf ← defaulted as_suffix SuffixSpace o "suffix";
  Ok {| level := l; nl_style_id := sid; start := st; lvl_text := lt;
        suffix := sf |}.

Definition as_numbering (j : json) : result NumberingSpec :=
  o ← as_obj j;
  a ← defaulted (as_int_from 1) 1 o "abstract_num_id";
  n ← defaulted (as_int_from 1) 1 o "num_id";
  ls ← required (as_list as_level) o "levels";
  Ok {| abstract_num_id := a; num_id := n; levels := ls |}.

Definition as_forbidden (j : json) : result ForbiddenDirectFormatting :=
  o ← as_obj j;
  f ← defaulted as_bool true o "font";
  s ← defaulted as_bool true o "size";
  b ← defaulted as_bool true o "bold";
  i ← defaulted as_bool true o "italic";
  u ← defaulted as_bool true o "underline";
  c ← defaulted as_bool true o "color";
  Ok {| fdf_font := f; fdf_size := s; fdf_bold := b; fdf_italic := i;
        fdf_underline := u; fdf_color := c |}.

Definition default_forbidden : ForbiddenDirectFormatting :=
  {| fdf_font := true; fdf_size := true; fdf_bold := true; fdf_italic := true;
     fdf_underline := true; fdf_color := true |}.

Definition as_structure (j : json) : result StructureSpec :=
  o ← as_obj j;
  r ← defaulted (as_list as_str) [] o "required_h1_titles";
  t ← defaulted (as_int_between 1 8) 3 o "toc_max_level";
  Ok {| required_h1_titles := r; toc_max_level := t |}.

Definition default_structure : StructureSpec :=
  {| required_h1_titles := []; toc_max_level := 3 |}.

Definition as_page_numbering (j : json) : result PageNumberingSpec :=
  o ← as_obj j;
  e ← defaulted as_bool true o "enabled";
  ff ← defaulted as_format RomanUpper o "front_format";
  fs ← defaulted (as_int_from 1) 1 o "front_start";
  mf ← defaulted as_format Decimal o "main_format";
  ms ← defaulted (as_int_from 1) 1 o "main_start";
  sf ← defaulted as_bool true o "show_in_footer";
  fa ← defaulted as_alignment AlignCenter o "footer_alignment";
  Ok {| enabled := e; front_format := ff; front_start := fs;
        main_format := mf; main_start := ms; show_in_footer := sf;
        footer_alignment := fa |}.

(** The field validator [_style_ids_must_match_keys]. *)
Definition _style_ids_must_match_keys (v : pydict string StyleDef)
  : result (pydict string StyleDef) :=
  if forallb (fun kv => bool_decide (kv.1 = style_id kv.2)) v then Ok v
  else invalid.

(** [validate_custom_spec], from the parsed document on. *)
Definition validate_custom_spec (spec_dict : json) : result StyleSpec :=
  o ← as_obj spec_dict;
  m ← defaulted (as_dict as_str) [] o "meta";
  p ← required as_page o "page";
  st0 ← required (as_dict as_style) o "styles";
  st ← _style_ids_must_match_keys st0;
  nu ← defaulted (as_optional as_numbering) None o "numbering";
  sr ← defaulted as_structure default_structure o "structure";
  fd ← defaulted as_forbidden default_forbidden o "forbidden_direct_formatting";
  pn ← defaulted (as_optional as_page_numbering) None o "page_numbering";
  ap ← defaulted as_bool false o "auto_prefix_abstract_keywords";
  an ← defaulted as_bool false o "auto_number_figures_tables";
  Ok {| meta := m; page := p; styles := st; numbering := nu; structure := sr;
        forbidden_direct_formatting := fd; page_numbering := pn;
        auto_prefix_abstract_keywords := ap;
        auto_number_figures_tables := an |}.

End SpecJson.

(** ** Sample data *)

Module Samples.
Import Stylespec.

(** The page of [build_generic_spec]: 25/20/25/20 mm margins, 5 mm
    binding, header and footer at 15 mm. *)
Definition generic_page : PageSpec :=
  {| margins_mm := {| top := Finite 25; bottom := Finite 20; left := Finite 25;
                      right := Finite 20; binding := Finite 5 |};
     header_mm := Finite 15;
     footer_mm := Finite 15 |}.

(** A specification with that page, no styles and the default
    structure and direct-formatting settings. *)
Definition sample_spec : StyleSpec :=
  {| meta := [];
     page := generic_page;
     styles := [];
     numbering := None;
     structure := {| required_h1_titles := []; toc_max_level := 3 |};
     forbidden_direct_formatting :=
       {| fdf_font := true; fdf_size := true; fdf_bold := true;
          fdf_italic := true; fdf_underline := true; fdf_color := true |};
     page_numbering := None;
     auto_prefix_abstract_keywords := false;
     auto_number_figures_tables := false |}.

(** [sample_spec] with a top margin of [float("inf")], which the
    constraint [ge=0] admits. *)
Definition unbounded_spec : StyleSpec :=
  {| meta := [];
     page := {| margins_mm := {| top := Inf false; bottom := Finite 20;
                                 left := Finite 25; right := Finite 20;
                                 binding := Finite 5 |};
                header_mm := Finite 15;
                footer_mm := Finite 15 |};
     styles := [];
     numbering := None;
     structure := {| required_h1_titles := []; toc_max_level := 3 |};
     forbidden_direct_formatting :=
       {| fdf_font := true; fdf_size := true; fdf_bold := true;
          fdf_italic := true; fdf_underline := true; fdf_color := true |};
     page_numbering := None;
     auto_prefix_abstract_keywords := false;
     auto_number_figures_tables := false |}.

(** [sample_spec] with a top margin of 811.609375 mm, a binary64 number
    whose exact product with 1440 / 25.4 is 46012.5. *)
Definition wide_spec : StyleSpec :=
  {| meta := [];
     page := {| margins_mm := {| top := Finite (811609375 # 1000000);
                                 bottom := Finite 20;
                                 left := Finite 25; right := Finite 20;
                                 binding := Finite 5 |};
                header_mm := Finite 15;
                footer_mm := Finite 15 |};
     styles := [];
     numbering := None;
     structure := {| required_h1_titles := []; toc_max_level := 3 |};
     forbidden_direct_formatting :=
       {| fdf_font := true; fdf_size := true; fdf_bold := true;
          fdf_italic := true; fdf_underline := true; fdf_color := true |};
     page_numbering := None;
     auto_prefix_abstract_keywords := false;
     auto_number_figures_tables := false |}.

Definition elem (local : string) (attrs : pydict qname string)
  (cs : list element) : element :=
  Element (wq local) attrs None None cs.

(** A document whose only section has a top margin of [tw] twips and
    no other margin attribute. *)
Definition margin_root (tw : string) : element :=
  elem "document" []
    [ elem "body" []
        [ elem "p" [] [];
          elem "sectPr" [] [ elem "pgMar" [(wq "top", tw)] [] ] ] ].

(** A document with one paragraph whose run is set in bold by direct
    formatting, and a section with a top margin of 1417 twips. *)
Definition bold_root : element :=
  elem "document" []
    [ elem "body" []
        [ elem "p" [] [ elem "r" [] [ elem "rPr" [] [ elem "b" [] [] ] ] ];
          elem "sectPr" [] [ elem "pgMar" [(wq "top", "1417")] [] ] ] ].

Definition docx_of (root : element) : pybytes :=
  ZipArchive 0 [("word/document.xml", 0, XmlDoc 0 root)].

Definition empty_ast : DocumentAST :=
  {| Ast.meta := {| title_cn := None; title_en := None; author := None;
                    major := None; tutor := None; extra := [] |};
     blocks := [] |}.

(** Stand-ins for what the compiler calls: a renderer that always
    emits the same well-formed document, and no built-in specification
    other than the default one. *)
Definition stub_env : Compiler.Env :=
  {| Compiler.parse_markdown_to_ast := fun _ => Ok empty_ast;
     Compiler.ai_parse_plaintext := fun _ => Ok empty_ast;
     Compiler.builtin_specs := [];
     Compiler.build_generic_spec := sample_spec;
     Compiler.generate_reference_docx := fun _ => Ok (Raw []);
     Compiler.patch_reference_docx := fun _ b => Ok b;
     Compiler.render_docx := fun _ _ _ _ => Ok (docx_of (margin_root "1417"));
     Compiler.is_decimal := AstGenerator.is_ascii_digit;
     Compiler.clock := fun _ => 0 |}.

(** A callback that raises on the first event of the AI pipeline and
    accepts every other event. *)
Definition picky_callback : Compiler.ProgressCallback :=
  fun p =>
    if bool_decide (Compiler.message p = "AI 分析文本结构...")
    then Raise (ValueError "callback failed")
    else Ok tt.

End Samples.

(** * Proofs *)

(** ** Margins: what [check_margins] reports *)

Module MarginFacts.
Import Stylespec Validator.

Lemma bind_ok {A B} (r : result A) (k : A -> result B) (b : B) :
  (r ≫= k) = Ok b -> exists a, r = Ok a /\ k a = Ok b.
Proof. destruct r as [a|e]; simpl; [eauto | discriminate]. Qed.

(** Every reported margin violation comes from a key of [checks] whose
    attribute is present and is off by more than 10 twips. *)
Lemma check_margins_sound pgMar checks vs v :
  check_margins pgMar checks = Ok vs ->
  v ∈ vs ->
  exists k exp_mm qn val act exp act_mm,
    (k, exp_mm) ∈ checks /\ _qn ("w:" ++ k) = Ok qn /\
    get_attr qn pgMar = Some val /\ int_of_str val = Ok act /\
    _mm_to_twips exp_mm = Ok exp /\ 10 < Z.abs (act - exp) /\
    _twips_to_mm act = Ok act_mm /\
    v = margin_violation k exp_mm exp (py_round2 act_mm) act.
Proof.
  revert vs. induction checks as [|[k exp_mm] rest IH]; intros vs Hc Hv;
    cbn [check_margins] in Hc.
  - injection Hc as <-. inversion Hv.
  - apply bind_ok in Hc as (qn & Hqn & Hc).
    assert (Hrest : forall vs', check_margins pgMar rest = Ok vs' -> v ∈ vs' ->
              exists k0 exp_mm0 qn0 val0 act0 exp0 act_mm0,
                (k0, exp_mm0) ∈ (k, exp_mm) :: rest /\ _qn ("w:" ++ k0) = Ok qn0 /\
                get_attr qn0 pgMar = Some val0 /\ int_of_str val0 = Ok act0 /\
                _mm_to_twips exp_mm0 = Ok exp0 /\ 10 < Z.abs (act0 - exp0) /\
                _twips_to_mm act0 = Ok act_mm0 /\
                v = margin_violation k0 exp_mm0 exp0 (py_round2 act_mm0) act0).
    { intros vs' Hr Hv'.
      destruct (IH _ Hr Hv') as (k' & e' & q' & v' & a' & x' & m' & Hin & H).
      exists k', e', q', v', a', x', m'. split; [by right | exact H]. }
    destruct (get_attr qn pgMar) as [val|] eqn:Hval; [|by apply (Hrest vs)].
    apply bind_ok in Hc as (act & Hact & Hc).
    apply bind_ok in Hc as (exp & Hexp & Hc).
    destruct (10 <? Z.abs (act - exp))%Z eqn:Hcmp; [|by apply (Hrest vs)].
    apply bind_ok in Hc as (act_mm & Hmm & Hc).
    apply bind_ok in Hc as (vs' & Hr & Hc). injection Hc as <-.
    apply elem_of_cons in Hv as [-> | Hv]; [|by apply (Hrest vs')].
    exists k, exp_mm, qn, val, act, exp, act_mm.
    apply Z.ltb_lt in Hcmp. repeat split; auto. left.
Qed.

(** Every key of [checks] whose attribute is present was parsed, and is
    reported when it is off by more than 10 twips. *)
Lemma check_margins_complete pgMar checks vs k exp_mm qn val :
  check_margins pgMar checks = Ok vs ->
  (k, exp_mm) ∈ checks -> _qn ("w:" ++ k) = Ok qn ->
  get_attr qn pgMar = Some val ->
  exists act exp,
    int_of_str val = Ok act /\ _mm_to_twips exp_mm = Ok exp /\
    (10 < Z.abs (act - exp) ->
     exists act_mm,
       _twips_to_mm act = Ok act_mm /\
       margin_violation k exp_mm exp (py_round2 act_mm) act ∈ vs).
Proof.
  revert vs. induction checks as [|[k' exp_mm'] rest IH]; intros vs Hc Hin Hqn Hval;
    cbn [check_margins] in Hc.
  - inversion Hin.
  - apply bind_ok in Hc as (qn' & Hqn' & Hc).
    apply elem_of_cons in Hin as [Heq | Hin].
    + injection Heq as <- <-. rewrite Hqn in Hqn'. injection Hqn' as <-.
      rewrite Hval in Hc.
      apply bind_ok in Hc as (act & Hact & Hc).
      apply bind_ok in Hc as (exp & Hexp & Hc).
      exists act, exp. repeat split; auto.
      intros Hgt. apply Z.ltb_lt in Hgt. rewrite Hgt in Hc.
      apply bind_ok in Hc as (act_mm & Hmm & Hc).
      apply bind_ok in Hc as (vs' & Hr & Hc). injection Hc as <-.
      exists act_mm. split; [done | left].
    + assert (Hrest : forall vs', check_margins pgMar rest = Ok vs' ->
                (forall x, x ∈ vs' -> x ∈ vs) ->
                exists act exp,
                  int_of_str val = Ok act /\ _mm_to_twips exp_mm = Ok exp /\
                  (10 < Z.abs (act - exp) ->
                   exists act_mm,
                     _twips_to_mm act = Ok act_mm /\
                     margin_violation k exp_mm exp (py_round2 act_mm) act ∈ vs)).
      { intros vs' Hr Hsub.
        destruct (IH _ Hr Hin Hqn Hval) as (a & x & Ha & Hx & Himp).
        exists a, x. repeat split; auto. intros Hgt.
        destruct (Himp Hgt) as (m & Hm & Hv). exists m. auto. }
      destruct (get_attr qn' pgMar) as [val'|] eqn:Hval'; [|by apply (Hrest vs)].
      apply bind_ok in Hc as (act & Hact & Hc).
      apply bind_ok in Hc as (exp & Hexp & Hc).
      destruct (10 <? Z.abs (act - exp))%Z; [|by apply (Hrest vs)].
      apply bind_ok in Hc as (act_mm & Hmm & Hc).
      apply bind_ok in Hc as (vs' & Hr & Hc). injection Hc as <-.
      apply (Hrest vs' Hr). intros x Hx. by right.
Qed.

Lemma string_app_inv_head (p a b : string) :
  (p ++ a)%string = (p ++ b)%string -> a = b.
Proof. induction p as [|c p IH]; simpl; intros H; [exact H | injection H; auto]. Qed.

Definition margin_keys : list string :=
  ["top"; "bottom"; "left"; "right"; "gutter"; "header"; "footer"].

Lemma margin_checks_keys spec : dict_keys (margin_checks spec) = margin_keys.
Proof. reflexivity. Qed.

Lemma margin_key_qn k : k ∈ margin_keys -> _qn ("w:" ++ k) = Ok (wq k).
Proof.
  unfold margin_keys. rewrite !elem_of_cons, elem_of_nil.
  intros [->|[->|[->|[->|[->|[->|[->|[]]]]]]]]; reflexivity.
Qed.

Lemma dict_get_elem_of {V} (d : pydict string V) k v :
  (k, v) ∈ d -> NoDup (dict_keys d) -> dict_get d k = Some v.
Proof.
  induction d as [|[k' v'] d IH]; intros Hin Hnd; [inversion Hin|].
  simpl in *. apply NoDup_cons in Hnd as [Hk' Hnd].
  apply elem_of_cons in Hin as [Heq | Hin].
  - injection Heq as <- <-. by rewrite decide_True.
  - rewrite decide_False; [auto|]. intros ->. apply Hk'.
    apply list_elem_of_fmap. by exists (k, v).
Qed.

Lemma dict_get_Some_elem_of {V} (d : pydict string V) k v :
  dict_get d k = Some v -> (k, v) ∈ d.
Proof.
  induction d as [|[k' v'] d IH]; simpl; [discriminate|].
  destruct (decide (k' = k)) as [->|]; intros H.
  - injection H as <-. left.
  - right. auto.
Qed.

Lemma margin_checks_NoDup spec : NoDup (dict_keys (margin_checks spec)).
Proof.
  rewrite margin_checks_keys. unfold margin_keys.
  repeat (apply NoDup_cons; split;
          [rewrite ?elem_of_cons, elem_of_nil; intros H;
           repeat (destruct H as [H|H]; [discriminate H|]); exact H|]).
  apply NoDup_nil_2.
Qed.

Lemma margin_checks_get spec k :
  k ∈ margin_keys -> exists exp_mm, dict_get (margin_checks spec) k = Some exp_mm.
Proof.
  unfold margin_keys. rewrite !elem_of_cons, elem_of_nil.
  intros [->|[->|[->|[->|[->|[->|[->|[]]]]]]]]; eexists; reflexivity.
Qed.

(** The checks after the layout check never use a [layout.margin_] id. *)
Lemma later_checks_ids doc_root spec v k :
  v ∈ check_structure doc_root spec ++ check_paragraphs doc_root spec
        ++ check_toc doc_root spec ->
  violation_id v <> "layout.margin_" +:+ k.
Proof.
  rewrite !elem_of_app. intros [H | [H | H]].
  - unfold check_structure in H. apply list_elem_of_In, in_flat_map in H.
    destruct H as (req & _ & H). destruct (bool_decide _); simpl in H; [done|].
    destruct H as [<- | []]. discriminate.
  - unfold check_paragraphs in H. apply list_elem_of_In, in_concat in H.
    destruct H as (l & Hl & H). apply list_elem_of_In in Hl, H.
    apply elem_of_lookup_imap in Hl as (i & p & -> & _).
    unfold check_paragraph in H. apply elem_of_app in H as [H | H].
    + destruct (_get_p_style p); [|inversion H].
      destruct (_ && _); [|inversion H].
      apply list_elem_of_singleton in H as ->. discriminate.
    + destruct (_check_run_direct_formatting _ _); [inversion H|].
      apply list_elem_of_singleton in H as ->. discriminate.
  - unfold check_toc in H. destruct (_ && _); [|inversion H].
    apply list_elem_of_singleton in H as ->. discriminate.
Qed.

(** The layout part of a report on a document whose [pgMar] is found. *)
Lemma validate_root_layout doc_root spec report sectPr pgMar :
  validate_root doc_root spec = Ok report ->
  _find_sectpr doc_root = Some sectPr ->
  find (wq "pgMar") sectPr = Some pgMar ->
  exists layout,
    check_margins pgMar (margin_checks spec) = Ok layout /\
    violations report =
      layout ++ check_structure doc_root spec ++ check_paragraphs doc_root spec
             ++ check_toc doc_root spec.
Proof.
  unfold validate_root, check_layout. intros H Hs Hp. rewrite Hs, Hp in H.
  apply bind_ok in H as (layout & Hl & H). injection H as <-. eauto.
Qed.

Lemma validate_docx_root d spec report pkg doc_root :
  validate_docx d spec = Ok report ->
  from_bytes d = Ok pkg ->
  read_xml pkg "word/document.xml" = Ok doc_root ->
  validate_root doc_root spec = Ok report.
Proof.
  unfold validate_docx. intros H Hp Hr. rewrite Hp in H. simpl in H.
  rewrite Hr in H. exact H.
Qed.

(** The field of the specification that each margin key is compared
    with. *)
Definition spec_margin_mm (spec : StyleSpec) (k : string) : option pyfloat :=
  if decide (k = "top") then Some (top (margins_mm (page spec)))
  else if decide (k = "bottom") then Some (bottom (margins_mm (page spec)))
  else if decide (k = "left") then Some (left (margins_mm (page spec)))
  else if decide (k = "right") then Some (right (margins_mm (page spec)))
  else if decide (k = "gutter") then Some (binding (margins_mm (page spec)))
  else if decide (k = "header") then Some (header_mm (page spec))
  else if decide (k = "footer") then Some (footer_mm (page spec))
  else None.

Lemma margin_checks_spec spec k :
  k ∈ margin_keys -> dict_get (margin_checks spec) k = spec_margin_mm spec k.
Proof.
  unfold margin_keys. rewrite !elem_of_cons, elem_of_nil.
  intros [->|[->|[->|[->|[->|[->|[->|[]]]]]]]]; reflexivity.
Qed.

(** C6. When the [pgMar] that the validator reads has a value for one
    of the seven margin keys, the value is parsed as [int] parses it,
    and the report holds an error [layout.margin_<k>] with a
    [set_page_margins] suggestion exactly when the value differs by
    more than 10 from the expected twips: the integer nearest to the
    float product [mm / 25.4 * 1440] of the field of the specification
    for that key. *)
Theorem margin_violation_iff_off_by_more_than_10
  d spec report pkg doc_root sectPr pgMar k val :
  validate_docx d spec = Ok report ->
  from_bytes d = Ok pkg ->
  read_xml pkg "word/document.xml" = Ok doc_root ->
  _find_sectpr doc_root = Some sectPr ->
  find (wq "pgMar") sectPr = Some pgMar ->
  k ∈ margin_keys ->
  get_attr (wq k) pgMar = Some val ->
  exists exp_mm act quotient exp,
    spec_margin_mm spec k = Some exp_mm /\
    int_of_str val = Ok act /\
    fdiv exp_mm (Finite (254 # 10)) = Ok quotient /\
    py_round (fmul quotient (Finite 1440)) = Ok exp /\
    ((exists v sg, v ∈ violations report /\
                   violation_id v = "layout.margin_" +:+ k /\
                   severity v = error /\
                   suggestion v = Some sg /\ action sg = "set_page_margins")
     <-> 10 < Z.abs (act - exp)).
Proof.
  intros Hv Hpkg Hroot Hs Hp Hk Hval.
  pose proof (validate_docx_root _ _ _ _ _ Hv Hpkg Hroot) as Hr.
  destruct (validate_root_layout _ _ _ _ _ Hr Hs Hp) as (layout & Hl & Hvs).
  destruct (margin_checks_get spec k Hk) as (exp_mm & Hget).
  pose proof (dict_get_Some_elem_of _ _ _ Hget) as Hin.
  destruct (check_margins_complete _ _ _ _ _ _ _ Hl Hin (margin_key_qn k Hk) Hval)
    as (act & exp & Hact & Hexp & Himp).
  pose proof Hexp as Hconv. unfold _mm_to_twips in Hconv.
  apply bind_ok in Hconv as (quotient & Hq & Hround).
  exists exp_mm, act, quotient, exp.
  split; [by rewrite <- margin_checks_spec|].
  repeat split; auto.
  - intros (v & sg & Hvin & Hid & _).
    rewrite Hvs in Hvin. apply elem_of_app in Hvin as [Hvin | Hvin].
    + destruct (check_margins_sound _ _ _ _ Hl Hvin)
        as (k' & e' & q' & v' & a' & x' & m' & Hin' & Hq' & Hv' & Ha' & Hx' & Hgt
            & _ & ->).
      simpl in Hid. apply string_app_inv_head in Hid as ->.
      rewrite (margin_key_qn k Hk) in Hq'. injection Hq' as <-.
      rewrite Hval in Hv'. injection Hv' as <-.
      rewrite Hact in Ha'. injection Ha' as <-.
      pose proof (dict_get_elem_of _ _ _ Hin' (margin_checks_NoDup spec)) as Hg'.
      rewrite Hget in Hg'. injection Hg' as <-.
      rewrite Hexp in Hx'. injection Hx' as <-. exact Hgt.
    + exfalso. exact (later_checks_ids _ _ _ k Hvin Hid).
  - intros Hgt. destruct (Himp Hgt) as (act_mm & _ & Hvin).
    exists (margin_violation k exp_mm exp (py_round2 act_mm) act). eexists.
    split; [rewrite Hvs; apply elem_of_app; left; auto|].
    repeat split; reflexivity.
Qed.

Lemma margin_violation_iff_off_by_more_than_10_witness :
  exists report, validate_docx (Samples.docx_of (Samples.margin_root "46023"))
                   Samples.wide_spec = Ok report /\
  exists exp_mm act quotient exp,
    spec_margin_mm Samples.wide_spec "top" = Some exp_mm /\
    int_of_str "46023" = Ok act /\
    fdiv exp_mm (Finite (254 # 10)) = Ok quotient /\
    py_round (fmul quotient (Finite 1440)) = Ok exp /\
    ((exists v sg, v ∈ violations report /\
                   violation_id v = "layout.margin_" +:+ "top" /\
                   severity v = error /\
                   suggestion v = Some sg /\ action sg = "set_page_margins")
     <-> 10 < Z.abs (act - exp)).
Proof.
  eexists. split; [vm_compute; reflexivity|].
  eapply (margin_violation_iff_off_by_more_than_10
            (Samples.docx_of (Samples.margin_root "46023")) Samples.wide_spec);
    [vm_compute; reflexivity | reflexivity | reflexivity | reflexivity
    | reflexivity | unfold margin_keys; left | reflexivity].
Defined.

(** The conversion on the top margins of the two sample pages: 25 mm
    are 1417 twips, and 811.609375 mm, whose exact product with
    1440 / 25.4 is 46012.5, are 46013 twips, because the float product
    lies above the half. *)
Example mm_to_twips_samples :
  _mm_to_twips (Finite 25) = Ok 1417 /\
  _mm_to_twips (Finite (811609375 # 1000000)) = Ok 46013.
Proof. split; vm_compute; reflexivity. Qed.

(** The two boundary cases of C6 on the sample pages: a deviation of
    10 twips is accepted, a deviation of 11 twips is reported. *)
Example margin_off_by_10_accepted :
  (exists report,
     validate_docx (Samples.docx_of (Samples.margin_root "1427"))
       Samples.sample_spec = Ok report /\
     errors (summary report) = 0%nat) /\
  (exists report,
     validate_docx (Samples.docx_of (Samples.margin_root "46023"))
       Samples.wide_spec = Ok report /\
     errors (summary report) = 0%nat).
Proof. split; eexists; (split; [vm_compute; reflexivity | reflexivity]). Qed.

Example margin_off_by_11_reported :
  (exists report,
     validate_docx (Samples.docx_of (Samples.margin_root "1428"))
       Samples.sample_spec = Ok report /\
     errors (summary report) = 1%nat /\
     exists act_mm,
       margin_violation "top" (Finite 25) 1417 act_mm 1428 ∈ violations report) /\
  (exists report,
     validate_docx (Samples.docx_of (Samples.margin_root "46024"))
       Samples.wide_spec = Ok report /\
     errors (summary report) = 1%nat /\
     exists act_mm,
       margin_violation "top" (Finite (811609375 # 1000000)) 46013 act_mm 46024
       ∈ violations report).
Proof.
  split; eexists; (split; [vm_compute; reflexivity|]);
    (split; [reflexivity|]); eexists; left.
Qed.

(** C9. When the [pgMar] that the validator reads has no attribute for
    a margin key, the report holds no [layout.margin_<k>] violation
    for that key. *)
Theorem absent_margin_attribute_not_reported
  d spec report pkg doc_root sectPr pgMar k :
  validate_docx d spec = Ok report ->
  from_bytes d = Ok pkg ->
  read_xml pkg "word/document.xml" = Ok doc_root ->
  _find_sectpr doc_root = Some sectPr ->
  find (wq "pgMar") sectPr = Some pgMar ->
  k ∈ margin_keys ->
  get_attr (wq k) pgMar = None ->
  forall v, v ∈ violations report -> violation_id v <> "layout.margin_" +:+ k.
Proof.
  intros Hv Hpkg Hroot Hs Hp Hk Hnone v Hvin Hid.
  pose proof (validate_docx_root _ _ _ _ _ Hv Hpkg Hroot) as Hr.
  destruct (validate_root_layout _ _ _ _ _ Hr Hs Hp) as (layout & Hl & Hvs).
  rewrite Hvs in Hvin. apply elem_of_app in Hvin as [Hvin | Hvin].
  - destruct (check_margins_sound _ _ _ _ Hl Hvin)
      as (k' & e' & q' & v' & a' & x' & m' & Hin' & Hq' & Hv' & _ & _ & _ & _
          & ->).
    simpl in Hid. apply string_app_inv_head in Hid as ->.
    rewrite (margin_key_qn k Hk) in Hq'. injection Hq' as <-.
    rewrite Hnone in Hv'. discriminate.
  - exact (later_checks_ids _ _ _ k Hvin Hid).
Qed.

Lemma absent_margin_attribute_not_reported_witness :
  exists report, validate_docx (Samples.docx_of (Samples.margin_root "9999"))
                   Samples.sample_spec = Ok report /\
  forall v, v ∈ violations report -> violation_id v <> "layout.margin_" +:+ "left".
Proof.
  eexists. split; [vm_compute; reflexivity|].
  eapply (absent_margin_attribute_not_reported
            (Samples.docx_of (Samples.margin_root "9999")) Samples.sample_spec);
    [vm_compute; reflexivity | reflexivity | reflexivity | reflexivity
    | reflexivity | unfold margin_keys; right; right; left | reflexivity].
Defined.

End MarginFacts.

(** ** Paragraph actions with no paragraph to act on *)

Module TargetFacts.
Import Stylespec Fixer.

(** The [paragraph_index] parameter is missing, [None], negative, or
    not less than the number of paragraphs of the document. *)
Definition no_target (doc_root : element) (params : pydict string pyvalue) : Prop :=
  match dict_get params "paragraph_index" with
  | None | Some PyNone => True
  | Some (PyInt i) =>
      i < 0 \/ Z.of_nat (length (findall_desc (wq "p") doc_root)) <= i
  | Some (PyStr _) => False
  end.

Lemma no_target_returns doc_root params :
  no_target doc_root params ->
  paragraph_target doc_root (dict_get params "paragraph_index") = Ok None.
Proof.
  unfold no_target, paragraph_target.
  destruct (dict_get params "paragraph_index") as [[|i|s]|]; try done.
  intros [H | H].
  - apply Z.ltb_lt in H. by rewrite H.
  - apply Z.leb_le in H. rewrite H. by rewrite orb_true_r.
Qed.

Lemma apply_action_no_target spec doc_root act :
  action act = "set_paragraph_style" \/
  action act = "clear_direct_run_formatting" ->
  no_target doc_root (params act) ->
  apply_action spec doc_root act = Ok doc_root.
Proof.
  intros Hact Hno. apply no_target_returns in Hno.
  unfold apply_action.
  destruct Hact as [Ha | Ha]; rewrite Ha; simpl.
  - unfold _apply_set_paragraph_style. rewrite Hno. reflexivity.
  - unfold _apply_clear_direct_formatting. rewrite Hno. reflexivity.
Qed.

(** C10. A [set_paragraph_style] or [clear_direct_run_formatting]
    action whose [paragraph_index] is missing, negative or past the
    last paragraph returns normally and leaves the tree as it was, and
    the rest of the patch runs as if the action were not there. *)
Theorem paragraph_action_without_target_is_noop spec doc_root act rest :
  action act = "set_paragraph_style" \/
  action act = "clear_direct_run_formatting" ->
  no_target doc_root (params act) ->
  apply_action spec doc_root act = Ok doc_root /\
  apply_actions spec doc_root (act :: rest) = apply_actions spec doc_root rest.
Proof.
  intros Ha Hno. pose proof (apply_action_no_target spec doc_root act Ha Hno) as H.
  split; [exact H|]. simpl. by rewrite H.
Qed.

Lemma paragraph_action_without_target_is_noop_witness :
  let act := {| action := "clear_direct_run_formatting";
                params := [("paragraph_index", PyInt 1)] |} in
  apply_action Samples.sample_spec (Samples.margin_root "1417") act
  = Ok (Samples.margin_root "1417") /\
  apply_actions Samples.sample_spec (Samples.margin_root "1417") [act]
  = apply_actions Samples.sample_spec (Samples.margin_root "1417") [].
Proof.
  apply paragraph_action_without_target_is_noop.
  - right. reflexivity.
  - unfold no_target. simpl. right. vm_compute. discriminate.
Defined.

End TargetFacts.

(** ** The bytes of a package *)

Module PackageFacts.

(** Two dictionaries are equal in Python when they hold the same keys
    with the same values, whatever the order of insertion. *)
Definition dict_eq (d1 d2 : pydict string pybytes) : Prop :=
  forall k, dict_get d1 k = dict_get d2 k.

Definition pkg_ab : DocxPackage :=
  {| files := [("a.xml", Raw []); ("b.xml", Raw [])] |}.

Definition pkg_ba : DocxPackage :=
  {| files := [("b.xml", Raw []); ("a.xml", Raw [])] |}.

(** Equal maps inserted in a different order, and one package written
    in two different intervals of two seconds, give different bytes. *)
Lemma to_bytes_not_a_function_of_the_map :
  dict_eq (files pkg_ab) (files pkg_ba) /\
  to_bytes pkg_ab (fun _ => 0) <> to_bytes pkg_ba (fun _ => 0) /\
  to_bytes pkg_ab (fun _ => 0) <> to_bytes pkg_ab (fun _ => 2).
Proof.
  split; [|split; discriminate].
  intros k. simpl.
  destruct (decide ("a.xml" = k)) as [<-|Ha]; [reflexivity|].
  destruct (decide ("b.xml" = k)) as [<-|Hb]; reflexivity.
Qed.

(** [writestr] sees the time only through its interval of two
    seconds. *)
Lemma writestr_tick name t1 t2 content :
  dos_time t1 = dos_time t2 -> writestr name t1 content = writestr name t2 content.
Proof. unfold writestr. by intros ->. Qed.

Lemma write_members_ticks fs clock1 clock2 i :
  (forall j, (j < length fs)%nat ->
             dos_time (clock1 (i + j)%nat) = dos_time (clock2 (i + j)%nat)) ->
  write_members fs clock1 i = write_members fs clock2 i.
Proof.
  revert i. induction fs as [|[name content] fs IH]; intros i H; [done|].
  cbn [write_members].
  rewrite (writestr_tick name (clock1 i) (clock2 i)).
  - rewrite (IH (S i)); [done|]. intros j Hj.
    replace (S i + j)%nat with (i + S j)%nat by lia. apply H. simpl. lia.
  - specialize (H O). rewrite Nat.add_0_r in H. apply H. simpl. lia.
Qed.

(** C5, amended. [to_bytes] is deterministic for a fixed order of
    insertion and fixed header times: two packages that hold the same
    members in the same order, each member written in the same interval
    of two seconds in both calls, give the same bytes, or raise the same
    exception. *)
Theorem to_bytes_same_members_same_ticks
  (p1 p2 : DocxPackage) (clock1 clock2 : nat -> Z) :
  files p1 = files p2 ->
  (forall i, (i < length (files p1))%nat ->
             dos_time (clock1 i) = dos_time (clock2 i)) ->
  to_bytes p1 clock1 = to_bytes p2 clock2.
Proof.
  intros Hf Hc. unfold to_bytes. rewrite <- Hf.
  by rewrite (write_members_ticks (files p1) clock1 clock2 O).
Qed.

Lemma to_bytes_same_members_same_ticks_witness :
  to_bytes pkg_ab (fun i => 2 * Z.of_nat i)
  = to_bytes pkg_ab (fun i => 2 * Z.of_nat i + 1).
Proof.
  apply to_bytes_same_members_same_ticks; [reflexivity|].
  intros i Hi. unfold dos_time.
  rewrite (Z.mul_comm 2), Z.div_mul, Z.div_add_l by lia.
  change (1 / 2) with 0. lia.
Defined.

End PackageFacts.

(** ** Job status under cancellation *)

Module JobFacts.
Import JobManager.

Section any_compiler.
Variable compile : Job -> list Compiler.CompileProgress * Py.result Compiler.CompileResult.

Lemma progress_callback_status p j : status (progress_callback p j) = status j.
Proof. reflexivity. Qed.

Lemma fold_progress_status events j :
  status (fold_left (fun j p => progress_callback p j) events j) = status j.
Proof.
  revert j. induction events as [|p events IH]; intros j; simpl; [reflexivity|].
  by rewrite IH.
Qed.

(** [run_job] ends on [COMPLETED] or [FAILED], whatever the status was
    when the compiler returned. *)
Lemma run_job_finish_status outcome j :
  status (run_job_finish outcome j) = COMPLETED \/
  status (run_job_finish outcome j) = FAILED.
Proof.
  destruct outcome as [r|e]; simpl; [|by right].
  destruct (Compiler.success r); simpl; [by left | by right].
Qed.

(** A job that is cancelled while the compiler runs: [cancel_job]
    reports success, and [run_job] then overwrites [CANCELLED]; the
    statuses do not follow the order of the specification, and a
    successful result is kept on the job together with its bytes. *)
Lemma cancel_during_compile id text fname opts permits :
  let m0 := new_manager (create_job id text fname opts) (S permits) in
  exists m,
    run compile [Enter; Cancel; Finish] m0 = Some m /\
    status (job m) <> CANCELLED /\
    status_trace compile [Enter; Cancel; Finish] m0
      = Some [RUNNING; CANCELLED; status (job m)] /\
    monotonic_from PENDING [RUNNING; CANCELLED; status (job m)] = false.
Proof.
  simpl. destruct (compile _) as [events outcome] eqn:Hc.
  eexists. split; [reflexivity|]. simpl.
  match goal with |- context [run_job_finish outcome ?j] =>
    destruct (run_job_finish_status outcome j) as [H | H]; rewrite H end;
    repeat split; congruence.
Qed.

(** A job that is cancelled before [run_job] starts is run all the
    same: [CANCELLED] is followed by [RUNNING]. *)
Lemma cancel_before_run id text fname opts permits :
  let m0 := new_manager (create_job id text fname opts) (S permits) in
  sync_schedule [Cancel; Enter; Finish] = true /\
  exists m,
    run compile [Cancel; Enter; Finish] m0 = Some m /\
    status (job m) <> CANCELLED /\
    status_trace compile [Cancel; Enter; Finish] m0
      = Some [CANCELLED; RUNNING; status (job m)] /\
    monotonic_from PENDING [CANCELLED; RUNNING; status (job m)] = false.
Proof.
  simpl. split; [reflexivity|]. destruct (compile _) as [events outcome] eqn:Hc.
  eexists. split; [reflexivity|]. simpl.
  match goal with |- context [run_job_finish outcome ?j] =>
    destruct (run_job_finish_status outcome j) as [H | H]; rewrite H end;
    repeat split; congruence.
Qed.

End any_compiler.

(** C4. The claim fails on the code: for every compiler and every new
    job there is a schedule of [run_job] and [cancel_job] whose
    statuses leave [CANCELLED], and a job cancelled during its
    compilation does not end as [CANCELLED]. *)
Theorem job_status_not_monotonic compile id text fname opts :
  let m0 := new_manager (create_job id text fname opts) 5 in
  (exists evs trace,
     sync_schedule evs = true /\
     status_trace compile evs m0 = Some trace /\
     monotonic_from PENDING trace = false) /\
  (exists m,
     run compile [Enter; Cancel; Finish] m0 = Some m /\
     status (job m) <> CANCELLED).
Proof.
  intros m0. split.
  - destruct (cancel_before_run compile id text fname opts 4)
      as (Hs & m & _ & _ & Ht & Hm).
    exists [Cancel; Enter; Finish]. eexists. split; [exact Hs|].
    split; [exact Ht | exact Hm].
  - destruct (cancel_during_compile compile id text fname opts 4)
      as (m & Hr & Hne & _).
    exists m. split; assumption.
Qed.

End JobFacts.

(** ** The fallback of the AI pipeline *)

Module FallbackFacts.
Import Compiler.

Section fallback.
Variable env : Env.
Variable options : CompileOptions.
Variable cb : option ProgressCallback.

(** The inner [try] block never returns: either the callback raises,
    or [compile_document] runs and the [await] of what it returned
    raises [TypeError]. *)
Lemma fallback_block_raises text e w :
  exists ev w' e',
    (_ ← warn ("AI 编译失败，已降级到规则模式: " +:+ exn_str e);
     _ ← notify cb PARSE (1 # 2) "降级到规则解析模式..." None;
     v ← call_compile_document env options cb text;
     await "CompileResult" v) w = (ev, w', Raise e').
Proof.
  unfold mbind, M_bind, bindM, warn, call_compile_document. simpl.
  destruct cb as [f|]; simpl.
  - destruct (f _) as [[]|e1]; simpl.
    + destruct (compile_document env options (Some f) text) as [ev res]. simpl.
      eauto.
    + eauto.
  - destruct (compile_document env options None text) as [ev res]. simpl. eauto.
Qed.

(** Whenever an exception escapes the [try] block of
    [compile_document_with_ai], the result is a failure. *)
Lemma fallback_result text ev w e :
  compile_with_ai_body env options cb text [] = (ev, w, Raise e) ->
  exists ev' w' fallback_error,
    compile_document_with_ai env options cb text
    = (ev', {| success := false; docx_bytes := None; ast := None;
               spec := None; report := None;
               error := Some ("编译失败: " +:+ exn_str fallback_error
                                +:+ " (原始错误: " +:+ exn_str e +:+ ")");
               warnings := w' |}).
Proof.
  intros H. unfold compile_document_with_ai, try_except at 1. rewrite H.
  unfold try_except.
  destruct (fallback_block_raises text e w) as (ev' & w' & e' & Hb).
  rewrite Hb. simpl. eauto.
Qed.

End fallback.

(** C3. The claim fails on the code: with a callback that rejects the
    first event of the AI pipeline, the non-AI pipeline succeeds on the
    same input and [compile_document_with_ai] still returns a failure,
    whose message is the [TypeError] of awaiting a [CompileResult]. *)
Theorem ai_fallback_discards_success :
  let cb := Some Samples.picky_callback in
  let text := cp "hello" in
  success (compile_document Samples.stub_env default_options cb text).2 = true /\
  success (compile_document_with_ai Samples.stub_env default_options cb text).2
    = false /\
  error (compile_document_with_ai Samples.stub_env default_options cb text).2
    = Some ("编译失败: object CompileResult can't be used in 'await' expression"
              +:+ " (原始错误: callback failed)").
Proof. vm_compute. repeat split. Qed.

End FallbackFacts.

(** ** Numbered headings of the plain-text heuristic *)

Module HeadingFacts.
Import AstGenerator.

(** *** The language of a regular expression *)

Inductive lang : regex -> ustr -> Prop :=
| lang_eps : lang Eps []
| lang_chr p c : p c = true -> lang (Chr p) [c]
| lang_cat r1 r2 s1 s2 :
    lang r1 s1 -> lang r2 s2 -> lang (Cat r1 r2) (s1 ++ s2)
| lang_alt_l r1 r2 s : lang r1 s -> lang (Alt r1 r2) s
| lang_alt_r r1 r2 s : lang r2 s -> lang (Alt r1 r2) s
| lang_star_nil r : lang (Star r) []
| lang_star_cons r s1 s2 :
    lang r s1 -> lang (Star r) s2 -> lang (Star r) (s1 ++ s2).

#[local] Hint Constructors lang : core.

Lemma lang_nil_nullable r s : lang r s -> s = [] -> nullable r = true.
Proof.
  induction 1; intros Hs; simpl; auto; try discriminate.
  - apply app_eq_nil in Hs as [-> ->]. rewrite IHlang1, IHlang2; auto.
  - rewrite IHlang; auto.
  - rewrite IHlang; auto. apply orb_true_r.
Qed.

Lemma nullable_lang_nil r : nullable r = true -> lang r [].
Proof.
  induction r; simpl; intros H; try discriminate; auto.
  - apply andb_true_iff in H as [H1 H2].
    change (@nil N) with (@nil N ++ @nil N). auto.
  - apply orb_true_iff in H as [H | H]; auto.
Qed.

Lemma deriv_sound c r s : lang (deriv c r) s -> lang r (c :: s).
Proof.
  revert s. induction r; simpl; intros s H.
  - inversion H.
  - inversion H.
  - destruct (p c) eqn:Hp; inversion H; subst. auto.
  - destruct (nullable r1) eqn:Hn.
    + inversion H; subst.
      * match goal with Hc : lang (Cat _ _) _ |- _ => inversion Hc; subst end.
        change (c :: s1 ++ s2) with ((c :: s1) ++ s2). auto.
      * change (c :: s) with ([] ++ c :: s).
        constructor; [apply nullable_lang_nil; auto | auto].
    + inversion H; subst. change (c :: s1 ++ s2) with ((c :: s1) ++ s2). auto.
  - inversion H; subst; auto.
  - inversion H; subst. change (c :: s1 ++ s2) with ((c :: s1) ++ s2). auto.
Qed.

Lemma deriv_complete c r s' :
  lang r s' -> forall t, s' = c :: t -> lang (deriv c r) t.
Proof.
  induction 1; intros t Hs; simpl; try discriminate.
  - injection Hs as -> <-. rewrite H. auto.
  - destruct s1 as [|d s1].
    + simpl in Hs. subst s2.
      rewrite (lang_nil_nullable _ _ H eq_refl). auto.
    + injection Hs as -> <-.
      destruct (nullable r1); [apply lang_alt_l|]; auto.
  - auto.
  - auto.
  - destruct s1 as [|d s1].
    + simpl in Hs. auto.
    + injection Hs as -> <-. auto.
Qed.

Lemma matches_lang r s : matches r s = true <-> lang r s.
Proof.
  unfold matches. revert r. induction s as [|c s IH]; intros r; simpl.
  - split; [apply nullable_lang_nil | intros H; exact (lang_nil_nullable _ _ H eq_refl)].
  - rewrite IH. split; [apply deriv_sound | intros H; exact (deriv_complete _ _ _ H _ eq_refl)].
Qed.

(** The words of [Star (Chr p)] and [Plus (Chr p)]. *)
Lemma lang_star_chr p s : lang (Star (Chr p)) s -> Forall (fun c => p c = true) s.
Proof.
  remember (Star (Chr p)) as r eqn:Hr. induction 1; try discriminate.
  - constructor.
  - injection Hr as ->. inversion H; subst. simpl. constructor; auto.
Qed.

Lemma lang_plus_chr p s :
  lang (Plus (Chr p)) s ->
  exists c s', s = c :: s' /\ p c = true /\ Forall (fun c => p c = true) s'.
Proof.
  unfold Plus. intros H. inversion H; subst.
  match goal with Hc : lang (Chr p) _ |- _ => inversion Hc; subst end.
  eexists _, _. split; [reflexivity|]. split; [auto | by apply lang_star_chr].
Qed.

(** *** Words and white space *)

Lemma split_ws_from_word cur w sp tail :
  Forall (fun c => is_space_cp c = false) w -> cur ++ w <> [] ->
  is_space_cp sp = true ->
  split_ws_from cur (w ++ sp :: tail) = (cur ++ w) :: split_ws_from [] tail.
Proof.
  intros Hw. revert cur. induction Hw as [|c w Hc Hw IH]; intros cur Hne Hsp; simpl.
  - rewrite Hsp. rewrite app_nil_r in *. destruct cur; [done | reflexivity].
  - rewrite Hc. rewrite IH; auto.
    + by rewrite <- app_assoc.
    + rewrite <- app_assoc. simpl. exact Hne.
Qed.

Lemma split_ws_from_spaces ws s :
  Forall (fun c => is_space_cp c = true) ws ->
  split_ws_from [] (ws ++ s) = split_ws_from [] s.
Proof. induction 1 as [|c ws Hc _ IH]; simpl; [reflexivity | by rewrite Hc]. Qed.

Lemma lstrip_cp_spaces ws c t :
  Forall (fun c => is_space_cp c = true) ws -> is_space_cp c = false ->
  lstrip_cp (ws ++ c :: t) = c :: t.
Proof.
  induction 1 as [|d ws Hd _ IH]; intros Hc; simpl; [by rewrite Hc | rewrite Hd; auto].
Qed.

Lemma lstrip_cp_keeps_last l c :
  is_space_cp c = false -> exists l', lstrip_cp (l ++ [c]) = l' ++ [c].
Proof.
  intros Hc. induction l as [|d l IH]; simpl.
  - rewrite Hc. by exists [].
  - destruct (is_space_cp d); [exact IH | by exists (d :: l)].
Qed.

Lemma rstrip_cp_keeps_first c t :
  is_space_cp c = false -> exists t', rstrip_cp (c :: t) = c :: t'.
Proof.
  intros Hc. unfold rstrip_cp. simpl.
  destruct (lstrip_cp_keeps_last (rev t) c Hc) as (l' & ->).
  rewrite rev_app_distr. simpl. eauto.
Qed.

(** A line that starts, after white space, with a character that is
    not white space, strips to a string that starts with it. *)
Lemma strip_cp_first ws c t :
  Forall (fun c => is_space_cp c = true) ws -> is_space_cp c = false ->
  exists t', strip_cp (ws ++ c :: t) = c :: t'.
Proof.
  intros Hws Hc. unfold strip_cp. rewrite lstrip_cp_spaces by auto.
  by apply rstrip_cp_keeps_first.
Qed.

(** *** The shape of a line that [_HEADING_NUM_RE] matches *)

Section numbered.
Variable is_decimal : N -> bool.

Definition prefix_char (c : N) : Prop :=
  is_decimal c = true \/ is_sep_cp c = true.

Lemma lang_digits s :
  lang (digits is_decimal) s ->
  exists c s', s = c :: s' /\ is_decimal c = true /\ Forall prefix_char s'.
Proof.
  intros H. apply lang_plus_chr in H as (c & s' & -> & Hc & Hs').
  exists c, s'. repeat split; auto.
  eapply Forall_impl; [exact Hs'|]. intros d Hd. by left.
Qed.

Lemma lang_star_sep_digits s :
  lang (Star (sep_digits is_decimal)) s -> Forall prefix_char s.
Proof.
  remember (Star (sep_digits is_decimal)) as r eqn:Hr. induction 1; try discriminate.
  - constructor.
  - injection Hr as ->. unfold sep_digits in H. inversion H; subst.
    match goal with Hc : lang (Chr is_sep_cp) _ |- _ => inversion Hc; subst end.
    match goal with Hd : lang (digits is_decimal) _ |- _ =>
      apply lang_digits in Hd as (d & s' & -> & Hd & Hs') end.
    simpl. constructor; [by right|]. constructor; [by left|].
    apply Forall_app. split; auto.
Qed.

Lemma lang_numeric_prefix s :
  lang (numeric_prefix is_decimal) s ->
  exists c s', s = c :: s' /\ is_decimal c = true /\ Forall prefix_char s'.
Proof.
  unfold numeric_prefix. intros H. inversion H; subst.
  match goal with Hc : lang (Cat (Star _) _) _ |- _ => inversion Hc; subst end.
  match goal with Hd : lang (digits is_decimal) _ |- _ =>
    apply lang_digits in Hd as (d & s' & -> & Hd & Hs') end.
  exists d. eexists. split; [reflexivity|]. split; [auto|].
  repeat (apply Forall_app; split); auto using lang_star_sep_digits.
Qed.

(** A matched line is white space, a numeric prefix, a white-space
    character and a rest that is not empty. *)
Lemma heading_re_shape line :
  lang (_HEADING_NUM_RE is_decimal) line ->
  exists ws prefix sp rest,
    line = ws ++ prefix ++ sp :: rest /\
    Forall (fun c => is_space_cp c = true) ws /\
    lang (numeric_prefix is_decimal) prefix /\
    is_space_cp sp = true /\ rest <> [].
Proof.
  unfold _HEADING_NUM_RE. intros H.
  inversion H as [| |? ? ws s2 Hws H2| | | |]; subst.
  inversion H2 as [| |? ? prefix s3 Hp H3| | | |]; subst.
  inversion H3 as [| |? ? sps s4 Hsp H4| | | |]; subst.
  inversion H4 as [| |? ? title s5 Ht H5| | | |]; subst.
  apply lang_star_chr in Hws.
  apply lang_plus_chr in Hsp as (sp & sps' & -> & Hsp & _).
  apply lang_plus_chr in Ht as (t & title' & -> & _ & _).
  exists ws, prefix, sp, (sps' ++ (t :: title') ++ s5).
  split; [simpl; by rewrite <- ?app_assoc|]. repeat split; auto.
  intros Hnil. apply app_eq_nil in Hnil as [_ Hnil]. discriminate.
Qed.

(** The digits are not white space and are neither a bracket nor a
    hyphen, the first characters of the break sentinels. *)
Hypothesis decimal_class :
  forall c, is_decimal c = true ->
            is_space_cp c = false /\ c <> 91%N /\ c <> 45%N.

Lemma prefix_char_not_space c : prefix_char c -> is_space_cp c = false.
Proof.
  intros [H | H]; [by apply decimal_class|].
  unfold is_sep_cp in H. apply orb_true_iff in H as [H | H];
    apply N.eqb_eq in H; subst; reflexivity.
Qed.

(** [line.split()[0]] is the numeric prefix. *)
Lemma first_word_prefix ws prefix sp rest :
  Forall (fun c => is_space_cp c = true) ws ->
  lang (numeric_prefix is_decimal) prefix ->
  is_space_cp sp = true ->
  first_word (ws ++ prefix ++ sp :: rest) = prefix.
Proof.
  intros Hws Hp Hsp. unfold first_word, split_ws.
  rewrite split_ws_from_spaces by auto.
  apply lang_numeric_prefix in Hp as (c & s' & -> & Hc & Hs').
  rewrite split_ws_from_word; [reflexivity| |done|exact Hsp].
  constructor; [by apply decimal_class|].
  eapply Forall_impl; [exact Hs'|]. apply prefix_char_not_space.
Qed.

Lemma not_a_sentinel (c : N) (r : ustr) :
  c <> 91%N -> c <> 45%N ->
  (c :: r ∉ [cp "[[PAGEBREAK]]"; cp "---pagebreak---"]) /\
  (c :: r ∉ [cp "[[SECTIONBREAK]]"; cp "---sectionbreak---"]).
Proof.
  intros H91 H45.
  split; rewrite !elem_of_cons, elem_of_nil;
    (intros [H | [H | []]]; cbv in H; congruence).
Qed.

(** What the loop does with a matched line. *)
Lemma heuristic_step_heading st line :
  matches (_HEADING_NUM_RE is_decimal) line = true ->
  heuristic_step is_decimal st line
  = add_block (HeadingBlock (heading_level line) (heading_title line))
      (flush_para st).
Proof.
  intros Hm. pose proof Hm as Hl. apply matches_lang in Hl.
  apply heading_re_shape in Hl as (ws & prefix & sp & rest & -> & Hws & Hp & _).
  apply lang_numeric_prefix in Hp as (c & s' & -> & Hc & _).
  destruct (decimal_class c Hc) as (Hsp & H91 & H45).
  unfold heuristic_step.
  destruct (strip_cp_first ws c (s' ++ sp :: rest) Hws Hsp) as (t' & Hs).
  change (ws ++ (c :: s') ++ sp :: rest) with (ws ++ c :: s' ++ sp :: rest) in *.
  cbv zeta. rewrite Hs. cbv beta iota.
  destruct (not_a_sentinel c t' H91 H45) as [Hpage Hsect].
  case_bool_decide; [contradiction|].
  case_bool_decide; [contradiction|].
  rewrite Hm. reflexivity.
Qed.

(** Blocks are only ever appended. *)
Lemma flush_para_keeps b st : b ∈ st_blocks st -> b ∈ st_blocks (flush_para st).
Proof.
  unfold flush_para. destruct (st_para_buf st); simpl; [auto|].
  destruct (strip_cp _); [auto|]. intros H. apply elem_of_app. by left.
Qed.

Lemma heuristic_step_keeps b st line :
  b ∈ st_blocks st -> b ∈ st_blocks (heuristic_step is_decimal st line).
Proof.
  intros H. unfold heuristic_step.
  destruct (strip_cp line); [by apply flush_para_keeps|].
  repeat (destruct (bool_decide _));
    try (simpl; apply elem_of_app; left; by apply flush_para_keeps).
  destruct (matches _ _); simpl; [|exact H].
  apply elem_of_app; left; by apply flush_para_keeps.
Qed.

Lemma fold_step_keeps b lines st :
  b ∈ st_blocks st ->
  b ∈ st_blocks (fold_left (heuristic_step is_decimal) lines st).
Proof.
  revert st. induction lines as [|l lines IH]; intros st H; simpl; [exact H|].
  apply IH. by apply heuristic_step_keeps.
Qed.

(** Every matched line of the body leaves its heading in the result. *)
Lemma matched_line_heading text line :
  line ∈ splitlines (_parse_front_matter text).2 ->
  matches (_HEADING_NUM_RE is_decimal) line = true ->
  HeadingBlock (heading_level line) (heading_title line)
    ∈ blocks (parse_plaintext_heuristic is_decimal text).
Proof.
  intros Hin Hm. unfold parse_plaintext_heuristic.
  destruct (_parse_front_matter text) as [meta body]. simpl in *.
  apply list_elem_of_split in Hin as (l1 & l2 & ->).
  rewrite fold_left_app. simpl.
  apply flush_para_keeps, fold_step_keeps.
  rewrite heuristic_step_heading by exact Hm.
  simpl. apply elem_of_app. right. left.
Qed.

End numbered.

(** C8. Every line of the body that [_HEADING_NUM_RE] matches is white
    space, a numeric prefix and more, and leaves in the result a
    heading whose level is 1 plus the number of separators of that
    prefix, clamped to 3. *)
Theorem numbered_heading_level_clamped (is_decimal : N -> bool) text line :
  (forall c, is_decimal c = true ->
             is_space_cp c = false /\ c <> 91%N /\ c <> 45%N) ->
  line ∈ splitlines (_parse_front_matter text).2 ->
  matches (_HEADING_NUM_RE is_decimal) line = true ->
  exists ws prefix sp rest,
    line = ws ++ prefix ++ sp :: rest /\
    Forall (fun c => is_space_cp c = true) ws /\
    lang (numeric_prefix is_decimal) prefix /\
    is_space_cp sp = true /\
    HeadingBlock
      (Z.min (1 + Z.of_nat (count_cp 46 prefix + count_cp 65294 prefix)) 3)
      (heading_title line)
    ∈ blocks (parse_plaintext_heuristic is_decimal text).
Proof.
  intros Hdec Hin Hm.
  pose proof (matched_line_heading is_decimal Hdec text line Hin Hm) as Hb.
  apply matches_lang, heading_re_shape in Hm
    as (ws & prefix & sp & rest & -> & Hws & Hp & Hsp & _).
  exists ws, prefix, sp, rest. repeat split; auto.
  unfold heading_level in Hb.
  by rewrite (first_word_prefix is_decimal Hdec ws prefix sp rest Hws Hp Hsp) in Hb.
Qed.

Lemma ascii_digit_class c :
  is_ascii_digit c = true -> is_space_cp c = false /\ c <> 91%N /\ c <> 45%N.
Proof.
  unfold is_ascii_digit. rewrite andb_true_iff, !N.leb_le. intros [H1 H2].
  split; [|lia]. apply not_true_is_false. unfold is_space_cp.
  rewrite !orb_true_iff, !andb_true_iff, !N.leb_le, !N.eqb_eq. lia.
Qed.

Lemma numbered_heading_level_clamped_witness :
  exists ws prefix sp rest,
    cp "1.1.1.1 x" = ws ++ prefix ++ sp :: rest /\
    Forall (fun c => is_space_cp c = true) ws /\
    lang (numeric_prefix is_ascii_digit) prefix /\
    is_space_cp sp = true /\
    HeadingBlock
      (Z.min (1 + Z.of_nat (count_cp 46 prefix + count_cp 65294 prefix)) 3)
      (heading_title (cp "1.1.1.1 x"))
    ∈ blocks (parse_plaintext_heuristic is_ascii_digit (cp "1.1.1.1 x")).
Proof.
  apply (numbered_heading_level_clamped is_ascii_digit
           (cp "1.1.1.1 x") (cp "1.1.1.1 x")).
  - exact ascii_digit_class.
  - vm_compute. constructor.
  - reflexivity.
Defined.

(** The line [1.1.1.1 x] gives a heading of level 3, also with the
    full-width separator. *)
Example heading_1_1_1_1 :
  blocks (parse_plaintext_heuristic is_ascii_digit (cp "1.1.1.1 x"))
  = [HeadingBlock 3 (cp "x")].
Proof. reflexivity. Qed.

Example heading_full_width :
  blocks (parse_plaintext_heuristic is_ascii_digit
            (cp "2" ++ [65294%N] ++ cp "3 Method"))
  = [HeadingBlock 2 (cp "Method")].
Proof. reflexivity. Qed.

End HeadingFacts.

(** ** Exporting a specification and validating it again *)

Module SpecJsonFacts.
Import Stylespec SpecJson.

(** *** What a validated specification satisfies *)

Definition finite (f : pyfloat) : bool :=
  match f with Finite _ => true | _ => false end.

Definition holds {A} (P : A -> bool) (o : option A) : bool :=
  match o with Some a => P a | None => true end.

Definition valid_margins (m : MarginMM) : bool :=
  forallb float_ge0 [top m; bottom m; left m; right m; binding m].

Definition finite_margins (m : MarginMM) : bool :=
  forallb finite [top m; bottom m; left m; right m; binding m].

Definition valid_page (p : PageSpec) : bool :=
  valid_margins (margins_mm p) && float_ge0 (header_mm p) && float_ge0 (footer_mm p).

Definition finite_page (p : PageSpec) : bool :=
  finite_margins (margins_mm p) && finite (header_mm p) && finite (footer_mm p).

Definition valid_paragraph (p : StyleParagraph) : bool :=
  forallb float_ge0 [space_before_pt p; space_after_pt p;
                     first_line_indent_chars p; hanging_indent_chars p]
  && holds float_ge0 (space_before_lines p)
  && holds float_ge0 (space_after_lines p).

Definition finite_paragraph (p : StyleParagraph) : bool :=
  forallb finite [space_before_pt p; space_after_pt p;
                  first_line_indent_chars p; hanging_indent_chars p]
  && holds finite (line_spacing p)
  && holds finite (space_before_lines p)
  && holds finite (space_after_lines p).

Definition valid_style (s : StyleDef) : bool :=
  negb (bool_decide (style_id s = "")) && negb (bool_decide (name s = ""))
  && holds (fun z => (0 <=? z) && (z <=? 8))%Z (outline_level s)
  && float_gt0 (size_pt (run s))
  && valid_paragraph (paragraph s).

Definition finite_style (s : StyleDef) : bool :=
  finite (size_pt (run s)) && finite_paragraph (paragraph s).

Definition valid_level (l : NumberingLevel) : bool :=
  ((0 <=? level l) && (level l <=? 8) && (1 <=? start l))%Z.

Definition valid_numbering (n : NumberingSpec) : bool :=
  ((1 <=? abstract_num_id n) && (1 <=? num_id n))%Z
  && forallb valid_level (levels n).

Definition valid_page_numbering (p : PageNumberingSpec) : bool :=
  ((1 <=? front_start p) && (1 <=? main_start p))%Z.

(** The constraints of the model classes and the field validator. *)
Definition valid_spec (s : StyleSpec) : bool :=
  valid_page (page s)
  && forallb (fun kv => bool_decide (kv.1 = style_id kv.2) && valid_style kv.2)
       (styles s)
  && holds valid_numbering (numbering s)
  && ((1 <=? toc_max_level (structure s)) && (toc_max_level (structure s) <=? 8))%Z
  && holds valid_page_numbering (page_numbering s).

(** No float field is an infinity or a NaN. *)
Definition finite_spec (s : StyleSpec) : bool :=
  finite_page (page s) && forallb (fun kv => finite_style kv.2) (styles s).

(** *** Field by field *)

Lemma float_roundtrip f : finite f = true -> as_float (dump_float f) = Ok f.
Proof. by destruct f. Qed.

Lemma float_ge0_roundtrip f :
  finite f = true -> float_ge0 f = true -> as_float_ge0 (dump_float f) = Ok f.
Proof. destruct f; try discriminate. simpl. intros _ H. unfold as_float_ge0. simpl. by rewrite H. Qed.

Lemma float_gt0_roundtrip f :
  finite f = true -> float_gt0 f = true -> as_float_gt0 (dump_float f) = Ok f.
Proof. destruct f; try discriminate. simpl. intros _ H. unfold as_float_gt0. simpl. by rewrite H. Qed.

Lemma margins_roundtrip m :
  valid_margins m = true -> finite_margins m = true ->
  as_margins (dump_margins m) = Ok m.
Proof.
  destruct m as [t b l r g]. unfold valid_margins, finite_margins. simpl.
  rewrite !andb_true_iff. intros (Ht & Hb & Hl & Hr & Hg & _) (Ft & Fb & Fl & Fr & Fg & _).
  unfold as_margins, dump_margins, required, defaulted. simpl.
  rewrite !float_ge0_roundtrip by assumption. reflexivity.
Qed.

Lemma page_roundtrip p :
  valid_page p = true -> finite_page p = true -> as_page (dump_page p) = Ok p.
Proof.
  destruct p as [m h f]. unfold valid_page, finite_page. simpl.
  rewrite !andb_true_iff. intros [[Hm Hh] Hf] [[Fm Fh] Ff].
  unfold as_page, dump_page, required, defaulted. simpl.
  rewrite margins_roundtrip, !float_ge0_roundtrip by assumption. reflexivity.
Qed.

Lemma font_roundtrip f : as_font (dump_font f) = Ok f.
Proof. by destruct f. Qed.

Lemma alignment_roundtrip a : as_alignment (dump_alignment a) = Ok a.
Proof. by destruct a. Qed.

Lemma rule_roundtrip r : as_rule (dump_rule r) = Ok r.
Proof. by destruct r. Qed.

Lemma format_roundtrip f : as_format (dump_format f) = Ok f.
Proof. by destruct f. Qed.

Lemma suffix_roundtrip s : as_suffix (dump_suffix s) = Ok s.
Proof. by destruct s. Qed.

Lemma optional_float_roundtrip {A} (v : json -> result A) f :
  finite f = true ->
  as_optional v (dump_float f) = (a ← v (dump_float f); Ok (Some a)).
Proof. by destruct f. Qed.

Ltac lookups :=
  repeat match goal with
         | |- context [dict_get ?l ?k] =>
             let r := eval simpl in (dict_get l k) in
             progress change (dict_get l k) with r
         end.

Ltac reduce :=
  cbn -[dict_get as_float as_float_ge0 as_float_gt0 dump_float as_optional
        as_font dump_font as_alignment dump_alignment as_rule dump_rule
        as_format dump_format as_suffix dump_suffix
        as_int_between as_int_from as_nonempty_str as_list as_dict each
        as_margins dump_margins as_page dump_page
        as_paragraph dump_paragraph as_run dump_run as_style dump_style
        as_level dump_level as_numbering dump_numbering
        as_forbidden dump_forbidden as_structure dump_structure
        as_page_numbering dump_page_numbering
        _style_ids_must_match_keys] in *.

Ltac fields := reduce; lookups; reduce.

Lemma paragraph_roundtrip p :
  valid_paragraph p = true -> finite_paragraph p = true ->
  as_paragraph (dump_paragraph p) = Ok p.
Proof.
  destruct p as [al ru ls sb sa sbl sal fi hi kn kl pb wc].
  unfold valid_paragraph, finite_paragraph. simpl.
  rewrite !andb_true_iff.
  intros [[(Hsb & Hsa & Hfi & Hhi & _) Hsbl] Hsal]
         [[[(Fsb & Fsa & Ffi & Fhi & _) Fls] Fsbl] Fsal].
  unfold as_paragraph, dump_paragraph, required, defaulted, optional_member.
  destruct ls as [ls|], sbl as [sbl|], sal as [sal|]; fields.
  all: rewrite ?optional_float_roundtrip by assumption.
  all: rewrite ?alignment_roundtrip, ?rule_roundtrip.
  all: rewrite ?float_ge0_roundtrip, ?float_roundtrip by assumption.
  all: reflexivity.
Qed.

Lemma run_roundtrip r :
  float_gt0 (size_pt r) = true -> finite (size_pt r) = true ->
  as_run (dump_run r) = Ok r.
Proof.
  destruct r as [b i u sz f]. simpl. intros Hs Fs.
  unfold as_run, dump_run, required, defaulted. fields.
  rewrite float_gt0_roundtrip, font_roundtrip by assumption. reflexivity.
Qed.

Lemma int_between_roundtrip lo hi z :
  ((lo <=? z) && (z <=? hi))%Z = true -> as_int_between lo hi (JInt z) = Ok z.
Proof. intros H. unfold as_int_between. simpl. by rewrite H. Qed.

Lemma int_from_roundtrip lo z :
  (lo <=? z)%Z = true -> as_int_from lo (JInt z) = Ok z.
Proof. intros H. unfold as_int_from. simpl. by rewrite H. Qed.

Lemma nonempty_str_roundtrip s :
  bool_decide (s = "") = false -> as_nonempty_str (JStr s) = Ok s.
Proof. intros H. unfold as_nonempty_str. simpl. by rewrite H. Qed.

Lemma style_roundtrip s :
  valid_style s = true -> finite_style s = true -> as_style (dump_style s) = Ok s.
Proof.
  destruct s as [sid nm bo ih ol r p]. unfold valid_style, finite_style. simpl.
  rewrite !andb_true_iff, !negb_true_iff.
  intros [[[[Hsid Hnm] Hol] Hr] Hp] [Fr Fp].
  unfold as_style, dump_style, required, defaulted, optional_member.
  destruct bo as [bo|], ol as [ol|]; fields.
  all: unfold as_optional.
  all: rewrite !nonempty_str_roundtrip by assumption.
  all: rewrite ?int_between_roundtrip by assumption.
  all: rewrite run_roundtrip, paragraph_roundtrip by assumption.
  all: reflexivity.
Qed.

Lemma level_roundtrip l : valid_level l = true -> as_level (dump_level l) = Ok l.
Proof.
  destruct l as [lv sid st lt sf]. unfold valid_level. simpl.
  rewrite !andb_true_iff. intros [[H0 H8] Hst].
  unfold as_level, dump_level, required, defaulted. fields.
  rewrite int_between_roundtrip, int_from_roundtrip, suffix_roundtrip
    by (rewrite ?andb_true_iff; auto).
  reflexivity.
Qed.

Lemma each_map {A B} (v : B -> result A) (d : A -> B) (l : list A) :
  (forall a, a ∈ l -> v (d a) = Ok a) -> each v (map d l) = Ok l.
Proof.
  induction l as [|a l IH]; intros H; simpl; [reflexivity|].
  rewrite (H a) by left. simpl. rewrite IH; [reflexivity|].
  intros b Hb. apply H. by right.
Qed.

Lemma forallb_elem_of {A} (P : A -> bool) (l : list A) a :
  forallb P l = true -> a ∈ l -> P a = true.
Proof.
  intros H Ha. rewrite forallb_forall in H. apply H. by apply list_elem_of_In.
Qed.

Lemma dict_roundtrip {A} (v : json -> result A) (d : A -> json)
    (l : pydict string A) :
  (forall kv, kv ∈ l -> v (d kv.2) = Ok kv.2) ->
  as_dict v (JObj (map (fun kv => (kv.1, d kv.2)) l)) = Ok l.
Proof.
  intros H. unfold as_dict. simpl.
  rewrite (each_map _ (fun kv => (kv.1, d kv.2))); [reflexivity|].
  intros [k a] Hk. specialize (H (k, a) Hk). simpl in *. by rewrite H.
Qed.

Lemma numbering_roundtrip n :
  valid_numbering n = true -> as_numbering (dump_numbering n) = Ok n.
Proof.
  destruct n as [a m ls]. unfold valid_numbering. simpl.
  rewrite !andb_true_iff. intros [[Ha Hm] Hls].
  unfold as_numbering, dump_numbering, required, defaulted. fields.
  rewrite !int_from_roundtrip by assumption.
  unfold as_list. rewrite each_map; [reflexivity|].
  intros l Hl. apply level_roundtrip. by eapply forallb_elem_of.
Qed.

Lemma forbidden_roundtrip f : as_forbidden (dump_forbidden f) = Ok f.
Proof. by destruct f. Qed.

Lemma structure_roundtrip s :
  ((1 <=? toc_max_level s) && (toc_max_level s <=? 8))%Z = true ->
  as_structure (dump_structure s) = Ok s.
Proof.
  destruct s as [r t]. simpl. intros Ht.
  unfold as_structure, dump_structure, required, defaulted. fields.
  rewrite int_between_roundtrip by assumption.
  unfold as_list. rewrite each_map by reflexivity. reflexivity.
Qed.

Lemma page_numbering_roundtrip p :
  valid_page_numbering p = true ->
  as_page_numbering (dump_page_numbering p) = Ok p.
Proof.
  destruct p as [e ff fs mf ms sf fa]. unfold valid_page_numbering. simpl.
  rewrite !andb_true_iff. intros [Hf Hm].
  unfold as_page_numbering, dump_page_numbering, required, defaulted. fields.
  rewrite !format_roundtrip, !int_from_roundtrip, alignment_roundtrip
    by assumption.
  reflexivity.
Qed.

Lemma style_ids_roundtrip (v : pydict string StyleDef) :
  forallb (fun kv => bool_decide (kv.1 = style_id kv.2) && valid_style kv.2) v
    = true ->
  _style_ids_must_match_keys v = Ok v.
Proof.
  intros H. unfold _style_ids_must_match_keys.
  replace (forallb _ v) with true; [reflexivity|].
  symmetry. apply forallb_forall. intros kv Hkv.
  rewrite forallb_forall in H. specialize (H kv Hkv).
  by apply andb_true_iff in H as [H _].
Qed.

Lemma spec_roundtrip s :
  valid_spec s = true -> finite_spec s = true ->
  validate_custom_spec (export_spec_to_json s) = Ok s.
Proof.
  destruct s as [me pg st nu sr fd pn ap an].
  unfold valid_spec, finite_spec. simpl.
  rewrite !andb_true_iff. intros [[[[Hpg Hst] Hnu] Hsr] Hpn] [Fpg Fst].
  apply andb_true_iff in Hsr.
  unfold validate_custom_spec, export_spec_to_json, required, defaulted,
    optional_member.
  destruct nu as [nu|], pn as [pn|]; fields.
  all: rewrite (dict_roundtrip as_str JStr) by reflexivity.
  all: rewrite page_roundtrip by assumption.
  all: rewrite (dict_roundtrip as_style dump_style)
         by (intros kv Hkv; apply style_roundtrip;
             [ apply (forallb_elem_of _ _ _ Hst) in Hkv;
               by apply andb_true_iff in Hkv as [_ ?]
             | by apply (forallb_elem_of _ _ _ Fst) in Hkv ]).
  all: reduce.
  all: rewrite style_ids_roundtrip by assumption.
  all: unfold as_optional.
  all: rewrite ?numbering_roundtrip, ?page_numbering_roundtrip by assumption.
  all: rewrite structure_roundtrip, forbidden_roundtrip by assumption.
  all: reflexivity.
Qed.

(** *** What [validate_custom_spec] accepts *)

Lemma bind_Ok_inv {A B} (m : result A) (k : A -> result B) b :
  (m ≫= k) = Ok b -> exists a, m = Ok a /\ k a = Ok b.
Proof. destruct m as [a|e]; simpl; [eauto|discriminate]. Qed.

(** Every value that the validator [v] returns satisfies [P]. *)
Class Accepts {A} (v : json -> result A) (P : A -> bool) : Prop :=
  accepted : forall j a, v j = Ok a -> P a = true.
#[local] Hint Mode Accepts + + - : typeclass_instances.

Definition anything {A} (_ : A) : bool := true.

Ltac binds H :=
  repeat (let a := fresh "x" in
          let E := fresh "E" in
          apply bind_Ok_inv in H as (a & E & H)).

Lemma required_accepts {A} (v : json -> result A) P `{!Accepts v P} o k a :
  required v o k = Ok a -> P a = true.
Proof. unfold required. destruct (dict_get o k); [apply accepted|discriminate]. Qed.

Lemma defaulted_accepts {A} (v : json -> result A) P `{!Accepts v P} d o k a :
  P d = true -> defaulted v d o k = Ok a -> P a = true.
Proof.
  intros Hd. unfold defaulted. destruct (dict_get o k); [apply accepted|].
  by intros [= <-].
Qed.

#[local] Instance float_ge0_accepts : Accepts as_float_ge0 float_ge0.
Proof.
  intros j f H. unfold as_float_ge0 in H. binds H.
  destruct (float_ge0 x) eqn:E'; [by injection H as <-|discriminate].
Qed.

#[local] Instance float_gt0_accepts : Accepts as_float_gt0 float_gt0.
Proof.
  intros j f H. unfold as_float_gt0 in H. binds H.
  destruct (float_gt0 x) eqn:E'; [by injection H as <-|discriminate].
Qed.

#[local] Instance int_between_accepts lo hi :
  Accepts (as_int_between lo hi) (fun z => (lo <=? z) && (z <=? hi))%Z.
Proof.
  intros j z H. unfold as_int_between in H. binds H.
  destruct ((lo <=? x) && (x <=? hi))%Z eqn:E'; [by injection H as <-|discriminate].
Qed.

#[local] Instance int_from_accepts lo :
  Accepts (as_int_from lo) (fun z => (lo <=? z))%Z.
Proof.
  intros j z H. unfold as_int_from in H. binds H.
  destruct (lo <=? x)%Z eqn:E'; [by injection H as <-|discriminate].
Qed.

#[local] Instance nonempty_str_accepts :
  Accepts as_nonempty_str (fun s => negb (bool_decide (s = ""))).
Proof.
  intros j z H. unfold as_nonempty_str in H. binds H.
  destruct (bool_decide (x = "")) eqn:E'; [discriminate|].
  injection H as <-. by rewrite E'.
Qed.

#[local] Instance optional_accepts {A} (v : json -> result A) P `{!Accepts v P} :
  Accepts (as_optional v) (holds P).
Proof.
  intros j o H. unfold as_optional in H.
  destruct j; cbv beta iota in H;
    try (binds H; injection H as <-; simpl; exact (accepted _ _ E)).
  by injection H as <-.
Qed.

Lemma each_accepts {A B} (v : B -> result A) (P : A -> bool) l l' :
  (forall b a, v b = Ok a -> P a = true) -> each v l = Ok l' -> forallb P l' = true.
Proof.
  intros Hv. revert l'. induction l as [|b l IH]; intros l' H; simpl in H.
  - by injection H as <-.
  - binds H. injection H as <-. simpl. rewrite (Hv _ _ E), (IH _ E0). reflexivity.
Qed.

#[local] Instance list_accepts {A} (v : json -> result A) P `{!Accepts v P} :
  Accepts (as_list v) (forallb P).
Proof.
  intros j l H. destruct j; try discriminate. simpl in H.
  eapply each_accepts; [|exact H]. intros b a Hb. exact (accepted _ _ Hb).
Qed.

#[local] Instance dict_accepts {A} (v : json -> result A) P `{!Accepts v P} :
  Accepts (as_dict v) (forallb (fun kv => P kv.2)).
Proof.
  intros j l H. unfold as_dict in H. binds H.
  eapply each_accepts; [|exact H].
  intros [k b] [k' a] Hb. simpl in *. binds Hb. injection Hb as <- <-.
  exact (accepted _ _ E0).
Qed.

Ltac facts :=
  repeat match goal with
         | E : required ?v _ _ = Ok _ |- _ =>
             first [ apply (required_accepts v _) in E | clear E ]
         | E : defaulted ?v _ _ _ = Ok _ |- _ =>
             first [ apply (defaulted_accepts v _ _ _ _ _ eq_refl) in E | clear E ]
         end;
  cbn beta in *.

Ltac settle :=
  repeat match goal with
         | H : _ = true |- _ => rewrite H; clear H
         end;
  reflexivity.

#[local] Instance margins_accepts : Accepts as_margins valid_margins.
Proof.
  intros j m H. unfold as_margins in H. binds H. injection H as <-.
  facts. unfold valid_margins. simpl. settle.
Qed.

#[local] Instance page_accepts : Accepts as_page valid_page.
Proof.
  intros j p H. unfold as_page in H. binds H. injection H as <-.
  facts. unfold valid_page. simpl. settle.
Qed.

#[local] Instance paragraph_accepts : Accepts as_paragraph valid_paragraph.
Proof.
  intros j p H. unfold as_paragraph in H. binds H. injection H as <-.
  facts. unfold valid_paragraph. simpl. settle.
Qed.

#[local] Instance run_accepts :
  Accepts as_run (fun r => float_gt0 (size_pt r)).
Proof.
  intros j p H. unfold as_run in H. binds H. injection H as <-.
  facts. simpl. settle.
Qed.

#[local] Instance style_accepts : Accepts as_style valid_style.
Proof.
  intros j p H. unfold as_style in H. binds H. injection H as <-.
  facts. unfold valid_style. simpl. settle.
Qed.

#[local] Instance level_accepts : Accepts as_level valid_level.
Proof.
  intros j p H. unfold as_level in H. binds H. injection H as <-.
  facts. unfold valid_level. simpl. settle.
Qed.

#[local] Instance numbering_accepts : Accepts as_numbering valid_numbering.
Proof.
  intros j p H. unfold as_numbering in H. binds H. injection H as <-.
  facts. unfold valid_numbering. simpl. settle.
Qed.

#[local] Instance structure_accepts :
  Accepts as_structure
    (fun s => (1 <=? toc_max_level s) && (toc_max_level s <=? 8))%Z.
Proof.
  intros j p H. unfold as_structure in H. binds H. injection H as <-.
  facts. simpl. settle.
Qed.

#[local] Instance page_numbering_accepts :
  Accepts as_page_numbering valid_page_numbering.
Proof.
  intros j p H. unfold as_page_numbering in H. binds H. injection H as <-.
  facts. unfold valid_page_numbering. simpl. settle.
Qed.

Lemma style_ids_inv v st :
  _style_ids_must_match_keys v = Ok st ->
  st = v /\ forallb (fun kv => bool_decide (kv.1 = style_id kv.2)) v = true.
Proof.
  unfold _style_ids_must_match_keys.
  destruct (forallb _ v); [by intros [= <-]|discriminate].
Qed.

Lemma forallb_both {A} (P Q : A -> bool) l :
  forallb P l = true -> forallb Q l = true ->
  forallb (fun a => P a && Q a) l = true.
Proof.
  induction l as [|a l IH]; simpl; [done|].
  rewrite !andb_true_iff. intros [-> ?] [-> ?]. auto.
Qed.

Lemma validate_accepts j s :
  validate_custom_spec j = Ok s -> valid_spec s = true.
Proof.
  intros H. unfold validate_custom_spec in H. binds H. injection H as <-.
  apply style_ids_inv in E3 as [-> Hids].
  facts. unfold valid_spec. simpl.
  rewrite (forallb_both _ _ _ Hids E2). settle.
Qed.


(** *** A float that is not finite is lost *)

Lemma float_ge0_kept f : as_float_ge0 (dump_float f) = Ok f -> finite f = true.
Proof. by destruct f. Qed.

Lemma float_gt0_kept f : as_float_gt0 (dump_float f) = Ok f -> finite f = true.
Proof. by destruct f. Qed.

Lemma optional_float_kept {A} (v : json -> result A) f a :
  as_optional v (dump_float f) = Ok (Some a) -> finite f = true.
Proof. by destruct f. Qed.

Lemma each_map_inv {A B} (v : B -> result A) (d : A -> B) (l : list A) :
  each v (map d l) = Ok l -> forall a, a ∈ l -> v (d a) = Ok a.
Proof.
  induction l as [|a l IH]; intros H x Hx; [by apply elem_of_nil in Hx|].
  simpl in H. binds H. injection H as -> ->.
  apply elem_of_cons in Hx as [->|Hx]; auto.
Qed.

Lemma dict_roundtrip_inv {A} (v : json -> result A) (d : A -> json)
    (l : pydict string A) :
  as_dict v (JObj (map (fun kv => (kv.1, d kv.2)) l)) = Ok l ->
  forall kv, kv ∈ l -> v (d kv.2) = Ok kv.2.
Proof.
  intros H kv Hkv. unfold as_dict in H. simpl in H.
  apply (each_map_inv _ (fun kv => (kv.1, d kv.2))) with (a := kv) in H; [|done].
  destruct kv as [k a]. simpl in *. binds H. by injection H as ->.
Qed.

Lemma margins_kept m :
  as_margins (dump_margins m) = Ok m -> finite_margins m = true.
Proof.
  destruct m as [t b l r g].
  unfold as_margins, dump_margins, required, defaulted. fields.
  intros H. binds H. injection H as -> -> -> -> ->.
  unfold finite_margins. simpl.
  by rewrite !float_ge0_kept.
Qed.

Lemma page_kept p : as_page (dump_page p) = Ok p -> finite_page p = true.
Proof.
  destruct p as [m h f].
  unfold as_page, dump_page, required, defaulted. fields.
  intros H. binds H. injection H as -> -> ->.
  unfold finite_page. simpl.
  by rewrite margins_kept, !float_ge0_kept.
Qed.

Lemma paragraph_kept p :
  as_paragraph (dump_paragraph p) = Ok p -> finite_paragraph p = true.
Proof.
  destruct p as [al ru ls sb sa sbl sal fi hi kn kl pb wc].
  unfold as_paragraph, dump_paragraph, required, defaulted, optional_member.
  destruct ls as [ls|], sbl as [sbl|], sal as [sal|]; fields.
  all: intros H; binds H; injection H as ?; subst.
  all: unfold finite_paragraph; simpl.
  all: repeat match goal with
              | E : as_float_ge0 (dump_float ?f) = Ok ?f |- _ =>
                  rewrite (float_ge0_kept f E); clear E
              | E : as_optional _ (dump_float ?f) = Ok (Some _) |- _ =>
                  rewrite (optional_float_kept _ f _ E); clear E
              end.
  all: reflexivity.
Qed.

Lemma run_kept r : as_run (dump_run r) = Ok r -> finite (size_pt r) = true.
Proof.
  destruct r as [b i u sz f].
  unfold as_run, dump_run, required, defaulted. fields.
  intros H. binds H. injection H as ?; subst. simpl.
  by apply float_gt0_kept.
Qed.

Lemma style_kept s : as_style (dump_style s) = Ok s -> finite_style s = true.
Proof.
  destruct s as [sid nm bo ih ol r p].
  unfold as_style, dump_style, required, defaulted, optional_member.
  destruct bo as [bo|], ol as [ol|]; fields.
  all: intros H; binds H; injection H as ?; subst.
  all: unfold finite_style; simpl.
  all: by rewrite run_kept, paragraph_kept.
Qed.

Lemma spec_kept s :
  validate_custom_spec (export_spec_to_json s) = Ok s -> finite_spec s = true.
Proof.
  destruct s as [me pg st nu sr fd pn ap an].
  unfold validate_custom_spec, export_spec_to_json, required, defaulted,
    optional_member.
  destruct nu as [nu|], pn as [pn|]; fields.
  all: intros H; binds H; injection H as ?; subst.
  all: match goal with
       | E : _style_ids_must_match_keys _ = Ok _ |- _ =>
           apply style_ids_inv in E as [-> _]
       end.
  all: unfold finite_spec; simpl.
  all: rewrite page_kept by assumption; simpl.
  all: apply forallb_forall; intros kv Hkv; apply style_kept.
  all: eapply (dict_roundtrip_inv as_style dump_style); [eassumption|].
  all: by apply list_elem_of_In.
Qed.


(** *** The round trip *)

(** X1 (round trip of a specification): for every [StyleSpec] that
    satisfies the constraints of its model classes and whose floats are
    all finite, [validate_custom_spec(export_spec_to_json(s))] returns a
    specification equal to [s]. *)
Theorem export_then_validate_is_identity s :
  valid_spec s = true -> finite_spec s = true ->
  validate_custom_spec (export_spec_to_json s) = Ok s.
Proof. apply spec_roundtrip. Qed.

Lemma export_then_validate_is_identity_witness :
  validate_custom_spec (export_spec_to_json Samples.sample_spec)
  = Ok Samples.sample_spec.
Proof. apply export_then_validate_is_identity; reflexivity. Defined.

(** X2 (a float that is not finite is lost): when some margin, header or
    footer distance, font size or paragraph spacing of [s] is an
    infinity or a NaN, [validate_custom_spec(export_spec_to_json(s))]
    does not return [s]: the export writes such a float as [null]. *)
Theorem non_finite_float_does_not_survive_export s :
  finite_spec s = false ->
  validate_custom_spec (export_spec_to_json s) <> Ok s.
Proof.
  intros Hs H. apply spec_kept in H. congruence.
Qed.

Lemma non_finite_float_does_not_survive_export_witness :
  validate_custom_spec (export_spec_to_json Samples.unbounded_spec)
  <> Ok Samples.unbounded_spec.
Proof. apply non_finite_float_does_not_survive_export. reflexivity. Defined.

(** X3 (what the validator accepts): every specification that
    [validate_custom_spec] returns satisfies the constraints of the
    model classes: distances are at least 0, font sizes are positive,
    style ids and names are not empty, outline and numbering levels lie
    in 0..8, starts and numbering ids are at least 1, [toc_max_level]
    lies in 1..8, and every key of [styles] equals the [style_id] of its
    value. *)
Theorem validate_custom_spec_returns_valid_specs j s :
  validate_custom_spec j = Ok s -> valid_spec s = true.
Proof. apply validate_accepts. Qed.

Lemma validate_custom_spec_returns_valid_specs_witness :
  valid_spec Samples.sample_spec = true.
Proof.
  apply (validate_custom_spec_returns_valid_specs
           (export_spec_to_json Samples.sample_spec)).
  reflexivity.
Defined.

End SpecJsonFacts.

(** ** The package: what is written is what is read *)

Module PackageRoundTrip.

Section dicts.
Context {K V : Type} `{EqDecision K}.
Implicit Types (d : pydict K V) (k : K) (v : V).

Lemma dict_get_set_eq d k v : dict_get (dict_set d k v) k = Some v.
Proof.
  induction d as [|[k' v'] d IH]; simpl.
  - by case_decide.
  - case_decide; simpl; case_decide; congruence.
Qed.

Lemma dict_get_set_ne d k k' v :
  k' <> k -> dict_get (dict_set d k v) k' = dict_get d k'.
Proof.
  intros Hk. induction d as [|[k0 v0] d IH]; simpl.
  - case_decide; congruence.
  - case_decide; simpl; case_decide; congruence.
Qed.

Lemma dict_get_None d k : dict_get d k = None <-> k ∉ dict_keys d.
Proof.
  induction d as [|[k0 v0] d IH]; simpl.
  - split; [intros _; apply not_elem_of_nil | done].
  - rewrite not_elem_of_cons. case_decide as Hk.
    + split; [discriminate | intros [Hne _]; congruence].
    + rewrite IH. split; [intros Hd; split; congruence | intros [_ Hd]; exact Hd].
Qed.

Lemma dict_set_absent d k v : k ∉ dict_keys d -> dict_set d k v = d ++ [(k, v)].
Proof.
  induction d as [|[k0 v0] d IH]; simpl; [done|].
  rewrite not_elem_of_cons. intros [Hk Hd].
  case_decide; [congruence|]. by rewrite IH.
Qed.

Lemma dict_keys_set_present d k v :
  k ∈ dict_keys d -> dict_keys (dict_set d k v) = dict_keys d.
Proof.
  induction d as [|[k0 v0] d IH]; simpl.
  - intros H. by apply elem_of_nil in H.
  - intros H. case_decide; simpl; [done|].
    apply elem_of_cons in H as [->|H]; [done|]. f_equal. by apply IH.
Qed.

Lemma dict_keys_set_NoDup d k v :
  NoDup (dict_keys d) -> NoDup (dict_keys (dict_set d k v)).
Proof.
  intros Hd. destruct (decide (k ∈ dict_keys d)) as [Hk|Hk].
  - by rewrite dict_keys_set_present.
  - rewrite dict_set_absent by done. unfold dict_keys. rewrite map_app. simpl.
    apply NoDup_app. split; [done|]. split; [|apply NoDup_singleton].
    intros x Hx Hx'. apply list_elem_of_singleton in Hx' as ->. done.
Qed.

End dicts.

(** *** The archive *)

(** The name and the data of a member as [zipfile] reads them. *)
Definition member_name (e : string * Z * pybytes) : string := cut_nul e.1.1.

Definition member (e : string * Z * pybytes) : string * pybytes :=
  (cut_nul e.1.1, e.2).

(** A name that holds no null character. *)
Definition clean (n : string) : Prop := cut_nul n = n.

Lemma cut_nul_idem n : cut_nul (cut_nul n) = cut_nul n.
Proof.
  induction n as [|a n IH]; simpl; [done|].
  destruct (decide (a = Ascii.zero)) as [Ha|Ha]; simpl; [done|].
  destruct (decide (a = Ascii.zero)); [done | by rewrite IH].
Qed.

Lemma NoDup_map_inj {A B} (f : A -> B) (l : list A) x y :
  NoDup (map f l) -> x ∈ l -> y ∈ l -> f x = f y -> x = y.
Proof.
  induction l as [|a l IH]; simpl; intros Hl Hx Hy Hf.
  - by apply elem_of_nil in Hx.
  - apply NoDup_cons in Hl as [Ha Hl].
    apply elem_of_cons in Hx as [->|Hx]; apply elem_of_cons in Hy as [->|Hy];
      auto.
    + destruct Ha. rewrite Hf. by apply list_elem_of_fmap_2.
    + destruct Ha. rewrite <- Hf. by apply list_elem_of_fmap_2.
Qed.

Lemma zip_read_member entries e :
  NoDup (map member_name entries) -> e ∈ entries ->
  zip_read entries (member_name e) = Some e.2.
Proof.
  intros Hnd He. unfold zip_read.
  destruct (List.find _ (rev entries)) as [e'|] eqn:Hf.
  - apply find_some in Hf as [Hin Hp]. apply bool_decide_eq_true in Hp.
    apply in_rev, list_elem_of_In in Hin.
    by rewrite (NoDup_map_inj member_name entries e' e Hnd Hin He Hp).
  - exfalso. assert (In e (rev entries)) as Hin
      by (apply in_rev; rewrite rev_involutive; by apply list_elem_of_In).
    apply (find_none _ _ Hf) in Hin. by apply bool_decide_eq_false in Hin.
Qed.

Lemma fold_members acc rest :
  NoDup (dict_keys acc ++ map member_name rest) ->
  fold_left (fun d e => dict_set d (member_name e) e.2) rest acc
  = acc ++ map member rest.
Proof.
  revert acc. induction rest as [|e rest IH]; intros acc Hnd; simpl.
  - by rewrite app_nil_r.
  - assert (member_name e ∉ dict_keys acc) as Hfresh.
    { apply NoDup_app in Hnd as (_ & Hd & _). intros Hin.
      apply (Hd _ Hin). left. }
    rewrite dict_set_absent by done. rewrite IH.
    + by rewrite <- app_assoc.
    + unfold dict_keys. rewrite map_app. simpl. rewrite <- app_assoc. exact Hnd.
Qed.

(** What [to_bytes] wrote, when it returns: the members of the
    package under their names without null characters. *)
Lemma writestr_inv name t content e :
  writestr name t content = Ok e -> member e = (cut_nul name, content).
Proof.
  unfold writestr. intros H.
  destruct (dos_time t <? 0)%Z; [discriminate|].
  destruct (decide (cut_nul name = "")); [discriminate|].
  destruct (_ || _); [discriminate|]. injection H as <-.
  unfold member. simpl. by rewrite cut_nul_idem.
Qed.

Lemma write_members_inv fs clock i es :
  write_members fs clock i = Ok es ->
  map member es = map (fun f => (cut_nul f.1, f.2)) fs.
Proof.
  revert i es. induction fs as [|[name content] fs IH]; intros i es; simpl.
  - by intros [= <-].
  - intros H. apply MarginFacts.bind_ok in H as (e & He & H).
    apply MarginFacts.bind_ok in H as (es' & Hes & H). injection H as <-.
    simpl. by rewrite (writestr_inv _ _ _ _ He), (IH _ _ Hes).
Qed.

Lemma map_clean (fs : pydict string pybytes) :
  Forall clean (dict_keys fs) -> map (fun f => (cut_nul f.1, f.2)) fs = fs.
Proof.
  induction fs as [|[n b] fs IH]; simpl; [done|].
  intros H. apply Forall_cons in H as [Hn H]. unfold clean in Hn.
  by rewrite Hn, IH.
Qed.

Lemma fold_left_agree {A B} (f g : A -> B -> A) (l : list B) (a : A) :
  (forall a b, b ∈ l -> f a b = g a b) -> fold_left f l a = fold_left g l a.
Proof.
  revert a. induction l as [|b l IH]; intros a H; simpl; [done|].
  rewrite H by left. apply IH. intros a' b' Hb'. apply H. by right.
Qed.

Lemma from_bytes_archive v entries :
  NoDup (map member_name entries) ->
  from_bytes (ZipArchive v entries) = Ok {| files := map member entries |}.
Proof.
  intros Hnd. simpl. do 2 f_equal.
  etrans; [|apply (fold_members [] entries Hnd)].
  apply fold_left_agree. intros d e He.
  change (cut_nul e.1.1) with (member_name e).
  by rewrite (zip_read_member entries e Hnd He).
Qed.

Lemma zip_round_trip (p : DocxPackage) (clock : nat -> Z) d :
  NoDup (dict_keys (files p)) -> Forall clean (dict_keys (files p)) ->
  to_bytes p clock = Ok d -> from_bytes d = Ok p.
Proof.
  intros Hnd Hclean H. unfold to_bytes in H.
  apply MarginFacts.bind_ok in H as (es & Hes & H). injection H as <-.
  apply write_members_inv in Hes. rewrite map_clean in Hes by done.
  rewrite from_bytes_archive.
  - rewrite Hes. by destruct p.
  - replace (map member_name es) with (map fst (map member es))
      by (rewrite map_map; done).
    by rewrite Hes.
Qed.

Lemma dict_keys_set_all (P : string -> Prop) (d : pydict string pybytes) k v :
  Forall P (dict_keys d) -> P k -> Forall P (dict_keys (dict_set d k v)).
Proof.
  induction d as [|[k0 v0] d IH]; simpl; intros Hd Hk.
  - by constructor.
  - apply Forall_cons in Hd as [H0 Hd].
    case_decide; simpl; constructor; auto.
Qed.

Lemma fold_set_keys (entries rest : list (string * Z * pybytes)) acc :
  NoDup (dict_keys acc) /\ Forall clean (dict_keys acc) ->
  let d := fold_left
             (fun d e =>
                match zip_read entries (cut_nul e.1.1) with
                | Some content => dict_set d (cut_nul e.1.1) content
                | None => d
                end) rest acc in
  NoDup (dict_keys d) /\ Forall clean (dict_keys d).
Proof.
  revert acc. induction rest as [|e rest IH]; intros acc Hacc; simpl; [done|].
  apply IH. destruct (zip_read entries (cut_nul e.1.1)); [|done].
  destruct Hacc as [Hnd Hc]. split.
  - by apply dict_keys_set_NoDup.
  - apply dict_keys_set_all; [done | apply cut_nul_idem].
Qed.

Lemma from_bytes_NoDup d pkg :
  from_bytes d = Ok pkg -> NoDup (dict_keys (files pkg)).
Proof.
  destruct d; try discriminate. intros [= <-]. simpl.
  apply fold_set_keys. split; [apply NoDup_nil_2 | constructor].
Qed.

Lemma from_bytes_clean d pkg :
  from_bytes d = Ok pkg -> Forall clean (dict_keys (files pkg)).
Proof.
  destruct d; try discriminate. intros [= <-]. simpl.
  apply fold_set_keys. split; [apply NoDup_nil_2 | constructor].
Qed.


Lemma read_write_xml pkg name root name' :
  read_xml (write_xml pkg name root) name'
  = if decide (name' = name) then Ok root else read_xml pkg name'.
Proof.
  unfold read_xml, write_xml. simpl. case_decide as Hn.
  - subst. by rewrite dict_get_set_eq.
  - by rewrite dict_get_set_ne.
Qed.


Lemma apply_patch_inv d patch spec clock d' :
  Fixer.apply_patch d patch spec clock = Ok d' ->
  exists pkg root root',
    from_bytes d = Ok pkg /\
    read_xml pkg "word/document.xml" = Ok root /\
    Fixer.apply_actions spec root patch = Ok root' /\
    from_bytes d' = Ok (write_xml pkg "word/document.xml" root').
Proof.
  unfold Fixer.apply_patch. intros H.
  destruct (from_bytes d) as [pkg|] eqn:Hp; [|discriminate]. simpl in H.
  destruct (read_xml pkg _) as [root|] eqn:Hr; [|discriminate]. simpl in H.
  destruct (Fixer.apply_actions spec root patch) as [root'|] eqn:Ha;
    [|discriminate].
  simpl in H. exists pkg, root, root'. repeat split; try done.
  eapply zip_round_trip; [| |exact H].
  - apply dict_keys_set_NoDup. by eapply from_bytes_NoDup.
  - apply dict_keys_set_all; [by eapply from_bytes_clean | reflexivity].
Qed.

Lemma read_xml_present pkg name root :
  read_xml pkg name = Ok root -> name ∈ dict_keys (files pkg).
Proof.
  unfold read_xml. intros H.
  destruct (decide (name ∈ dict_keys (files pkg))) as [|Hn]; [done|].
  apply dict_get_None in Hn. by rewrite Hn in H.
Qed.

(** X7 (the fixer touches one member): when [apply_patch] returns, its
    output is an archive with the member names of the input, in the
    same order, and every member other than [word/document.xml] has the
    content it had. *)
Theorem apply_patch_keeps_other_members d patch spec clock d' pkg :
  Fixer.apply_patch d patch spec clock = Ok d' ->
  from_bytes d = Ok pkg ->
  exists pkg',
    from_bytes d' = Ok pkg' /\
    dict_keys (files pkg') = dict_keys (files pkg) /\
    forall name, name <> "word/document.xml" ->
                 dict_get (files pkg') name = dict_get (files pkg) name.
Proof.
  intros H Hpkg.
  apply apply_patch_inv in H as (pkg0 & root & root' & Hp & Hr & Ha & Hd').
  rewrite Hpkg in Hp. injection Hp as <-.
  exists (write_xml pkg "word/document.xml" root'). split; [|split].
  - exact Hd'.
  - apply dict_keys_set_present. by eapply read_xml_present.
  - intros name Hn. by apply dict_get_set_ne.
Qed.

Lemma apply_patch_keeps_other_members_witness :
  exists pkg',
    from_bytes (ZipArchive 0
                  [("word/styles.xml", 0, Raw []);
                   ("word/document.xml", 0,
                    XmlDoc 0 (Samples.margin_root "1417"))]) = Ok pkg' /\
    dict_keys (files pkg') = ["word/styles.xml"; "word/document.xml"] /\
    forall name, name <> "word/document.xml" ->
                 dict_get (files pkg') name
                 = dict_get [("word/styles.xml", Raw []);
                             ("word/document.xml",
                              XmlDoc 3 (Samples.margin_root "1417"))] name.
Proof.
  apply (apply_patch_keeps_other_members
           (ZipArchive 0 [("word/styles.xml", 7, Raw []);
                          ("word/document.xml", 7,
                           XmlDoc 3 (Samples.margin_root "1417"))])
           [] Samples.sample_spec (fun _ => 0)
           _ {| files := [("word/styles.xml", Raw []);
                          ("word/document.xml",
                           XmlDoc 3 (Samples.margin_root "1417"))] |});
    reflexivity.
Defined.

End PackageRoundTrip.

(** ** The report: what a validation can say *)

Module ReportFacts.
Import Stylespec Validator.

(** The violations that [validate_docx] builds, for a document with [n]
    paragraphs. *)
Inductive produced (n : nat) : Violation -> Prop :=
| sectpr_missing : produced n (simple_violation "layout.sectpr_missing" error)
| pgmar_missing : produced n (simple_violation "layout.pgmar_missing" error)
| margin k exp_mm exp act_mm act :
    produced n (margin_violation k exp_mm exp act_mm act)
| section_missing :
    produced n (simple_violation "structure.required_section_missing" warning)
| unknown_style idx :
    (idx < n)%nat ->
    produced n
      {| violation_id := "style.unknown_style";
         severity := warning;
         paragraph_index := Some (Z.of_nat idx);
         expected := None;
         actual := None;
         suggestion :=
           Some {| action := "set_paragraph_style";
                   params := [("paragraph_index", PyInt (Z.of_nat idx));
                              ("style_id", PyStr "Body")] |} |}
| direct_formatting idx :
    (idx < n)%nat ->
    produced n
      {| violation_id := "style.direct_formatting_forbidden";
         severity := error;
         paragraph_index := Some (Z.of_nat idx);
         expected := None;
         actual := None;
         suggestion :=
           Some {| action := "clear_direct_run_formatting";
                   params := [("paragraph_index", PyInt (Z.of_nat idx))] |} |}
| toc_missing lvl :
    produced n
      {| violation_id := "field.toc_missing";
         severity := warning;
         paragraph_index := None;
         expected := None;
         actual := None;
         suggestion :=
           Some {| action := "insert_toc_field";
                   params := [("max_level", PyInt lvl)] |} |}.

Lemma check_margins_produced n pgMar checks vs :
  check_margins pgMar checks = Ok vs -> Forall (produced n) vs.
Proof.
  intros H. apply Forall_forall. intros v Hv.
  destruct (MarginFacts.check_margins_sound _ _ _ _ H Hv)
    as (k & e & q & x & a & ex & m & _ & _ & _ & _ & _ & _ & _ & ->).
  constructor.
Qed.

Lemma check_layout_produced n root spec vs :
  check_layout root spec = Ok vs -> Forall (produced n) vs.
Proof.
  unfold check_layout. destruct (_find_sectpr root) as [sectPr|].
  - destruct (find _ sectPr) as [pgMar|]; [apply check_margins_produced|].
    intros [= <-]. repeat constructor.
  - intros [= <-]. repeat constructor.
Qed.

Lemma check_structure_produced n root spec :
  Forall (produced n) (check_structure root spec).
Proof.
  unfold check_structure. apply Forall_forall. intros v Hv.
  apply list_elem_of_In, in_flat_map in Hv as (req & _ & Hv).
  destruct (bool_decide _); [destruct Hv|].
  destruct Hv as [<-|[]]. constructor.
Qed.

Lemma check_paragraph_produced n spec idx p :
  (idx < n)%nat -> Forall (produced n) (check_paragraph spec idx p).
Proof.
  intros Hi. unfold check_paragraph. apply Forall_app. split.
  - destruct (_get_p_style p); [|constructor].
    destruct (_ && _); repeat constructor. done.
  - destruct (_check_run_direct_formatting _ _); repeat constructor. done.
Qed.

Lemma check_paragraphs_produced root spec :
  Forall (produced (length (findall_desc (wq "p") root)))
    (check_paragraphs root spec).
Proof.
  unfold check_paragraphs. apply Forall_forall. intros v Hv.
  apply list_elem_of_In, in_concat in Hv as (vs & Hvs & Hv).
  apply list_elem_of_In, elem_of_lookup_imap in Hvs as (i & p & -> & Hp).
  apply lookup_lt_Some in Hp.
  pose proof (check_paragraph_produced _ spec i p Hp) as HF.
  rewrite Forall_forall in HF. by apply HF, list_elem_of_In.
Qed.

Lemma check_toc_produced n root spec : Forall (produced n) (check_toc root spec).
Proof. unfold check_toc. destruct (_ && _); repeat constructor. Qed.

Lemma validate_root_produced root spec rep :
  validate_root root spec = Ok rep ->
  rep = make_report (violations rep) /\
  Forall (produced (length (findall_desc (wq "p") root))) (violations rep).
Proof.
  unfold validate_root.
  destruct (check_layout root spec) as [layout|] eqn:Hl; [|discriminate].
  simpl. intros [= <-]. split; [reflexivity|]. simpl.
  repeat (apply Forall_app; split).
  - by eapply check_layout_produced.
  - apply check_structure_produced.
  - apply check_paragraphs_produced.
  - apply check_toc_produced.
Qed.

Lemma validate_docx_inv d spec rep :
  validate_docx d spec = Ok rep ->
  exists pkg root,
    from_bytes d = Ok pkg /\ read_xml pkg "word/document.xml" = Ok root /\
    validate_root root spec = Ok rep.
Proof.
  unfold validate_docx.
  destruct (from_bytes d) as [pkg|] eqn:Hp; [|discriminate]. simpl.
  destruct (read_xml pkg _) as [root|] eqn:Hr; [|discriminate]. simpl.
  intros H. exists pkg, root. repeat split; assumption.
Qed.

Definition plain (v : Violation) : Prop :=
  severity v = error \/ severity v = warning.

Lemma produced_plain n v : produced n v -> plain v.
Proof. destruct 1; by (left + right). Qed.

Lemma count_plain vs :
  Forall plain vs ->
  (count_severity error vs + count_severity warning vs = length vs)%nat /\
  count_severity info vs = O.
Proof.
  unfold count_severity. induction 1 as [|v vs Hv _ [IH1 IH2]]; [done|].
  simpl. destruct Hv as [-> | ->]; simpl; rewrite ?IH2; split; try done; lia.
Qed.

Lemma count_none sev vs :
  (count_severity sev vs =? 0)%nat = true
  <-> Forall (fun v => severity v <> sev) vs.
Proof.
  unfold count_severity. induction vs as [|v vs IH]; simpl.
  - split; [constructor | done].
  - case_bool_decide as Hs; simpl.
    + split; [discriminate|]. intros H. by apply Forall_cons in H as [? _].
    + rewrite IH. split; [by constructor|]. intros H. by apply Forall_cons in H as [_ ?].
Qed.

(** X8 (the summary of a report): in every report that [validate_docx]
    returns, [ok] holds exactly when no violation has severity [error],
    [errors + warnings] is the number of violations, and [infos] is 0:
    the validator builds no violation of severity [info]. *)
Theorem report_summary_counts d spec rep :
  validate_docx d spec = Ok rep ->
  (ok (summary rep) = true
   <-> Forall (fun v => severity v <> error) (violations rep)) /\
  (errors (summary rep) + warnings (summary rep) = length (violations rep))%nat /\
  infos (summary rep) = O.
Proof.
  intros H. apply validate_docx_inv in H as (pkg & root & _ & _ & H).
  apply validate_root_produced in H as [-> HF]. simpl.
  split; [apply count_none|]. apply count_plain.
  eapply Forall_impl; [exact HF|]. intros v. apply produced_plain.
Qed.

Lemma report_summary_counts_witness :
  exists rep,
    validate_docx (Samples.docx_of (Samples.margin_root "1417"))
      Samples.sample_spec = Ok rep /\
    (ok (summary rep) = true
     <-> Forall (fun v => severity v <> error) (violations rep)) /\
    (errors (summary rep) + warnings (summary rep) = length (violations rep))%nat /\
    infos (summary rep) = O.
Proof.
  eexists. split; [vm_compute; reflexivity|].
  apply (report_summary_counts (Samples.docx_of (Samples.margin_root "1417"))
           Samples.sample_spec).
  reflexivity.
Defined.

(** X9 (the fixer knows every suggestion): the action of every
    suggestion in a report of [validate_docx] is one of the four
    actions that [apply_patch] dispatches on. *)
Theorem suggestions_are_fixer_actions d spec rep v sg :
  validate_docx d spec = Ok rep ->
  v ∈ violations rep -> suggestion v = Some sg ->
  action sg ∈ ["set_page_margins"; "set_paragraph_style";
               "clear_direct_run_formatting"; "insert_toc_field"].
Proof.
  intros H Hv Hsg. apply validate_docx_inv in H as (pkg & root & _ & _ & H).
  apply validate_root_produced in H as [_ HF].
  rewrite Forall_forall in HF. specialize (HF v Hv).
  destruct HF; simpl in Hsg; try discriminate; injection Hsg as <-; simpl;
    rewrite !elem_of_cons; auto.
Qed.

Lemma suggestions_are_fixer_actions_witness :
  let sg := {| action := "insert_toc_field"; params := [("max_level", PyInt 3)] |} in
  action sg ∈ ["set_page_margins"; "set_paragraph_style";
               "clear_direct_run_formatting"; "insert_toc_field"].
Proof.
  intros sg.
  apply (suggestions_are_fixer_actions
           (Samples.docx_of (Samples.margin_root "1417")) Samples.sample_spec
           (make_report [ {| violation_id := "field.toc_missing";
                             severity := warning;
                             paragraph_index := None; expected := None; actual := None;
                             suggestion := Some sg |} ])
           {| violation_id := "field.toc_missing"; severity := warning;
              paragraph_index := None; expected := None; actual := None; suggestion := Some sg |}).
  - reflexivity.
  - simpl. left.
  - reflexivity.
Defined.

(** X10 (paragraph suggestions have a target): the paragraph index of a
    [set_paragraph_style] or [clear_direct_run_formatting] suggestion in
    a report of [validate_docx] is the index of a paragraph of the
    validated document, so the fixer's range check on it passes for
    that document. *)
Theorem paragraph_suggestions_have_a_target d spec rep pkg root v sg :
  from_bytes d = Ok pkg -> read_xml pkg "word/document.xml" = Ok root ->
  validate_docx d spec = Ok rep ->
  v ∈ violations rep -> suggestion v = Some sg ->
  action sg ∈ ["set_paragraph_style"; "clear_direct_run_formatting"] ->
  exists n,
    paragraph_index v = Some (Z.of_nat n) /\
    (n < length (findall_desc (wq "p") root))%nat /\
    Fixer.paragraph_target root (dict_get (params sg) "paragraph_index")
    = Ok (Some n).
Proof.
  intros Hp Hr H Hv Hsg Hact. unfold validate_docx in H.
  rewrite Hp in H. simpl in H. rewrite Hr in H. simpl in H.
  apply validate_root_produced in H as [_ HF].
  rewrite Forall_forall in HF. specialize (HF v Hv).
  destruct HF as [| |k tw| |idx Hi|idx Hi|lvl]; simpl in Hsg; try discriminate;
    injection Hsg as <-; simpl in *.
  1,4: exfalso; rewrite !elem_of_cons in Hact;
       destruct Hact as [?|[?|Hact]]; try discriminate;
       by apply elem_of_nil in Hact.
  all: exists idx; repeat split; [done|].
  all: unfold Fixer.paragraph_target.
  all: replace (Z.of_nat idx <? 0)%Z with false by (symmetry; apply Z.ltb_ge; lia).
  all: replace (_ <=? Z.of_nat idx)%Z with false by (symmetry; apply Z.leb_gt; lia).
  all: simpl; by rewrite Nat2Z.id.
Qed.

Lemma paragraph_suggestions_have_a_target_witness :
  let sg := {| action := "clear_direct_run_formatting";
               params := [("paragraph_index", PyInt 0)] |} in
  exists n,
    Some 0%Z = Some (Z.of_nat n) /\
    (n < length (findall_desc (wq "p") Samples.bold_root))%nat /\
    Fixer.paragraph_target Samples.bold_root
      (dict_get (params sg) "paragraph_index") = Ok (Some n).
Proof.
  intros sg.
  apply (paragraph_suggestions_have_a_target
           (Samples.docx_of Samples.bold_root) Samples.sample_spec
           (make_report
              [ {| violation_id := "style.direct_formatting_forbidden";
                   severity := error; paragraph_index := Some 0%Z; expected := None; actual := None;
                   suggestion := Some sg |};
                {| violation_id := "field.toc_missing";
                   severity := warning; paragraph_index := None; expected := None; actual := None;
                   suggestion :=
                     Some {| action := "insert_toc_field";
                             params := [("max_level", PyInt 3)] |} |} ])
           {| files := [("word/document.xml", XmlDoc 0 Samples.bold_root)] |}
           Samples.bold_root
           {| violation_id := "style.direct_formatting_forbidden";
              severity := error; paragraph_index := Some 0%Z; expected := None; actual := None;
              suggestion := Some sg |}).
  - reflexivity.
  - reflexivity.
  - reflexivity.
  - left.
  - reflexivity.
  - right. left.
Defined.

End ReportFacts.

(** ** Trees: the item that a mutation reaches *)

Module TreeFacts.

(** Induction on an element with the hypothesis for every child. *)
Fixpoint element_induction (P : element -> Prop)
  (step : forall tg at_ tx tl cs, Forall P cs -> P (Element tg at_ tx tl cs))
  (e : element) : P e :=
  match e with
  | Element tg at_ tx tl cs =>
      step tg at_ tx tl cs
        ((fix all (cs : list element) : Forall P cs :=
            match cs with
            | [] => @List.Forall_nil _ P
            | c :: cs' =>
                @List.Forall_cons _ P c cs' (element_induction P step c) (all cs')
            end) cs)
  end.

(** The matches of [.//t] among the elements [cs] and what lies below
    them, in document order. *)
Definition matches_below (t : qname) (cs : list element) : list element :=
  List.filter (has_tag t) (List.flat_map (fun c => c :: descendants c) cs).

Lemma findall_desc_children t e :
  findall_desc t e = matches_below t (children e).
Proof. by destruct e. Qed.

Lemma matches_below_cons t c cs :
  matches_below t (c :: cs)
  = (if has_tag t c then [c] else []) ++ findall_desc t c ++ matches_below t cs.
Proof.
  unfold matches_below, findall_desc. simpl.
  rewrite List.filter_app. by destruct (has_tag t c).
Qed.

Lemma matches_below_app t cs1 cs2 :
  matches_below t (cs1 ++ cs2) = matches_below t cs1 ++ matches_below t cs2.
Proof. unfold matches_below. by rewrite flat_map_app, List.filter_app. Qed.

(** The loop of [update_desc] over the children. *)
Definition update_below (t : qname) (f : element -> element)
  : list element -> nat -> list element :=
  fix go (cs : list element) (n : nat) {struct cs} : list element :=
    match cs with
    | [] => []
    | c :: cs' =>
        if has_tag t c then
          match n with
          | O => f c :: cs'
          | S m =>
              if (m <? count_desc t c)%nat then update_desc t f m c :: cs'
              else c :: go cs' (m - count_desc t c)%nat
          end
        else
          if (n <? count_desc t c)%nat then update_desc t f n c :: cs'
          else c :: go cs' (n - count_desc t c)%nat
    end.

Lemma update_desc_children t f n e :
  update_desc t f n e = set_children e (update_below t f (children e) n).
Proof. by destruct e. Qed.

Lemma has_tag_set_children t e cs : has_tag t (set_children e cs) = has_tag t e.
Proof. done. Qed.

Lemma has_tag_update_desc t t' f n e :
  has_tag t' (update_desc t f n e) = has_tag t' e.
Proof. by rewrite update_desc_children. Qed.

Section reach.
Variable t : qname.
Variable f : element -> element.
Hypothesis f_keeps_tag : forall c, tag (f c) = tag c.

Lemma has_tag_f t' c : has_tag t' (f c) = has_tag t' c.
Proof. unfold has_tag. by rewrite f_keeps_tag. Qed.

Lemma reach_inside c rest rest' m :
  (forall n, findall_desc t (update_desc t f n c) !! n
             = f <$> findall_desc t c !! n) ->
  (m < length (findall_desc t c))%nat ->
  (findall_desc t (update_desc t f m c) ++ rest') !! m
  = f <$> (findall_desc t c ++ rest) !! m.
Proof.
  intros Hc Hm. destruct (lookup_lt_is_Some_2 _ _ Hm) as [x Hx].
  rewrite (lookup_app_l_Some _ _ _ _ Hx).
  apply lookup_app_l_Some. by rewrite Hc, Hx.
Qed.

Lemma reach_after c rest rest' m :
  (length (findall_desc t c) <= m)%nat ->
  rest' !! (m - length (findall_desc t c))%nat
  = f <$> rest !! (m - length (findall_desc t c))%nat ->
  (findall_desc t c ++ rest') !! m = f <$> (findall_desc t c ++ rest) !! m.
Proof. intros Hm H. by rewrite !lookup_app_r. Qed.

Lemma update_below_reach cs :
  Forall (fun c => forall n,
            findall_desc t (update_desc t f n c) !! n
            = f <$> findall_desc t c !! n) cs ->
  forall n, matches_below t (update_below t f cs n) !! n
            = f <$> matches_below t cs !! n.
Proof.
  induction 1 as [|c cs Hc _ IH]; intros n; [done|].
  rewrite (matches_below_cons t c cs). cbn [update_below]. unfold count_desc.
  destruct (has_tag t c) eqn:Ht.
  - destruct n as [|m]; [by rewrite matches_below_cons, has_tag_f, Ht|].
    destruct (Nat.ltb_spec m (length (findall_desc t c))) as [Hm|Hm];
      rewrite matches_below_cons, ?has_tag_update_desc, Ht.
    + by apply (reach_inside c _ _ m).
    + apply (reach_after c _ _ m); [done|]. apply IH.
  - destruct (Nat.ltb_spec n (length (findall_desc t c))) as [Hm|Hm];
      rewrite matches_below_cons, ?has_tag_update_desc, Ht.
    + by apply (reach_inside c _ _ n).
    + apply (reach_after c _ _ n); [done|]. apply IH.
Qed.

(** Item [n] of [.//t] after the mutation is the image of item [n]
    before it. *)
Lemma update_desc_reach e n :
  findall_desc t (update_desc t f n e) !! n = f <$> findall_desc t e !! n.
Proof.
  revert n. induction e as [tg at_ tx tl cs IH] using element_induction.
  intros n. rewrite update_desc_children, !findall_desc_children. simpl.
  by apply update_below_reach.
Qed.

End reach.

End TreeFacts.

(** ** The fixer: what each action achieves *)

Module FixerFacts.
Import Stylespec Validator Fixer TreeFacts.

(** *** [find] after a mutation *)

Lemma find_update_first t f cs :
  (forall c, tag (f c) = tag c) ->
  List.find (has_tag t) (update_first t f cs) = f <$> List.find (has_tag t) cs.
Proof.
  intros Hf. induction cs as [|c cs IH]; simpl; [done|].
  destruct (has_tag t c) eqn:Ht; simpl.
  - unfold has_tag in *. by rewrite Hf, Ht.
  - by rewrite Ht.
Qed.

Lemma find_update_find t f e :
  (forall c, tag (f c) = tag c) ->
  find t (update_find t f e) = f <$> find t e.
Proof. intros Hf. unfold find, update_find. simpl. by apply find_update_first. Qed.

Lemma find_none_app t cs c :
  List.find (has_tag t) cs = None ->
  List.find (has_tag t) (cs ++ [c]) = List.find (has_tag t) [c].
Proof.
  induction cs as [|c0 cs IH]; simpl; [done|].
  destruct (has_tag t c0); [discriminate | exact IH].
Qed.

Lemma find_ensure_child t e :
  find t (ensure_child t e) = Some (default (new_element t) (find t e)).
Proof.
  unfold ensure_child. destruct (find t e) as [c|] eqn:Hc; [done|].
  unfold find, sub_element in *. simpl. rewrite find_none_app by done.
  simpl. unfold has_tag. simpl. by rewrite bool_decide_eq_true_2.
Qed.

Lemma get_set_attr k v e : get_attr k (set_attr k v e) = Some v.
Proof. unfold get_attr, set_attr. simpl. apply PackageRoundTrip.dict_get_set_eq. Qed.

Lemma tag_update_find t f e : tag (update_find t f e) = tag e.
Proof. done. Qed.

Lemma tag_ensure_child t e : tag (ensure_child t e) = tag e.
Proof. unfold ensure_child. by destruct (find t e). Qed.

Lemma tag_style_paragraph sid p : tag (style_paragraph sid p) = tag p.
Proof. unfold style_paragraph. simpl. by destruct (find _ p). Qed.


Lemma paragraph_target_in_range root n :
  (n < length (findall_desc (wq "p") root))%nat ->
  paragraph_target root (Some (PyInt (Z.of_nat n))) = Ok (Some n).
Proof.
  intros Hn. unfold paragraph_target.
  replace (Z.of_nat n <? 0)%Z with false by (symmetry; apply Z.ltb_ge; lia).
  replace (_ <=? Z.of_nat n)%Z with false by (symmetry; apply Z.leb_gt; lia).
  simpl. by rewrite Nat2Z.id.
Qed.




(** *** Clearing direct formatting *)

(** The loop of [clear_rpr] over the children; [rpr] tells whether the
    parent is a [w:rPr]. *)
Definition clear_below (rpr : bool) : list element -> list element :=
  fix go (cs : list element) : list element :=
    match cs with
    | [] => []
    | c :: cs' =>
        if rpr && is_forbidden c then go cs' else clear_rpr c :: go cs'
    end.

Lemma clear_rpr_children e :
  clear_rpr e = set_children e (clear_below (has_tag (wq "rPr") e) (children e)).
Proof. by destruct e. Qed.

Lemma is_forbidden_clear_rpr c : is_forbidden (clear_rpr c) = is_forbidden c.
Proof. by rewrite clear_rpr_children. Qed.

(** An [rPr] none of whose children is a forbidden element. *)
Definition tidy (x : element) : Prop :=
  has_tag (wq "rPr") x = true ->
  Forall (fun c => is_forbidden c = false) (children x).

Lemma clear_below_tidy cs :
  Forall (fun c => is_forbidden c = false) (clear_below true cs).
Proof.
  induction cs as [|c cs IH]; simpl; [constructor|].
  destruct (is_forbidden c) eqn:Hc; [exact IH|].
  constructor; [by rewrite is_forbidden_clear_rpr | exact IH].
Qed.

Lemma clear_below_all (P : element -> Prop) rpr cs :
  Forall (fun c => P (clear_rpr c)) cs -> Forall P (clear_below rpr cs).
Proof.
  induction 1 as [|c cs Hc _ IH]; simpl; [constructor|].
  destruct (rpr && is_forbidden c); [exact IH | by constructor].
Qed.

Lemma clear_rpr_tidy e :
  tidy (clear_rpr e) /\ Forall tidy (descendants (clear_rpr e)).
Proof.
  induction e as [tg at_ tx tl cs IH] using element_induction.
  rewrite clear_rpr_children. split.
  - intros Ht. rewrite has_tag_set_children in Ht.
    unfold set_children. cbn [children]. rewrite Ht. apply clear_below_tidy.
  - simpl. apply Forall_flat_map.
    apply (clear_below_all (fun c => Forall tidy (c :: descendants c))).
    eapply Forall_impl; [exact IH|]. intros c [H1 H2]. by constructor.
Qed.

Lemma not_forbidden_not_direct c :
  is_forbidden c = false -> dict_get _DIRECT_RPR_TAGS (q_local (tag c)) = None.
Proof.
  unfold is_forbidden, forbidden_tags. intros H.
  apply bool_decide_eq_false in H. rewrite !not_elem_of_cons in H.
  destruct H as (H1 & H2 & H3 & H4 & H5 & H6 & H7 & H8 & H9 & _).
  unfold _DIRECT_RPR_TAGS. simpl. repeat case_decide; congruence.
Qed.

Lemma rpr_violations_tidy forbid x :
  Forall (fun c => is_forbidden c = false) (children x) ->
  rpr_violations forbid x = [].
Proof.
  unfold rpr_violations. generalize (children x).
  induction 1 as [|c cs Hc _ IH]; [done|].
  cbn [flat_map]. by rewrite (not_forbidden_not_direct c Hc), IH.
Qed.

Lemma nothing_to_report forbid (xs : list element) :
  Forall tidy xs ->
  List.flat_map (rpr_violations forbid) (List.filter (has_tag (wq "rPr")) xs) = [].
Proof.
  induction 1 as [|x xs Hx _ IH]; simpl; [done|].
  destruct (has_tag (wq "rPr") x) eqn:Ht; [|exact IH].
  simpl. by rewrite rpr_violations_tidy, IH by auto.
Qed.

Lemma check_cleared_paragraph forbid p :
  _check_run_direct_formatting (clear_paragraph p) forbid = [].
Proof.
  unfold _check_run_direct_formatting, findall_desc, clear_paragraph. simpl.
  apply nothing_to_report. apply Forall_flat_map, Forall_fmap.
  apply Forall_true. intros c. destruct (clear_rpr_tidy c). by constructor.
Qed.

(** X12 (clearing clears): when [paragraph_index] is the index [n] of a
    paragraph of the document, [_apply_clear_direct_formatting]
    returns, and in paragraph [n] of the document the validator's
    [_check_run_direct_formatting] then finds nothing, whichever kinds
    are forbidden. *)
Theorem clear_direct_formatting_clears root params n forbid :
  dict_get params "paragraph_index" = Some (PyInt (Z.of_nat n)) ->
  (n < length (findall_desc (wq "p") root))%nat ->
  exists root' p',
    _apply_clear_direct_formatting root params = Ok root' /\
    findall_desc (wq "p") root' !! n = Some p' /\
    _check_run_direct_formatting p' forbid = [].
Proof.
  intros Hidx Hn. unfold _apply_clear_direct_formatting.
  rewrite Hidx, paragraph_target_in_range by done. simpl.
  destruct (lookup_lt_is_Some_2 _ _ Hn) as [p Hp].
  exists (update_desc (wq "p") clear_paragraph n root), (clear_paragraph p).
  split; [done|]. split; [|apply check_cleared_paragraph].
  rewrite update_desc_reach by done. by rewrite Hp.
Qed.

Lemma clear_direct_formatting_clears_witness :
  exists root' p',
    _apply_clear_direct_formatting Samples.bold_root
      [("paragraph_index", PyInt 0)] = Ok root' /\
    findall_desc (wq "p") root' !! O = Some p' /\
    _check_run_direct_formatting p' (forbid_flags Samples.sample_spec) = [].
Proof.
  apply (clear_direct_formatting_clears Samples.bold_root
           [("paragraph_index", PyInt 0)] O).
  - reflexivity.
  - simpl. lia.
Defined.


(** *** Inserting the table of contents *)

Lemma child_is_descendant c e : c ∈ children e -> c ∈ descendants e.
Proof.
  intros Hc. destruct e as [tg at_ tx tl cs]. simpl in *.
  apply list_elem_of_In, in_flat_map. exists c.
  split; [by apply list_elem_of_In | by left].
Qed.




Lemma findall_insert_child t i c e :
  has_tag t c = true ->
  length (findall t (insert_child i c e)) = S (length (findall t e)).
Proof.
  intros Hc. unfold findall. simpl.
  assert (length (List.filter (has_tag t) (children e))
          = (length (List.filter (has_tag t) (take i (children e)))
             + length (List.filter (has_tag t) (drop i (children e))))%nat) as ->.
  { by rewrite <- length_app, <- List.filter_app, take_drop. }
  rewrite List.filter_app. simpl. rewrite Hc.
  rewrite length_app. simpl. lia.
Qed.


Lemma toc_instr_names_toc lvl : contains "TOC" (toc_instr lvl) = true.
Proof. reflexivity. Qed.

Lemma insert_toc_result root params body :
  find (wq "body") root = Some body ->
  let tocp := toc_paragraph (default (PyInt 3) (dict_get params "max_level")) in
  let idx := default O (first_h1_index (findall (wq "p") body)) in
  _apply_insert_toc root params
  = Ok (update_find (wq "body") (insert_child idx tocp) root) /\
  find (wq "body") (update_find (wq "body") (insert_child idx tocp) root)
  = Some (insert_child idx tocp body).
Proof.
  intros Hb tocp idx. unfold _apply_insert_toc. rewrite Hb. split; [done|].
  rewrite find_update_find by done. by rewrite Hb.
Qed.



Lemma insert_toc_grows root params body :
  find (wq "body") root = Some body ->
  exists root' body',
    _apply_insert_toc root params = Ok root' /\
    find (wq "body") root' = Some body' /\
    length (findall (wq "p") body') = S (length (findall (wq "p") body)).
Proof.
  intros Hb. destruct (insert_toc_result root params body Hb) as [Hr Hf].
  eexists _, _. split; [exact Hr|]. split; [exact Hf|].
  by apply findall_insert_child.
Qed.

Lemma insert_toc_is_not_idempotent_aux root params r1 r2 :
  find (wq "body") root <> None ->
  _apply_insert_toc root params = Ok r1 ->
  _apply_insert_toc r1 params = Ok r2 ->
  r2 <> r1.
Proof.
  intros Hb H1 H2 Heq. destruct (find (wq "body") root) as [body|] eqn:Hbody; [|done].
  destruct (insert_toc_grows root params body Hbody)
    as (r1' & b1 & Hr1 & Hb1 & Hl1).
  rewrite H1 in Hr1. injection Hr1 as <-.
  destruct (insert_toc_grows r1 params b1 Hb1)
    as (r2' & b2 & Hr2 & Hb2 & Hl2).
  rewrite H2 in Hr2. injection Hr2 as <-. subst r2.
  rewrite Hb1 in Hb2. injection Hb2 as <-. lia.
Qed.

(** X14 (inserting twice is not inserting once): on a document with a
    [w:body], a second [_apply_insert_toc] never gives back the document
    that the first one gave. *)
Theorem insert_toc_is_not_idempotent root params r1 r2 :
  find (wq "body") root <> None ->
  _apply_insert_toc root params = Ok r1 ->
  _apply_insert_toc r1 params = Ok r2 ->
  r2 <> r1.
Proof. apply insert_toc_is_not_idempotent_aux. Qed.

Lemma insert_toc_is_not_idempotent_witness :
  update_find (wq "body")
    (insert_child 0 (toc_paragraph (PyInt 3)))
    (update_find (wq "body") (insert_child 0 (toc_paragraph (PyInt 3)))
       (Samples.margin_root "1417"))
  <> update_find (wq "body") (insert_child 0 (toc_paragraph (PyInt 3)))
       (Samples.margin_root "1417").
Proof.
  apply (insert_toc_is_not_idempotent (Samples.margin_root "1417") []).
  - discriminate.
  - reflexivity.
  - reflexivity.
Defined.


Lemma apply_toc_patch spec root act :
  action act = "insert_toc_field" ->
  apply_actions spec root [act] = _apply_insert_toc root (params act).
Proof.
  intros Ha. simpl. unfold apply_action. rewrite Ha.
  repeat case_decide; try congruence.
  by destruct (_apply_insert_toc root (params act)).
Qed.

(** X15 (a patch that inserts the table of contents is not idempotent):
    for a docx whose document has a [w:body] and a patch of one
    [insert_toc_field] action, the bytes of applying the patch twice
    differ from the bytes of applying it once, whatever the times the
    members are stamped with. *)
Theorem toc_patch_twice_differs_from_once d act spec clock1 clock2 pkg root d1 d2 :
  action act = "insert_toc_field" ->
  from_bytes d = Ok pkg ->
  read_xml pkg "word/document.xml" = Ok root ->
  find (wq "body") root <> None ->
  apply_patch d [act] spec clock1 = Ok d1 ->
  apply_patch d1 [act] spec clock2 = Ok d2 ->
  d2 <> d1.
Proof.
  intros Ha Hp Hr Hb H1 H2 Heq.
  apply PackageRoundTrip.apply_patch_inv in H1
    as (pkg1 & root1 & r1 & Hp1 & Hr1 & Ha1 & Hd1).
  rewrite Hp in Hp1. injection Hp1 as <-.
  rewrite Hr in Hr1. injection Hr1 as <-.
  rewrite apply_toc_patch in Ha1 by done.
  apply PackageRoundTrip.apply_patch_inv in H2
    as (pkg2 & root2 & r2 & Hp2 & Hr2 & Ha2 & Hd2).
  rewrite Hd1 in Hp2. injection Hp2 as <-.
  rewrite PackageRoundTrip.read_write_xml in Hr2.
  case_decide; [|done]. injection Hr2 as <-.
  rewrite apply_toc_patch in Ha2 by done.
  apply (insert_toc_is_not_idempotent_aux root (params act) r1 r2 Hb Ha1 Ha2).
  rewrite Heq, Hd1 in Hd2. injection Hd2 as Hd2. simpl in Hd2.
  apply (f_equal (fun f => dict_get f "word/document.xml")) in Hd2.
  rewrite !PackageRoundTrip.dict_get_set_eq in Hd2. by injection Hd2.
Qed.

Lemma toc_patch_twice_differs_from_once_witness :
  let act := {| action := "insert_toc_field"; params := [("max_level", PyInt 3)] |} in
  let once :=
    update_find (wq "body") (insert_child 0 (toc_paragraph (PyInt 3)))
      (Samples.margin_root "1417") in
  let twice :=
    update_find (wq "body") (insert_child 0 (toc_paragraph (PyInt 3))) once in
  Samples.docx_of twice <> Samples.docx_of once.
Proof.
  intros act once twice.
  apply (toc_patch_twice_differs_from_once
           (Samples.docx_of (Samples.margin_root "1417")) act
           Samples.sample_spec (fun _ => 0) (fun _ => 0)
           {| files := [("word/document.xml",
                         XmlDoc 0 (Samples.margin_root "1417"))] |}
           (Samples.margin_root "1417")).
  - reflexivity.
  - reflexivity.
  - reflexivity.
  - discriminate.
  - reflexivity.
  - reflexivity.
Defined.


(** *** [int(str(z))] *)

Fixpoint all_digits (s : string) : bool :=
  match s with
  | EmptyString => true
  | String a s' => is_digit a && all_digits s'
  end.

Fixpoint no_space (s : string) : bool :=
  match s with
  | EmptyString => true
  | String a s' => negb (is_space a) && no_space s'
  end.

Lemma string_of_uint_digits u : all_digits (NilEmpty.string_of_uint u) = true.
Proof. induction u; simpl; auto. Qed.

Lemma string_of_uint_length u :
  String.length (NilEmpty.string_of_uint u) = Decimal.nb_digits u.
Proof. induction u; simpl; auto. Qed.

Lemma digit_not_space a : is_digit a = true -> is_space a = false.
Proof.
  unfold is_digit, is_space. cbv zeta. intros H.
  apply andb_true_iff in H as [H1 H2]. apply Nat.leb_le in H1, H2.
  apply orb_false_iff. split.
  - apply andb_false_iff. right. apply Nat.leb_gt. lia.
  - apply Nat.eqb_neq. lia.
Qed.

Lemma all_digits_no_space s : all_digits s = true -> no_space s = true.
Proof.
  induction s as [|a s IH]; simpl; [done|].
  intros H. apply andb_true_iff in H as [Ha Hs].
  by rewrite (digit_not_space a Ha), IH.
Qed.

Lemma lstrip_no_space s : no_space s = true -> lstrip s = s.
Proof.
  destruct s as [|a s]; simpl; [done|].
  intros H. apply andb_true_iff in H as [Ha _].
  apply negb_true_iff in Ha. by rewrite Ha.
Qed.

Lemma rstrip_no_space s : no_space s = true -> rstrip s = s.
Proof.
  induction s as [|a s IH]; simpl; [done|].
  intros H. apply andb_true_iff in H as [Ha Hs].
  apply negb_true_iff in Ha. rewrite (IH Hs), Ha. by destruct s.
Qed.

(** A character below 127 is one byte of the string, and [int] takes
    it as it is. *)
Fixpoint all_low (s : string) : bool :=
  match s with
  | EmptyString => true
  | String a s' => (N_of_ascii a <? 127)%N && all_low s'
  end.

Lemma code_points_low a s :
  (N_of_ascii a <? 127)%N = true ->
  code_points (String a s) = N_of_ascii a :: code_points s.
Proof.
  intros H. apply N.ltb_lt in H.
  assert ((N_of_ascii a <? 128)%N = true) as H' by (apply N.ltb_lt; lia).
  cbn [code_points]. cbv zeta. by rewrite H'.
Qed.

Lemma int_chars_low s : all_low s = true -> int_chars (code_points s) = Some s.
Proof.
  induction s as [|a s IH]; [done|].
  cbn [all_low]. intros H. apply andb_true_iff in H as [Ha Hs].
  rewrite code_points_low by done. cbn [int_chars]. rewrite (IH Hs).
  unfold int_char. rewrite Ha. by rewrite ascii_N_embedding.
Qed.

Lemma digit_low a : is_digit a = true -> (N_of_ascii a <? 127)%N = true.
Proof. destruct a as [[] [] [] [] [] [] [] []]; by vm_compute. Qed.

Lemma all_digits_low s : all_digits s = true -> all_low s = true.
Proof.
  induction s as [|a s IH]; simpl; [done|].
  intros H. apply andb_true_iff in H as [Ha Hs].
  by rewrite (digit_low a Ha), IH.
Qed.

Lemma literal_digits_all prev s :
  all_digits s = true -> prev = true \/ s <> "" ->
  literal_digits prev s = Some s.
Proof.
  revert prev. induction s as [|a s IH]; intros prev Hs Hp; simpl.
  - destruct Hp as [->|Hp]; done.
  - simpl in Hs. apply andb_true_iff in Hs as [Ha Hs].
    rewrite Ha. by rewrite (IH true Hs) by auto.
Qed.

(** A string of digits has no sign to take off. *)
Lemma unsigned_digits s :
  all_digits s = true ->
  match s with
  | String "-" r => (true, r)
  | String "+" r => (false, r)
  | _ => (false, s)
  end = (false, s).
Proof.
  destruct s as [|a s]; [done|]. simpl. intros H.
  apply andb_true_iff in H as [Ha _].
  destruct a as [[] [] [] [] [] [] [] []]; try done; discriminate.
Qed.

Lemma within_limit u :
  (Decimal.nb_digits u <= 4300)%nat ->
  (int_max_str_digits <? Z.of_nat (String.length (NilEmpty.string_of_uint u)))%Z
  = false.
Proof.
  intros H. rewrite string_of_uint_length. apply Z.ltb_ge.
  unfold int_max_str_digits. lia.
Qed.

Lemma int_of_digits u :
  u <> Decimal.Nil -> (Decimal.nb_digits u <= 4300)%nat ->
  int_of_str (NilEmpty.string_of_uint u) = Ok (Z.of_uint u).
Proof.
  intros Hu Hn. unfold int_of_str.
  pose proof (string_of_uint_digits u) as Hd.
  rewrite int_chars_low by (by apply all_digits_low). cbv zeta.
  rewrite lstrip_no_space, rstrip_no_space by (by apply all_digits_no_space).
  rewrite unsigned_digits by done.
  rewrite literal_digits_all; [|done|].
  - by rewrite within_limit, NilEmpty.usu.
  - right. by destruct u.
Qed.

Lemma int_of_negative_digits u :
  u <> Decimal.Nil -> (Decimal.nb_digits u <= 4300)%nat ->
  int_of_str (String "-" (NilEmpty.string_of_uint u)) = Ok (- Z.of_uint u).
Proof.
  intros Hu Hn. unfold int_of_str.
  pose proof (string_of_uint_digits u) as Hd.
  rewrite int_chars_low
    by (cbn [all_low]; by rewrite (all_digits_low _ Hd)).
  cbv zeta.
  rewrite lstrip_no_space, rstrip_no_space
    by (simpl; by rewrite (all_digits_no_space _ Hd)).
  rewrite literal_digits_all; [|done|].
  - by rewrite within_limit, NilEmpty.usu.
  - right. by destruct u.
Qed.

Lemma of_uint_to_uint p : Z.of_uint (Pos.to_uint p) = Z.pos p.
Proof. unfold Z.of_uint. by rewrite DecimalPos.Unsigned.of_to. Qed.

Lemma string_of_nonnil u :
  u <> Decimal.Nil -> NilZero.string_of_uint u = NilEmpty.string_of_uint u.
Proof. by destruct u. Qed.

(** [str] writes no more decimal digits than the number has bits. *)
Lemma double_digits d :
  (Decimal.nb_digits (Decimal.Little.double d) <= S (Decimal.nb_digits d))%nat /\
  (Decimal.nb_digits (Decimal.Little.succ_double d) <= S (Decimal.nb_digits d))%nat.
Proof. induction d; simpl; lia. Qed.

Lemma to_little_uint_digits p :
  (Decimal.nb_digits (Pos.to_little_uint p) <= Pos.size_nat p)%nat.
Proof.
  induction p as [p IH|p IH|]; simpl; [| |lia].
  - pose proof (proj2 (double_digits (Pos.to_little_uint p))). lia.
  - pose proof (proj1 (double_digits (Pos.to_little_uint p))). lia.
Qed.

Lemma size_nat_bound p n : Z.pos p < 2 ^ Z.of_nat n -> (Pos.size_nat p <= n)%nat.
Proof.
  revert n. induction p as [p IH|p IH|]; intros n H; simpl.
  - destruct n as [|n]; [simpl in H; lia|].
    rewrite Nat2Z.inj_succ, Z.pow_succ_r in H by lia.
    specialize (IH n). lia.
  - destruct n as [|n]; [simpl in H; lia|].
    rewrite Nat2Z.inj_succ, Z.pow_succ_r in H by lia.
    specialize (IH n). lia.
  - destruct n as [|n]; [simpl in H; lia | lia].
Qed.

Lemma to_uint_digits p :
  Z.pos p < 2 ^ 4300 -> (Decimal.nb_digits (Pos.to_uint p) <= 4300)%nat.
Proof.
  intros H. unfold Pos.to_uint. rewrite DecimalFacts.nb_digits_rev.
  etrans; [apply to_little_uint_digits|].
  apply size_nat_bound. by change (Z.of_nat 4300) with 4300.
Qed.

Lemma int_of_str_of_int z :
  Z.abs z < 2 ^ 4300 -> int_of_str (str_of_int z) = Ok z.
Proof.
  intros Hz. unfold str_of_int. destruct z as [|p|p]; simpl.
  - reflexivity.
  - pose proof (DecimalPos.Unsigned.to_uint_nonnil p) as Hp.
    rewrite string_of_nonnil, int_of_digits, of_uint_to_uint; try done.
    by apply to_uint_digits.
  - pose proof (DecimalPos.Unsigned.to_uint_nonnil p) as Hp.
    rewrite string_of_nonnil, int_of_negative_digits, of_uint_to_uint; try done.
    by apply to_uint_digits.
Qed.

(** *** The size of a rounded float *)

Lemma pow2_pos e : (0 < pow2 e)%Q.
Proof.
  unfold pow2. destruct (0 <=? e)%Z eqn:E.
  - apply Z.leb_le in E. rewrite <- (Zlt_Qlt 0). by apply Z.pow_pos_nonneg.
  - apply Z.leb_gt in E. unfold Qdiv. rewrite Qmult_1_l.
    apply Qinv_lt_0_compat. rewrite <- (Zlt_Qlt 0). apply Z.pow_pos_nonneg; lia.
Qed.

Lemma round_half_even_bounds q :
  Qfloor q <= round_half_even q <= Qfloor q + 1.
Proof.
  unfold round_half_even. cbv zeta.
  destruct (Qcompare _ _); [destruct (Z.even _)| |]; lia.
Qed.

Lemma round_half_even_nonneg q : (0 <= q)%Q -> 0 <= round_half_even q.
Proof.
  intros H. pose proof (round_half_even_bounds q).
  pose proof (Qfloor_resp_le _ _ H) as Hf. change (Qfloor 0) with 0 in Hf. lia.
Qed.

Lemma round_half_even_size q b :
  (- inject_Z b < q)%Q -> (q < inject_Z b)%Q -> Z.abs (round_half_even q) <= b.
Proof.
  intros Hl Hu. pose proof (round_half_even_bounds q).
  pose proof (Qfloor_le q) as Hf. pose proof (Qlt_floor q) as Hc.
  assert (Qfloor q < b).
  { rewrite Zlt_Qlt. eapply Qle_lt_trans; done. }
  assert (- b < Qfloor q + 1).
  { rewrite Zlt_Qlt, inject_Z_opp. eapply Qlt_trans; done. }
  lia.
Qed.

(** A finite float is below 2^1024 in size. *)
Lemma fl_finite q r :
  fl q = Finite r -> (- inject_Z (2 ^ 1024) < r)%Q /\ (r < inject_Z (2 ^ 1024))%Q.
Proof.
  assert (Hb : (0 < inject_Z (2 ^ 1024))%Q) by (by rewrite <- (Zlt_Qlt 0)).
  assert (Hb' : (- inject_Z (2 ^ 1024) < 0)%Q).
  { apply Qopp_lt_compat in Hb. exact Hb. }
  unfold fl. destruct (Qeq_bool q 0).
  { intros [= <-]. by split. }
  cbv zeta.
  set (ulp := pow2 (Z.max _ _)).
  set (r0 := Qred _).
  destruct (Qle_bool (pow2 1024) r0) eqn:E; [discriminate|].
  assert (Hlt : (r0 < inject_Z (2 ^ 1024))%Q).
  { apply Qnot_le_lt. intros Hle.
    change (inject_Z (2 ^ 1024)) with (pow2 1024) in Hle.
    apply Qle_bool_iff in Hle. congruence. }
  assert (Hge : (0 <= r0)%Q).
  { unfold r0. rewrite Qred_correct. apply Qmult_le_0_compat.
    - rewrite <- (Zle_Qle 0). apply round_half_even_nonneg.
      apply Qmult_le_0_compat; [apply Qabs_nonneg|].
      apply Qinv_le_0_compat, Qlt_le_weak, pow2_pos.
    - apply Qlt_le_weak, pow2_pos. }
  intros [= <-]. destruct (Qnum q <? 0)%Z.
  - split.
    + by apply Qopp_lt_compat.
    + eapply Qle_lt_trans; [|exact Hb].
      apply (Qopp_le_compat 0) in Hge. exact Hge.
  - split; [by eapply Qlt_le_trans | done].
Qed.

Lemma to_float_finite x r :
  to_float x = Finite r ->
  (- inject_Z (2 ^ 1024) < r)%Q /\ (r < inject_Z (2 ^ 1024))%Q.
Proof. destruct x; try discriminate. apply fl_finite. Qed.

Lemma py_round_size x z : py_round x = Ok z -> Z.abs z <= 2 ^ 1024.
Proof.
  unfold py_round. destruct (to_float x) as [r| |] eqn:E; try discriminate.
  intros [= <-]. apply to_float_finite in E as [? ?].
  by apply round_half_even_size.
Qed.

Lemma mm_to_twips_size mm tw : _mm_to_twips mm = Ok tw -> Z.abs tw < 2 ^ 4300.
Proof.
  unfold _mm_to_twips. intros H.
  destruct (fdiv mm _) as [x|]; [simpl in H | discriminate].
  apply py_round_size in H.
  assert (2 ^ 1024 < 2 ^ 4300) by (by apply Z.pow_lt_mono_r).
  lia.
Qed.

Lemma int_of_str_of_twips mm tw :
  _mm_to_twips mm = Ok tw -> int_of_str (str_of_int tw) = Ok tw.
Proof. intros H. by apply int_of_str_of_int, (mm_to_twips_size mm). Qed.


(** *** Page margins *)

Lemma find_keeps_none t g cs :
  (forall c, tag (g c) = tag c) ->
  forall t', List.find (has_tag t') cs = None ->
             List.find (has_tag t') (update_last t g cs) = None.
Proof.
  intros Hg t'. induction cs as [|c cs IH]; simpl; [done|].
  destruct (has_tag t' c) eqn:Hc; [discriminate|]. intros H.
  destruct (has_tag t c && negb (existsb (has_tag t) cs)); simpl.
  - unfold has_tag in *. by rewrite Hg, Hc.
  - rewrite Hc. by apply IH.
Qed.

Lemma filter_nil_existsb {A} (P : A -> bool) l :
  existsb P l = false -> List.filter P l = [].
Proof.
  induction l as [|a l IH]; simpl; [done|].
  destruct (P a); simpl; [discriminate | exact IH].
Qed.

Lemma last_filter_existsb {A} (P : A -> bool) l :
  existsb P l = true -> exists x, last (List.filter P l) = Some x.
Proof.
  induction l as [|a l IH]; simpl; [discriminate|].
  destruct (P a) eqn:Ha; simpl; [|exact IH].
  intros _. destruct (List.filter P l) as [|b l']; [by exists a|].
  destruct (last (b :: l')) eqn:E; [eauto|].
  by apply last_None in E.
Qed.

Lemma last_filter_update_last t g cs :
  (forall c, tag (g c) = tag c) ->
  last (List.filter (has_tag t) (update_last t g cs))
  = g <$> last (List.filter (has_tag t) cs).
Proof.
  intros Hg. induction cs as [|c cs IH]; simpl; [done|].
  destruct (has_tag t c) eqn:Hc; simpl.
  - destruct (existsb (has_tag t) cs) eqn:He; simpl.
    + rewrite Hc.
      destruct (last_filter_existsb _ _ He) as [x Hx].
      rewrite !last_cons, IH, Hx. done.
    + assert (has_tag t (g c) = true) as ->
        by (unfold has_tag in *; by rewrite Hg).
      by rewrite filter_nil_existsb.
  - by rewrite Hc.
Qed.

Section sectpr.
Variable f : element -> element.
Hypothesis f_keeps_tag : forall c, tag (f c) = tag c.

Definition in_body (body : element) : element :=
  match find (wq "sectPr") body with
  | Some _ => update_find (wq "sectPr") f body
  | None =>
      set_children body
        (update_last (wq "p")
           (update_find (wq "pPr") (update_find (wq "sectPr") f))
           (children body))
  end.

Lemma tag_in_body body : tag (in_body body) = tag body.
Proof. unfold in_body. by destruct (find _ body). Qed.

Lemma find_sectpr_in_body body :
  match find (wq "sectPr") (in_body body) with
  | Some s => Some s
  | None =>
      match last_item (findall (wq "p") (in_body body)) with
      | None => None
      | Some last_p =>
          match find (wq "pPr") last_p with
          | None => None
          | Some last_ppr => find (wq "sectPr") last_ppr
          end
      end
  end
  = f <$> match find (wq "sectPr") body with
          | Some s => Some s
          | None =>
              match last_item (findall (wq "p") body) with
              | None => None
              | Some last_p =>
                  match find (wq "pPr") last_p with
                  | None => None
                  | Some last_ppr => find (wq "sectPr") last_ppr
                  end
              end
          end.
Proof.
  unfold in_body. destruct (find (wq "sectPr") body) as [s|] eqn:Hs.
  - rewrite find_update_find by done. by rewrite Hs.
  - unfold find at 1. simpl.
    rewrite find_keeps_none by done.
    unfold last_item, findall. simpl.
    rewrite last_filter_update_last by done.
    destruct (last (List.filter _ (children body))) as [lp|]; [|done]. simpl.
    rewrite find_update_find by done.
    destruct (find (wq "pPr") lp) as [ppr|]; [|done]. simpl.
    by rewrite find_update_find by done.
Qed.

Lemma find_sectpr_update_sectpr root :
  _find_sectpr (update_sectpr f root) = f <$> _find_sectpr root.
Proof.
  unfold _find_sectpr, Validator._find_sectpr, update_sectpr.
  change (fun body => match find (wq "sectPr") body with
                      | Some _ => update_find (wq "sectPr") f body
                      | None => _
                      end) with in_body.
  rewrite find_update_find by apply tag_in_body.
  destruct (find (wq "body") root) as [body|]; [|done]. simpl.
  apply find_sectpr_in_body.
Qed.

End sectpr.

Lemma tag_apply_writes ws e : tag (apply_writes ws e) = tag e.
Proof.
  unfold apply_writes. revert e. induction ws as [|w ws IH]; intros e; simpl; [done|].
  by rewrite IH.
Qed.

Lemma get_attr_set_other k k' v e :
  k' <> k -> get_attr k' (set_attr k v e) = get_attr k' e.
Proof.
  intros Hk. unfold get_attr, set_attr. simpl.
  by apply PackageRoundTrip.dict_get_set_ne.
Qed.

Lemma get_attr_apply_writes q v ws e :
  (forall v', (q, v') ∈ ws -> v' = v) ->
  (q, v) ∈ ws \/ get_attr q e = Some v ->
  get_attr q (apply_writes ws e) = Some v.
Proof.
  unfold apply_writes. revert e.
  induction ws as [|[q0 v0] ws IH]; intros e Hall Hin; simpl.
  - destruct Hin as [Hin|Hin]; [by apply elem_of_nil in Hin | done].
  - apply IH.
    + intros v' Hv'. apply Hall. by right.
    + destruct (decide (q0 = q)) as [->|Hq].
      * right. rewrite (Hall v0) by left. apply get_set_attr.
      * destruct Hin as [Hin|Hin].
        -- apply elem_of_cons in Hin as [Hin|Hin]; [congruence | by left].
        -- right. by rewrite get_attr_set_other.
Qed.

Lemma split_on_not_nil sep s : split_on sep s <> [].
Proof.
  destruct s as [|a s]; simpl; [done|].
  case_decide; [done|]. by destruct (split_on sep s).
Qed.

Lemma split_on_single sep s x : split_on sep s = [x] -> x = s.
Proof.
  revert x. induction s as [|a s IH]; intros x; simpl.
  - by intros [= <-].
  - case_decide.
    + intros [= <- Hnil]. by apply split_on_not_nil in Hnil.
    + destruct (split_on sep s) as [|w ws] eqn:E;
        [by apply split_on_not_nil in E|].
      intros [= <- ->]. f_equal. by apply IH.
Qed.

Lemma qn_w_inv k q : _qn ("w:" ++ k) = Ok q -> q = wq k.
Proof.
  unfold _qn. change ("w:" ++ k)%string with (String "w" (String ":" k)).
  simpl. destruct (split_on ":" k) as [|local [|? ?]] eqn:E; try discriminate.
  simpl. intros [= <-]. f_equal. symmetry. by apply split_on_single in E.
Qed.

Lemma margin_writes_inv mapping params ws :
  margin_writes mapping params = Ok ws ->
  (forall k mm, k ∈ dict_keys params -> k <> "target" ->
                dict_get mapping k = Some mm ->
                exists tw, _mm_to_twips mm = Ok tw /\ (wq k, str_of_int tw) ∈ ws) /\
  (forall k mm v, (wq k, v) ∈ ws -> dict_get mapping k = Some mm ->
                  exists tw, _mm_to_twips mm = Ok tw /\ v = str_of_int tw).
Proof.
  revert ws. induction params as [|[k0 v0] params IH]; intros ws H; simpl in H.
  - injection H as <-. split.
    + intros k mm Hk. by apply elem_of_nil in Hk.
    + intros k mm v Hv. by apply elem_of_nil in Hv.
  - case_decide as Ht.
    { destruct (IH ws H) as [IH1 IH2]. split; [|exact IH2].
      intros k mm Hk Hne Hmm. simpl in Hk.
      apply elem_of_cons in Hk as [->|Hk]; [done|]. by eapply IH1. }
    destruct (dict_get mapping k0) as [mm0|] eqn:Hm0.
    + destruct (_qn ("w:" ++ k0)) as [qn|] eqn:Hq; [|discriminate]. simpl in H.
      apply qn_w_inv in Hq as ->.
      destruct (_mm_to_twips mm0) as [tw0|] eqn:Htw; [|discriminate]. simpl in H.
      destruct (margin_writes mapping params) as [ws'|]; [|discriminate].
      simpl in H. injection H as <-.
      destruct (IH ws' eq_refl) as [IH1 IH2]. split.
      * intros k mm Hk Hne Hmm. simpl in Hk.
        apply elem_of_cons in Hk as [->|Hk].
        -- rewrite Hm0 in Hmm. injection Hmm as <-.
           exists tw0. split; [done | left].
        -- destruct (IH1 k mm Hk Hne Hmm) as (tw & ? & ?).
           exists tw. split; [done | by right].
      * intros k mm v Hv Hmm. apply elem_of_cons in Hv as [Hv|Hv].
        -- unfold wq in Hv. injection Hv as -> ->.
           rewrite Hm0 in Hmm. injection Hmm as <-. by exists tw0.
        -- by eapply IH2.
    + destruct v0 as [|z|s0].
      * destruct (IH ws H) as [IH1 IH2]. split; [|exact IH2].
        intros k mm Hk Hne Hmm. simpl in Hk.
        apply elem_of_cons in Hk as [->|Hk]; [congruence | by eapply IH1].
      * destruct (_qn ("w:" ++ k0)) as [qn|] eqn:Hq; [|discriminate]. simpl in H.
        apply qn_w_inv in Hq as ->.
        destruct (margin_writes mapping params) as [ws'|]; [|discriminate].
        simpl in H. injection H as <-.
        destruct (IH ws' eq_refl) as [IH1 IH2]. split.
        -- intros k mm Hk Hne Hmm. simpl in Hk.
           apply elem_of_cons in Hk as [->|Hk]; [congruence|].
           destruct (IH1 k mm Hk Hne Hmm) as (tw & ? & ?).
           exists tw. split; [done | by right].
        -- intros k mm v Hv Hmm. apply elem_of_cons in Hv as [Hv|Hv].
           ++ unfold wq in Hv. injection Hv as -> ->. congruence.
           ++ by eapply IH2.
      * destruct (IH ws H) as [IH1 IH2]. split; [|exact IH2].
        intros k mm Hk Hne Hmm. simpl in Hk.
        apply elem_of_cons in Hk as [->|Hk]; [congruence | by eapply IH1].
Qed.


Lemma margin_key_not_target k : k ∈ MarginFacts.margin_keys -> k <> "target".
Proof.
  unfold MarginFacts.margin_keys. rewrite !elem_of_cons.
  intros [->|[->|[->|[->|[->|[->|[->|H]]]]]]]; try discriminate.
  by apply elem_of_nil in H.
Qed.

Lemma set_page_margins_result root params spec root' sectPr :
  _find_sectpr root = Some sectPr ->
  _apply_set_page_margins root params spec = Ok root' ->
  exists ws,
    margin_writes (margin_mapping spec) params = Ok ws /\
    _find_sectpr root'
    = Some (update_find (wq "pgMar") (apply_writes ws)
              (ensure_child (wq "pgMar") sectPr)) /\
    find (wq "pgMar")
      (update_find (wq "pgMar") (apply_writes ws)
         (ensure_child (wq "pgMar") sectPr))
    = Some (apply_writes ws
              (default (new_element (wq "pgMar")) (find (wq "pgMar") sectPr))).
Proof.
  intros Hs. unfold _apply_set_page_margins. rewrite Hs.
  destruct (margin_writes _ params) as [ws|]; [|discriminate]. simpl.
  intros [= <-]. exists ws. split; [done|]. split.
  - rewrite find_sectpr_update_sectpr by (intros c; apply tag_ensure_child).
    by rewrite Hs.
  - rewrite find_update_find by apply tag_apply_writes.
    by rewrite find_ensure_child.
Qed.

(** X16 (the margin fix repairs the margin): when the document has a
    [sectPr] and [_apply_set_page_margins] returns, then for every key
    of [params] that names a margin, header or footer distance, the
    [pgMar] that the validator finds carries the value of the
    specification for that key, and [validate_docx]'s layout check no
    longer reports [layout.margin_<key>]. *)
Theorem set_page_margins_repairs_the_margin root params spec root' k :
  _find_sectpr root <> None ->
  _apply_set_page_margins root params spec = Ok root' ->
  k ∈ dict_keys params -> k ∈ MarginFacts.margin_keys ->
  exists sectPr' pgMar' mm tw,
    _find_sectpr root' = Some sectPr' /\
    find (wq "pgMar") sectPr' = Some pgMar' /\
    dict_get (margin_mapping spec) k = Some mm /\
    _mm_to_twips mm = Ok tw /\
    get_attr (wq k) pgMar' = Some (str_of_int tw) /\
    forall vs v, check_layout root' spec = Ok vs -> v ∈ vs ->
                 violation_id v <> ("layout.margin_" ++ k)%string.
Proof.
  intros Hs H Hk Hmk.
  destruct (_find_sectpr root) as [sectPr|] eqn:Hsect; [clear Hs|done].
  destruct (set_page_margins_result root params spec root' sectPr Hsect H)
    as (ws & Hws & Hfs & Hfp).
  destruct (MarginFacts.margin_checks_get spec k Hmk) as [mm Hmm].
  change (margin_checks spec) with (margin_mapping spec) in Hmm.
  destruct (margin_writes_inv _ _ _ Hws) as [Hw1 Hw2].
  destruct (Hw1 k mm Hk (margin_key_not_target k Hmk) Hmm) as (tw & Htw & Hin).
  assert (get_attr (wq k)
            (apply_writes ws
               (default (new_element (wq "pgMar")) (find (wq "pgMar") sectPr)))
          = Some (str_of_int tw)) as Hattr.
  { apply get_attr_apply_writes; [|by left].
    intros v' Hv'. destruct (Hw2 k mm v' Hv' Hmm) as (tw' & Htw' & ->).
    congruence. }
  eexists _, _, mm, tw. repeat split; try done.
  intros vs v Hvs Hv Hid.
  unfold check_layout in Hvs. change Validator._find_sectpr with _find_sectpr in Hvs.
  rewrite Hfs, Hfp in Hvs.
  destruct (MarginFacts.check_margins_sound _ _ _ _ Hvs Hv)
    as (k' & exp_mm & qn & val & act & ex & act_mm & Hin' & Hqn & Hget & Hint
        & Hex & Habs & Hamm & ->).
  simpl in Hid. apply MarginFacts.string_app_inv_head in Hid as ->.
  apply qn_w_inv in Hqn as ->.
  rewrite Hattr in Hget. injection Hget as <-.
  rewrite (int_of_str_of_twips _ _ Htw) in Hint. injection Hint as <-.
  apply MarginFacts.dict_get_elem_of in Hin'; [|apply MarginFacts.margin_checks_NoDup].
  change (margin_checks spec) with (margin_mapping spec) in Hin'.
  rewrite Hmm in Hin'. injection Hin' as <-.
  rewrite Htw in Hex. injection Hex as <-.
  rewrite Z.sub_diag in Habs. simpl in Habs. lia.
Qed.

Lemma set_page_margins_repairs_the_margin_witness :
  exists sectPr' pgMar' mm tw,
    _find_sectpr (Samples.margin_root "1417") = Some sectPr' /\
    find (wq "pgMar") sectPr' = Some pgMar' /\
    dict_get (margin_mapping Samples.sample_spec) "top" = Some mm /\
    _mm_to_twips mm = Ok tw /\
    get_attr (wq "top") pgMar' = Some (str_of_int tw) /\
    forall vs v, check_layout (Samples.margin_root "1417") Samples.sample_spec
                 = Ok vs -> v ∈ vs ->
                 violation_id v <> ("layout.margin_" ++ "top")%string.
Proof.
  apply (set_page_margins_repairs_the_margin (Samples.margin_root "1000")
           [("target", PyStr "section0"); ("top", PyInt 1417)]
           Samples.sample_spec).
  - discriminate.
  - reflexivity.
  - right. left.
  - left.
Defined.

End FixerFacts.

(** ** The plain-text parser: what it can produce *)

Module ParserFacts.
Import AstGenerator.

(** *** [strip] gives a stripped string *)

Lemma lstrip_cp_head s c t : lstrip_cp s = c :: t -> is_space_cp c = false.
Proof.
  induction s as [|a s IH]; simpl; [discriminate|].
  destruct (is_space_cp a) eqn:Ha; [exact IH|]. by intros [= <- _].
Qed.

Lemma lstrip_cp_fixed s :
  (forall c t, s = c :: t -> is_space_cp c = false) -> lstrip_cp s = s.
Proof.
  destruct s as [|c t]; simpl; [done|]. intros H. by rewrite (H c t).
Qed.

Lemma lstrip_cp_idem s : lstrip_cp (lstrip_cp s) = lstrip_cp s.
Proof. apply lstrip_cp_fixed. intros c t. apply lstrip_cp_head. Qed.

Lemma rstrip_cp_idem s : rstrip_cp (rstrip_cp s) = rstrip_cp s.
Proof. unfold rstrip_cp. by rewrite rev_involutive, lstrip_cp_idem. Qed.

Lemma strip_cp_idem s : strip_cp (strip_cp s) = strip_cp s.
Proof.
  unfold strip_cp. rewrite (lstrip_cp_fixed (rstrip_cp (lstrip_cp s))).
  - apply rstrip_cp_idem.
  - intros c t Hc. destruct (lstrip_cp s) as [|a u] eqn:Hs; [discriminate|].
    pose proof (lstrip_cp_head _ _ _ Hs) as Ha.
    destruct (HeadingFacts.rstrip_cp_keeps_first a u Ha) as [t' Ht'].
    rewrite Ht' in Hc. by injection Hc as <- _.
Qed.

(** *** The blocks of the heuristic *)

Inductive heuristic_block : Block -> Prop :=
| heading_block lvl title :
    1 <= lvl <= 3 -> strip_cp title = title ->
    heuristic_block (HeadingBlock lvl title)
| paragraph_block t :
    t <> [] -> strip_cp t = t -> heuristic_block (ParagraphBlock (Some t) None)
| page_break_block : heuristic_block PageBreakBlock
| section_break_block : heuristic_block SectionBreakBlock.

Section any_table.
Variable is_decimal : N -> bool.

Lemma flush_para_blocks st :
  Forall heuristic_block (st_blocks st) ->
  Forall heuristic_block (st_blocks (flush_para st)).
Proof.
  intros H. unfold flush_para. destruct (st_para_buf st); [done|]. simpl.
  destruct (strip_cp _) as [|c t] eqn:E; [done|].
  apply Forall_app. split; [done|]. constructor; [|constructor].
  constructor; [done|]. rewrite <- E. apply strip_cp_idem.
Qed.

Lemma add_block_blocks b st :
  heuristic_block b -> Forall heuristic_block (st_blocks st) ->
  Forall heuristic_block (st_blocks (add_block b st)).
Proof.
  intros Hb H. simpl. apply Forall_app. split; [done|]. by constructor.
Qed.

Lemma heading_title_stripped line : strip_cp (heading_title line) = heading_title line.
Proof.
  unfold heading_title.
  destruct (split_ws_1 line) as [|? [|? [|? ?]]]; apply strip_cp_idem.
Qed.

Lemma heading_level_range line : 1 <= heading_level line <= 3.
Proof. unfold heading_level. cbv zeta. lia. Qed.

Lemma heuristic_step_blocks st line :
  Forall heuristic_block (st_blocks st) ->
  Forall heuristic_block (st_blocks (heuristic_step is_decimal st line)).
Proof.
  intros H. unfold heuristic_step. cbv zeta.
  destruct (strip_cp line) as [|c t]; [by apply flush_para_blocks|].
  repeat case_match;
    try (apply add_block_blocks; [|by apply flush_para_blocks]).
  - constructor.
  - constructor.
  - constructor; [apply heading_level_range | apply heading_title_stripped].
  - done.
Qed.

Lemma fold_step_blocks lines st :
  Forall heuristic_block (st_blocks st) ->
  Forall heuristic_block
    (st_blocks (fold_left (heuristic_step is_decimal) lines st)).
Proof.
  revert st. induction lines as [|l lines IH]; intros st H; simpl; [done|].
  by apply IH, heuristic_step_blocks.
Qed.

Lemma parse_blocks text :
  Forall heuristic_block (blocks (parse_plaintext_heuristic is_decimal text)).
Proof.
  unfold parse_plaintext_heuristic.
  destruct (_parse_front_matter text) as [meta body]. simpl.
  apply flush_para_blocks, fold_step_blocks. constructor.
Qed.

(** *** Where a heading comes from *)

Definition from_lines (seen : list ustr) (st : pstate) : Prop :=
  forall lvl title,
    HeadingBlock lvl title ∈ st_blocks st ->
    exists line,
      line ∈ seen /\ matches (_HEADING_NUM_RE is_decimal) line = true /\
      lvl = heading_level line /\ title = heading_title line.

Lemma from_lines_more seen line st :
  from_lines seen st -> from_lines (seen ++ [line]) st.
Proof.
  intros H lvl title Hb. destruct (H lvl title Hb) as (l & Hl & ?).
  exists l. split; [|done]. apply elem_of_app. by left.
Qed.

Lemma flush_para_from seen st : from_lines seen st -> from_lines seen (flush_para st).
Proof.
  intros H lvl title Hb. apply H. unfold flush_para in Hb.
  destruct (st_para_buf st); [done|]. simpl in Hb.
  destruct (strip_cp _); [done|].
  apply elem_of_app in Hb as [Hb|Hb]; [done|].
  apply list_elem_of_singleton in Hb. discriminate.
Qed.

Lemma add_other_from seen st b :
  (forall lvl title, b <> HeadingBlock lvl title) ->
  from_lines seen st -> from_lines seen (add_block b st).
Proof.
  intros Hb H lvl title Hin. apply H. simpl in Hin.
  apply elem_of_app in Hin as [Hin|Hin]; [done|].
  apply list_elem_of_singleton in Hin. by destruct (Hb lvl title).
Qed.

Lemma heuristic_step_from seen st line :
  from_lines seen st ->
  from_lines (seen ++ [line]) (heuristic_step is_decimal st line).
Proof.
  intros H. apply (from_lines_more seen line) in H.
  unfold heuristic_step. cbv zeta.
  destruct (strip_cp line) as [|c t]; [by apply flush_para_from|].
  repeat case_match.
  - apply add_other_from; [done | by apply flush_para_from].
  - apply add_other_from; [done | by apply flush_para_from].
  - intros lvl title Hin. simpl in Hin.
    apply elem_of_app in Hin as [Hin|Hin].
    + by apply (flush_para_from _ _ H).
    + apply list_elem_of_singleton in Hin. injection Hin as -> ->.
      exists line. split; [|done]. apply elem_of_app. right. left.
  - exact H.
Qed.

Lemma fold_step_from lines seen st :
  from_lines seen st ->
  from_lines (seen ++ lines) (fold_left (heuristic_step is_decimal) lines st).
Proof.
  revert seen st. induction lines as [|l lines IH]; intros seen st H; simpl.
  - by rewrite app_nil_r.
  - replace (seen ++ l :: lines) with ((seen ++ [l]) ++ lines)
      by (by rewrite <- app_assoc).
    by apply IH, heuristic_step_from.
Qed.

Lemma parse_headings text lvl title :
  HeadingBlock lvl title ∈ blocks (parse_plaintext_heuristic is_decimal text) ->
  exists line,
    line ∈ splitlines (_parse_front_matter text).2 /\
    matches (_HEADING_NUM_RE is_decimal) line = true /\
    lvl = heading_level line /\ title = heading_title line.
Proof.
  unfold parse_plaintext_heuristic.
  destruct (_parse_front_matter text) as [meta body]. simpl. intros H.
  eapply (flush_para_from (splitlines body)); [|exact H].
  apply (fold_step_from (splitlines body) []).
  intros ? ? Hin. by apply elem_of_nil in Hin.
Qed.

End any_table.

(** X17 (what the plain-text heuristic can produce): every block of
    [parse_plaintext_heuristic] is a heading whose level lies between 1
    and 3, a paragraph with a text that is not empty, a page break or a
    section break; heading titles and paragraph texts carry no white
    space at either end. The level therefore always satisfies the
    constraint [ge=1, le=8] of [HeadingBlock]. *)
Theorem heuristic_blocks_are_well_formed (is_decimal : N -> bool) text :
  Forall heuristic_block (blocks (parse_plaintext_heuristic is_decimal text)).
Proof. apply parse_blocks. Qed.

(** X18 (a heading comes from a numbered line): every heading in the
    result of [parse_plaintext_heuristic] was built from a line of the
    body that [_HEADING_NUM_RE] matches, with the level and the title
    computed from that line. *)
Theorem headings_come_from_numbered_lines (is_decimal : N -> bool) text lvl title :
  HeadingBlock lvl title ∈ blocks (parse_plaintext_heuristic is_decimal text) ->
  exists line,
    line ∈ splitlines (_parse_front_matter text).2 /\
    matches (_HEADING_NUM_RE is_decimal) line = true /\
    lvl = heading_level line /\ title = heading_title line.
Proof. apply parse_headings. Qed.

Lemma headings_come_from_numbered_lines_witness :
  exists line,
    line ∈ splitlines (_parse_front_matter (cp "1.1.1.1 x")).2 /\
    matches (_HEADING_NUM_RE is_ascii_digit) line = true /\
    3 = heading_level line /\ cp "x" = heading_title line.
Proof.
  apply (headings_come_from_numbered_lines is_ascii_digit (cp "1.1.1.1 x")).
  vm_compute. left.
Defined.

End ParserFacts.

(** ** The compiler: what a result looks like *)

Module CompilerFacts.
Import Stylespec Compiler.

(** A result as [compile_document] builds it on its last line. *)
Definition succeeded (res : CompileResult) : Prop :=
  success res = true /\ docx_bytes res <> None /\ ast res <> None /\
  spec res <> None /\ report res <> None /\ error res = None.

(** A result as the [except] clause builds it. *)
Definition failed (res : CompileResult) : Prop :=
  success res = false /\ docx_bytes res = None /\ ast res = None /\
  spec res = None /\ report res = None /\ error res <> None.

Lemma bindM_Ok {A B} (m : M A) (k : A -> M B) w ev w' b :
  (m ≫= k) w = (ev, w', Ok b) ->
  exists ev1 w1 a ev2,
    m w = (ev1, w1, Ok a) /\ k a w1 = (ev2, w', Ok b) /\ ev = ev1 ++ ev2.
Proof.
  unfold mbind, M_bind, bindM.
  destruct (m w) as [[ev1 w1] [a|e]]; [|discriminate].
  destruct (k a w1) as [[ev2 w2] r2] eqn:Hk.
  intros [= <- <- ->]. by exists ev1, w1, a, ev2.
Qed.

Lemma success_result_succeeded docx a sp rep w ev w' res :
  success_result docx a sp rep w = (ev, w', Ok res) ->
  succeeded res /\ ev = [] /\ warnings res = w'.
Proof. unfold success_result. intros [= <- <- <-]. by repeat split. Qed.

Lemma failure_failed msg w ev w' res :
  failure msg w = (ev, w', Ok res) ->
  failed res /\ ev = [] /\ warnings res = w'.
Proof. unfold failure. intros [= <- <- <-]. by repeat split. Qed.

Section any_call.
Variable env : Env.
Variable options : CompileOptions.
Variable progress_callback : option ProgressCallback.

Ltac steps H :=
  repeat (let ev1 := fresh "ev" in
          let w1 := fresh "w" in
          let a := fresh "a" in
          let ev2 := fresh "ev" in
          let E := fresh "E" in
          let Eev := fresh "Eev" in
          apply bindM_Ok in H as (ev1 & w1 & a & ev2 & E & H & Eev)).

Lemma body_succeeded text w ev w' res :
  compile_document_body env options progress_callback text w = (ev, w', Ok res) ->
  succeeded res.
Proof.
  unfold compile_document_body. intros H. steps H.
  by apply success_result_succeeded in H as [? _].
Qed.

Lemma compile_document_shape text :
  let res := (compile_document env options progress_callback text).2 in
  succeeded res \/ failed res.
Proof.
  unfold compile_document, try_except.
  destruct (compile_document_body env options progress_callback text [])
    as [[ev w] [res|e]] eqn:Hb; simpl.
  - left. by eapply body_succeeded.
  - right. by repeat split.
Qed.

Lemma try_except_Ok {A} (body : M A) handler w ev w' (a : A) :
  try_except body handler w = (ev, w', Ok a) ->
  (exists ev1 w1, body w = (ev1, w1, Ok a)) \/
  (exists ev1 w1 e ev2, body w = (ev1, w1, Raise e) /\
                        handler e w1 = (ev2, w', Ok a)).
Proof.
  unfold try_except. destruct (body w) as [[ev1 w1] [a1|e]].
  - intros [= <- <- <-]. left. by exists ev1, w1.
  - destruct (handler e w1) as [[ev2 w2] r2] eqn:Hh.
    intros [= <- <- ->]. right. by exists ev1, w1, e, ev2.
Qed.

Lemma compile_from_ast_shape a w ev w' res :
  _compile_from_ast env options progress_callback a w = (ev, w', Ok res) ->
  succeeded res \/ failed res.
Proof.
  unfold _compile_from_ast. intros H.
  apply try_except_Ok in H as [(ev1 & w1 & H)|(ev1 & w1 & e & ev2 & _ & H)].
  - left. steps H. by apply success_result_succeeded in H as [? _].
  - right. by apply failure_failed in H as [? _].
Qed.

Lemma ai_body_shape text w ev w' res :
  compile_with_ai_body env options progress_callback text w = (ev, w', Ok res) ->
  succeeded res \/ failed res.
Proof.
  unfold compile_with_ai_body. intros H. steps H.
  by eapply compile_from_ast_shape.
Qed.

Lemma compile_document_with_ai_shape text :
  let res := (compile_document_with_ai env options progress_callback text).2 in
  succeeded res \/ failed res.
Proof.
  unfold compile_document_with_ai.
  destruct (try_except _ _ []) as [[ev w] [res|e]] eqn:H; simpl.
  - apply try_except_Ok in H as [(ev1 & w1 & H)|(ev1 & w1 & e & ev2 & _ & H)].
    + by eapply ai_body_shape.
    + apply try_except_Ok in H as [(ev3 & w3 & H)|(ev3 & w3 & e' & ev4 & _ & H)].
      * steps H. destruct a1; simpl in H; [|discriminate].
        unfold call_compile_document in E1.
        destruct (compile_document _ _ _ _) in E1. discriminate.
      * right. by apply failure_failed in H as [? _].
  - right. by repeat split.
Qed.

(** The event that [compile_document] delivers last. *)
Definition done_event : CompileProgress :=
  {| phase := DONE; progress := 1; message := "编译完成"; detail := None |}.

Lemma notify_Ok f ph pr msg det w ev w' u :
  notify (Some f) ph pr msg det w = (ev, w', Ok u) ->
  ev = [{| phase := ph; progress := pr; message := msg; detail := det |}].
Proof. unfold notify. by intros [= <- _ _]. Qed.

Lemma body_ends_with_done f text w ev w' res :
  compile_document_body env options (Some f) text w = (ev, w', Ok res) ->
  last ev = Some done_event.
Proof.
  unfold compile_document_body. intros H. steps H.
  apply success_result_succeeded in H as (_ & -> & _).
  match goal with
  | E : notify (Some f) DONE _ _ _ _ = _ |- _ => apply notify_Ok in E as ->
  end.
  subst. rewrite app_nil_r. rewrite !app_assoc. apply last_snoc.
Qed.

End any_call.

(** X19 (the two shapes of a result): whatever the input, the options,
    the callback and the functions it calls do, [compile_document]
    returns either a result with [success=True], the document bytes, the
    AST, the specification, the report and no error message, or a result
    with [success=False], an error message and none of the others. *)
Theorem compile_document_result_shape env options progress_callback text :
  let res := (compile_document env options progress_callback text).2 in
  succeeded res \/ failed res.
Proof. apply compile_document_shape. Qed.


(** X20 (the two shapes, with the AI service): [compile_document_with_ai]
    too returns either a result with [success=True], the document
    bytes, the AST, the specification, the report and no error message,
    or a result with [success=False], an error message and none of the
    others. *)
Theorem compile_document_with_ai_result_shape env options progress_callback text :
  let res := (compile_document_with_ai env options progress_callback text).2 in
  succeeded res \/ failed res.
Proof. apply compile_document_with_ai_shape. Qed.

(** X21 (success comes after the last event): when [compile_document]
    is given a callback and returns a result with [success=True], the
    last event that the callback received is [(DONE, 1.0)] with the
    message of completion. *)
Theorem success_follows_the_done_event env options f text :
  success (compile_document env options (Some f) text).2 = true ->
  last (compile_document env options (Some f) text).1 = Some done_event.
Proof.
  unfold compile_document, try_except.
  destruct (compile_document_body env options (Some f) text [])
    as [[ev w] [res|e]] eqn:Hb; simpl; [|discriminate].
  intros _. by eapply body_ends_with_done.
Qed.

Lemma success_follows_the_done_event_witness :
  last (compile_document Samples.stub_env default_options
          (Some (fun _ => Ok tt)) (cp "hello")).1
  = Some done_event.
Proof.
  apply (success_follows_the_done_event Samples.stub_env default_options
           (fun _ => Ok tt) (cp "hello")).
  vm_compute. reflexivity.
Defined.


(** *** The order of the events *)

(** The place of a phase in the pipeline. *)
Definition rank (ph : CompilePhase) : nat :=
  match ph with
  | PARSE => 0 | SPEC => 1 | TEMPLATE => 2 | RENDER => 3
  | VALIDATE => 4 | FIX => 5 | DONE => 6
  end.

Definition ranks (ev : list CompileProgress) : list nat :=
  map (fun p => rank (phase p)) ev.

(** No element is smaller than the one before it, nor than [lo]. *)
Fixpoint nondecreasing (lo : nat) (l : list nat) : Prop :=
  match l with
  | [] => True
  | x :: l' => (lo <= x)%nat /\ nondecreasing x l'
  end.

(** Started when the pipeline stands at rank [n], the computation
    delivers events in the order of the pipeline and leaves it at a rank
    of at most [n']. *)
Definition mono {A} (n : nat) (m : M A) (n' : nat) : Prop :=
  forall w ev w' r,
    m w = (ev, w', r) ->
    nondecreasing n (ranks ev) /\ Forall (fun x => (x <= n')%nat) (ranks ev).

Lemma nondecreasing_app lo mid l1 l2 :
  nondecreasing lo l1 -> Forall (fun x => (x <= mid)%nat) l1 ->
  (lo <= mid)%nat -> nondecreasing mid l2 ->
  nondecreasing lo (l1 ++ l2).
Proof.
  revert lo. induction l1 as [|x l1 IH]; intros lo H1 HF Hlo H2; simpl.
  - destruct l2 as [|y l2]; [done|]. simpl in *. split; [lia | tauto].
  - destruct H1 as [Hx H1]. apply Forall_cons in HF as [Hxm HF].
    split; [done|]. by apply IH.
Qed.

Lemma nondecreasing_bound lo l :
  nondecreasing lo l -> Forall (fun x => (lo <= x)%nat) l.
Proof.
  revert lo. induction l as [|x l IH]; intros lo H; [constructor|].
  destruct H as [Hx H]. constructor; [done|].
  eapply Forall_impl; [apply (IH x H)|]. simpl. lia.
Qed.

Lemma mono_bind {A B} n n1 n2 (m : M A) (k : A -> M B) :
  mono n m n1 -> (forall a, mono n1 (k a) n2) ->
  (n <= n1)%nat -> (n1 <= n2)%nat ->
  mono n (m ≫= k) n2.
Proof.
  intros Hm Hk Hn Hn' w ev w' r. unfold mbind, M_bind, bindM.
  destruct (m w) as [[ev1 w1] [a|e]] eqn:Em.
  - destruct (k a w1) as [[ev2 w2] r2] eqn:Ek. intros [= <- <- <-].
    destruct (Hm _ _ _ _ Em) as [H1 F1]. destruct (Hk a _ _ _ _ Ek) as [H2 F2].
    unfold ranks. rewrite map_app. split.
    + by apply (nondecreasing_app n n1).
    + apply Forall_app. split; [|done].
      eapply Forall_impl; [exact F1|]. simpl. lia.
  - intros [= <- <- <-]. destruct (Hm _ _ _ _ Em) as [H1 F1]. split; [done|].
    eapply Forall_impl; [exact F1|]. simpl. lia.
Qed.

Lemma mono_notify cb n ph pr msg det :
  (n <= rank ph)%nat -> mono n (notify cb ph pr msg det) (rank ph).
Proof.
  intros Hn w ev w' r. unfold notify. destruct cb as [f|].
  - intros [= <- _ _]. simpl. repeat constructor. done.
  - intros [= <- _ _]. simpl. by repeat constructor.
Qed.

Definition silent {A} (m : M A) : Prop :=
  forall w ev w' r, m w = (ev, w', r) -> ev = [].

Lemma mono_silent {A} n n' (m : M A) : silent m -> mono n m n'.
Proof. intros Hm w ev w' r H. rewrite (Hm _ _ _ _ H). by repeat constructor. Qed.

Lemma silent_lift {A} (r : result A) : silent (lift r).
Proof. by intros w ev w' r' [= <- _ _]. Qed.

Lemma silent_ret {A} (a : A) : silent (mret a : M A).
Proof. by intros w ev w' r' [= <- _ _]. Qed.

Lemma silent_warn msg : silent (warn msg).
Proof. by intros w ev w' r' [= <- _ _]. Qed.

Lemma silent_success docx a sp rep : silent (success_result docx a sp rep).
Proof. by intros w ev w' r' [= <- _ _]. Qed.

Lemma silent_failure msg : silent (failure msg).
Proof. by intros w ev w' r' [= <- _ _]. Qed.

Section order.
Variable env : Env.
Variable options : CompileOptions.
Variable progress_callback : option ProgressCallback.

Ltac quiet :=
  apply mono_silent;
  first [ apply silent_lift | apply silent_ret | apply silent_warn
        | apply silent_success | apply silent_failure ].

Lemma mono_fix_loop note sp n i docx rep :
  mono 5 (fix_loop env options progress_callback note sp n i docx rep) 5.
Proof.
  revert i docx rep. induction n as [|n IH]; intros i docx rep; simpl.
  - quiet.
  - eapply (mono_bind 5 5 5); [quiet | intros docx' | lia | lia].
    eapply (mono_bind 5 5 5); [quiet | intros rep' | lia | lia].
    eapply (mono_bind 5 5 5); [| intros _ | lia | lia].
    + destruct note; [apply (mono_notify _ 5 FIX); simpl; lia | quiet].
    + destruct (ok (summary rep')); [quiet | apply IH].
Qed.

Ltac event n ph := apply (mono_notify _ n ph); simpl; lia.

Lemma mono_body text :
  mono 0 (compile_document_body env options progress_callback text) 6.
Proof.
  unfold compile_document_body. cbv zeta.
  eapply (mono_bind 0 0 6); [event 0%nat PARSE | intros _ | lia | lia].
  eapply (mono_bind 0 0 6); [quiet | intros a | lia | lia].
  eapply (mono_bind 0 0 6); [event 0%nat PARSE | intros _ | lia | lia].
  eapply (mono_bind 0 1 6); [event 0%nat SPEC | intros _ | lia | lia].
  eapply (mono_bind 1 1 6); [event 1%nat SPEC | intros _ | lia | lia].
  eapply (mono_bind 1 2 6); [event 1%nat TEMPLATE | intros _ | lia | lia].
  eapply (mono_bind 2 2 6); [quiet | intros reference_bytes | lia | lia].
  eapply (mono_bind 2 2 6); [event 2%nat TEMPLATE | intros _ | lia | lia].
  eapply (mono_bind 2 3 6); [event 2%nat RENDER | intros _ | lia | lia].
  eapply (mono_bind 3 3 6); [quiet | intros docx | lia | lia].
  eapply (mono_bind 3 3 6); [event 3%nat RENDER | intros _ | lia | lia].
  eapply (mono_bind 3 4 6); [event 3%nat VALIDATE | intros _ | lia | lia].
  eapply (mono_bind 4 4 6); [quiet | intros rep | lia | lia].
  eapply (mono_bind 4 4 6); [event 4%nat VALIDATE | intros _ | lia | lia].
  eapply (mono_bind 4 5 6); [| intros fixed | lia | lia].
  - destruct (auto_fix options && negb (ok (summary rep))); [|quiet].
    eapply (mono_bind 4 5 5); [event 4%nat FIX | intros _ | lia | lia].
    eapply (mono_bind 5 5 5); [apply mono_fix_loop | intros r | lia | lia].
    eapply (mono_bind 5 5 5); [| intros _ | lia | lia].
    + destruct (negb (ok (summary r.2))); quiet.
    + eapply (mono_bind 5 5 5); [event 5%nat FIX | intros _ | lia | lia].
      quiet.
  - eapply (mono_bind 5 6 6); [event 5%nat DONE | intros _ | lia | lia].
    quiet.
Qed.

Lemma compile_document_order text :
  nondecreasing 0 (ranks (compile_document env options progress_callback text).1).
Proof.
  unfold compile_document, try_except.
  destruct (compile_document_body env options progress_callback text [])
    as [[ev w] r] eqn:Hb.
  destruct (mono_body text _ _ _ _ Hb) as [H _].
  destruct r; simpl; [done|]. by rewrite app_nil_r.
Qed.

End order.

(** X22 (events follow the pipeline): the events that [compile_document]
    delivers to the callback come in the order of the phases, parse,
    spec, template, render, validate, fix, done: no event belongs to an
    earlier phase than the event before it, also when a step of the
    pipeline or the callback raises. *)
Theorem events_follow_the_pipeline env options progress_callback text :
  nondecreasing 0 (ranks (compile_document env options progress_callback text).1).
Proof. apply compile_document_order. Qed.

End CompilerFacts.

(** ** Jobs: a run from start to end *)

Module JobRunFacts.
Import JobManager.

Definition to_job_progress (p : Compiler.CompileProgress) : JobProgress :=
  {| jp_phase := Compiler.phase p; jp_progress := Compiler.progress p;
     jp_message := Compiler.message p; jp_detail := Compiler.detail p |}.

Section any_compiler.
Variable compile : Job -> list Compiler.CompileProgress * Py.result Compiler.CompileResult.

(** *** The progress of a run *)

Lemma fold_progress_history events j :
  progress_history (fold_left (fun j p => progress_callback p j) events j)
  = progress_history j ++ map to_job_progress events.
Proof.
  revert j. induction events as [|p events IH]; intros j; simpl.
  - by rewrite app_nil_r.
  - rewrite IH. simpl. by rewrite <- app_assoc.
Qed.

Lemma fold_progress_current events j :
  current_progress (fold_left (fun j p => progress_callback p j) events j)
  = match last events with
    | Some p => Some (to_job_progress p)
    | None => current_progress j
    end.
Proof.
  revert j. induction events as [|p events IH]; intros j; simpl; [done|].
  rewrite IH. simpl. rewrite last_cons. by destruct (last events).
Qed.

Lemma run_job_finish_history outcome j :
  progress_history (run_job_finish outcome j) = progress_history j /\
  current_progress (run_job_finish outcome j) = current_progress j.
Proof.
  destruct outcome as [r|e]; simpl; [|done]. by destruct (Compiler.success r).
Qed.

Lemma cancel_job_history j :
  progress_history (cancel_job j).1 = progress_history j /\
  current_progress (cancel_job j).1 = current_progress j.
Proof. unfold cancel_job. by destruct (bool_decide _). Qed.

End any_compiler.


(** *** The name of the output *)

Fixpoint no_dot (s : string) : bool :=
  match s with
  | EmptyString => true
  | String a s' => negb (bool_decide (a = "."%char)) && no_dot s'
  end.

Lemma rsplit_no_dot s : no_dot s = true -> rsplit_dot_head s = (s, false).
Proof.
  induction s as [|a s IH]; simpl; [done|].
  intros H. apply andb_true_iff in H as [Ha Hs].
  apply negb_true_iff, bool_decide_eq_false in Ha.
  rewrite (IH Hs). simpl. destruct (decide (a = "."%char)); [done|reflexivity].
Qed.

Lemma append_cons a s t : (String a s +:+ t) = String a (s +:+ t).
Proof. reflexivity. Qed.

Lemma rsplit_at_last_dot base ext :
  no_dot ext = true -> rsplit_dot_head (base +:+ "." +:+ ext) = (base, true).
Proof.
  intros He. induction base as [|a base IH].
  - change ("" +:+ "." +:+ ext) with (String "." ext). simpl.
    rewrite (rsplit_no_dot ext He). simpl.
    destruct (decide ("."%char = "."%char)); [reflexivity|done].
  - rewrite append_cons. simpl. by rewrite IH.
Qed.

Lemma dotted_not_empty base ext : (base +:+ "." +:+ ext) <> "".
Proof. by destruct base. Qed.

(** X25 (the history is the events): when [run_job] has run a new job,
    [progress_history] holds the events that the compiler delivered to
    the callback, in the order of delivery, and [current_progress] is
    the last of them. *)
Theorem progress_history_records_the_events compile id text fname opts permits m :
  run compile [Enter; Finish] (new_manager (create_job id text fname opts) permits)
  = Some m ->
  let events := (compile (run_job_enter (create_job id text fname opts))).1 in
  progress_history (job m) = map to_job_progress events /\
  current_progress (job m) = to_job_progress <$> last events.
Proof.
  simpl. destruct permits as [|n]; [discriminate|]. simpl.
  destruct (compile _) as [events outcome]. intros [= <-]. simpl.
  destruct (run_job_finish_history outcome
              (fold_left (fun j p => progress_callback p j) events
                 (run_job_enter (create_job id text fname opts)))) as [-> ->].
  rewrite fold_progress_history, fold_progress_current. simpl.
  split; [done|]. by destruct (last events).
Qed.

Lemma progress_history_records_the_events_witness :
  exists m,
    run (compile_call Samples.stub_env false) [Enter; Finish]
      (new_manager (create_job "0123456789abcdef" (Some (cp "hello")) None None) 5)
    = Some m /\
    let events :=
      (compile_call Samples.stub_env false
         (run_job_enter
            (create_job "0123456789abcdef" (Some (cp "hello")) None None))).1 in
    progress_history (job m) = map to_job_progress events /\
    current_progress (job m) = to_job_progress <$> last events.
Proof.
  eexists. split; [vm_compute; reflexivity|].
  apply (progress_history_records_the_events
           (compile_call Samples.stub_env false)
           "0123456789abcdef" (Some (cp "hello")) None None 5).
  vm_compute. reflexivity.
Defined.

(** X26 (a finished job has its outcome): when [run_job] has run a new
    job with [compile_document] or [compile_document_with_ai], the job
    is either [completed], with output bytes, an output file name and no
    error, or [failed], with an error message and no output bytes. *)
Theorem finished_job_has_its_outcome env ai_service id text fname opts permits m :
  run (compile_call env ai_service) [Enter; Finish]
    (new_manager (create_job id text fname opts) permits) = Some m ->
  (status (job m) = COMPLETED /\ output_bytes (job m) <> None /\
   output_filename (job m) <> None /\ error (job m) = None) \/
  (status (job m) = FAILED /\ error (job m) <> None /\
   output_bytes (job m) = None).
Proof.
  simpl. destruct permits as [|n]; [discriminate|]. simpl.
  unfold compile_call. simpl.
  set (opts' := default Compiler.default_options opts).
  set (txt := default [] text).
  set (cb := Some (fun _ : Compiler.CompileProgress => Ok tt)).
  assert (forall res : Compiler.CompileResult,
            CompilerFacts.succeeded res \/ CompilerFacts.failed res ->
            forall j, status j = RUNNING -> error j = None -> output_bytes j = None ->
            let j' := run_job_finish (Ok res) j in
            (status j' = COMPLETED /\ output_bytes j' <> None /\
             output_filename j' <> None /\ error j' = None) \/
            (status j' = FAILED /\ error j' <> None /\ output_bytes j' = None))
    as Hfin.
  { intros res [Hs|Hf] j Hj He Ho; simpl.
    - destruct Hs as (-> & Hd & _). simpl. left. by repeat split.
    - destruct Hf as (-> & _ & _ & _ & _ & Her). simpl. right. by repeat split. }
  assert (forall events (j : Job),
            status (fold_left (fun j p => progress_callback p j) events j) = status j /\
            error (fold_left (fun j p => progress_callback p j) events j) = error j /\
            output_bytes (fold_left (fun j p => progress_callback p j) events j)
            = output_bytes j) as Hfold.
  { induction events as [|p events IH]; intros j; simpl; [done|].
    destruct (IH (progress_callback p j)) as (-> & -> & ->). done. }
  destruct ai_service.
  - pose proof (CompilerFacts.compile_document_with_ai_shape env opts' cb txt) as Hs.
    destruct (Compiler.compile_document_with_ai env opts' cb txt) as [ev res].
    simpl in Hs. intros [= <-]. simpl.
    destruct (Hfold ev (run_job_enter (create_job id text fname opts)))
      as (H1 & H2 & H3).
    apply Hfin; [done|..]; by rewrite ?H1, ?H2, ?H3.
  - pose proof (CompilerFacts.compile_document_shape env opts' cb txt) as Hs.
    destruct (Compiler.compile_document env opts' cb txt) as [ev res].
    simpl in Hs. intros [= <-]. simpl.
    destruct (Hfold ev (run_job_enter (create_job id text fname opts)))
      as (H1 & H2 & H3).
    apply Hfin; [done|..]; by rewrite ?H1, ?H2, ?H3.
Qed.

Lemma finished_job_has_its_outcome_witness :
  exists m,
    run (compile_call Samples.stub_env false) [Enter; Finish]
      (new_manager (create_job "0123456789abcdef" (Some (cp "hello")) None None) 5)
    = Some m /\
    ((status (job m) = COMPLETED /\ output_bytes (job m) <> None /\
      output_filename (job m) <> None /\ error (job m) = None) \/
     (status (job m) = FAILED /\ error (job m) <> None /\
      output_bytes (job m) = None)).
Proof.
  eexists. split; [vm_compute; reflexivity|].
  apply (finished_job_has_its_outcome Samples.stub_env false
           "0123456789abcdef" (Some (cp "hello")) None None 5).
  vm_compute. reflexivity.
Defined.

(** X27 (the output keeps the base name): for a job whose input file
    name is [base.ext] with no dot in [ext], the output file name is
    [base_formatted.docx]; dots in [base] are kept. *)
Theorem output_filename_replaces_the_extension j base ext :
  input_file_name j = Some (base +:+ "." +:+ ext) ->
  no_dot ext = true ->
  _generate_output_filename j = base +:+ "_formatted.docx".
Proof.
  intros Hn He. unfold _generate_output_filename. rewrite Hn.
  rewrite bool_decide_eq_false_2 by apply dotted_not_empty. simpl.
  by rewrite rsplit_at_last_dot.
Qed.

Lemma output_filename_replaces_the_extension_witness :
  _generate_output_filename
    (create_job "0123456789abcdef" None (Some "thesis.v2.txt") None)
  = "thesis.v2_formatted.docx".
Proof.
  apply (output_filename_replaces_the_extension
           (create_job "0123456789abcdef" None (Some "thesis.v2.txt") None)
           "thesis.v2" "txt"); reflexivity.
Defined.

End JobRunFacts.

(** ** Front matter: where the body starts *)

Module FrontMatterFacts.
Import AstGenerator.

(** What the loop of [_parse_front_matter] read when it stops at a
    closing line. *)
Lemma front_matter_loop_Some lines meta0 meta body :
  front_matter_loop lines meta0 = Some (meta, body) ->
  exists pre close post,
    lines = pre ++ close :: post /\
    strip_cp close = dashes /\
    Forall (fun l => strip_cp l <> dashes) pre /\
    body = join_cp [10%N] post /\
    forall k v, dict_get meta k = Some v ->
      dict_get meta0 k = Some v \/
      exists l a b, l ∈ pre /\ split_colon l = Some (a, b) /\
                    strip_cp a = k /\ strip_cp b = v.
Proof.
  revert meta0. induction lines as [|l rest IH]; intros meta0; simpl; [done|].
  destruct (decide (strip_cp l = dashes)) as [Hl|Hl].
  - intros [= <- <-]. exists [], l, rest. repeat split; auto.
  - set (meta1 := match split_colon l with
                  | Some (k, v) => dict_set meta0 (strip_cp k) (strip_cp v)
                  | None => meta0
                  end).
    intros H.
    assert (Hloop : front_matter_loop rest meta1 = Some (meta, body)).
    { subst meta1. destruct (split_colon l) as [[k v]|]; exact H. }
    destruct (IH _ Hloop) as (pre & close & post & -> & Hc & Hpre & -> & Hm).
    exists (l :: pre), close, post. repeat split; auto.
    intros k v Hk. destruct (Hm k v Hk) as [H1|(l' & a & b & Hl' & Hs & Ha & Hb)].
    + subst meta1. destruct (split_colon l) as [[a b]|] eqn:Hs; [|by left].
      destruct (decide (k = strip_cp a)) as [->|Hne].
      * rewrite PackageRoundTrip.dict_get_set_eq in H1. injection H1 as <-.
        right. exists l, a, b. repeat split; auto. apply elem_of_cons; by left.
      * rewrite PackageRoundTrip.dict_get_set_ne in H1 by done. by left.
    + right. exists l', a, b. repeat split; auto. apply elem_of_cons; by right.
Qed.

(** The loop finds no closing line exactly when there is none. *)
Lemma front_matter_loop_None lines meta0 :
  front_matter_loop lines meta0 = None <->
  Forall (fun l => strip_cp l <> dashes) lines.
Proof.
  revert meta0. induction lines as [|l rest IH]; intros meta0; simpl.
  - split; [constructor | done].
  - destruct (decide (strip_cp l = dashes)) as [Hl|Hl].
    + split; [done|]. intros H. by inversion H.
    + destruct (split_colon l) as [[k v]|]; rewrite IH;
        (split; [by constructor | by inversion 1]).
Qed.

(** X28: the front matter is cut at its first closing line.
    [_parse_front_matter] either returns the text as it is, with no
    metadata, or the first line of the text is a [---] line, a later
    line is the first other [---] line, the body is the lines after
    that one joined by line feeds, and every entry of the metadata comes
    from a line between the two that holds a colon: the key is the
    stripped text before its first colon, the value the stripped text
    after it. *)
Theorem front_matter_is_cut_at_the_closing_line text meta body :
  _parse_front_matter text = (meta, body) ->
  (meta = [] /\ body = text) \/
  exists first pre close post,
    splitlines text = first :: pre ++ close :: post /\
    strip_cp first = dashes /\ strip_cp close = dashes /\
    Forall (fun l => strip_cp l <> dashes) pre /\
    body = join_cp [10%N] post /\
    forall k v, dict_get meta k = Some v ->
      exists l a b, l ∈ pre /\ split_colon l = Some (a, b) /\
                    strip_cp a = k /\ strip_cp b = v.
Proof.
  unfold _parse_front_matter.
  destruct (splitlines text) as [|l0 rest] eqn:Hlines; [intros [= <- <-]; by left|].
  destruct (decide (strip_cp l0 = dashes)) as [H0|H0]; [|intros [= <- <-]; by left].
  destruct (front_matter_loop rest []) as [[m b]|] eqn:Hloop;
    [|intros [= <- <-]; by left].
  intros [= -> ->]. right.
  destruct (front_matter_loop_Some _ _ _ _ Hloop)
    as (pre & close & post & -> & Hc & Hpre & -> & Hm).
  exists l0, pre, close, post. repeat split; auto.
  intros k v Hk. destruct (Hm k v Hk) as [H1|H1]; [discriminate|exact H1].
Qed.

Lemma front_matter_is_cut_at_the_closing_line_witness :
  let text := cp ("---" +:+ String (ascii_of_nat 10) "title_cn: T" +:+
                  String (ascii_of_nat 10) "---" +:+
                  String (ascii_of_nat 10) "body") in
  _parse_front_matter text = ([(cp "title_cn", cp "T")], cp "body") /\
  (([(cp "title_cn", cp "T")] = @nil (ustr * ustr) /\ cp "body" = text) \/
   exists first pre close post,
     splitlines text = first :: pre ++ close :: post /\
     strip_cp first = dashes /\ strip_cp close = dashes /\
     Forall (fun l => strip_cp l <> dashes) pre /\
     cp "body" = join_cp [10%N] post /\
     forall k v, dict_get [(cp "title_cn", cp "T")] k = Some v ->
       exists l a b, l ∈ pre /\ split_colon l = Some (a, b) /\
                     strip_cp a = k /\ strip_cp b = v).
Proof.
  split; [vm_compute; reflexivity|].
  apply (front_matter_is_cut_at_the_closing_line _ [(cp "title_cn", cp "T")]).
  vm_compute. reflexivity.
Defined.

(** A front matter that is not closed is body text.  When the
    first line is a [---] line and no later line is one, nothing is cut
    off and no metadata is taken, whatever the lines in between hold. *)
Lemma unclosed_front_matter_is_kept text first rest :
  splitlines text = first :: rest ->
  Forall (fun l => strip_cp l <> dashes) rest ->
  _parse_front_matter text = ([], text).
Proof.
  intros Hl Hrest. unfold _parse_front_matter. rewrite Hl.
  destruct (decide (strip_cp first = dashes)); [|done].
  apply front_matter_loop_None with (meta0 := []) in Hrest. by rewrite Hrest.
Qed.

End FrontMatterFacts.

(** ** Statistics of the job store *)

Module StatsFacts.
Import JobManager.

(** The number of jobs of a status. *)
Definition count_status (s : JobStatus) (js : list Job) : Z :=
  Z.of_nat (length (List.filter (fun j => bool_decide (status j = s)) js)).

Lemma count_status_cons s j js :
  count_status s (j :: js) =
  (if bool_decide (status j = s) then 1 else 0) + count_status s js.
Proof.
  unfold count_status. simpl. case_bool_decide; simpl; lia.
Qed.

(** The loop of [get_stats] from any six counters. *)
Lemma stats_loop js t a b c d e :
  fold_left
    (fun stats j =>
       let k := status_value (status j) in
       dict_set stats k (default 0 (dict_get stats k) + 1))
    js
    [ ("total", t); ("pending", a); ("running", b);
      ("completed", c); ("failed", d); ("cancelled", e) ] =
  [ ("total", t); ("pending", a + count_status PENDING js);
    ("running", b + count_status RUNNING js);
    ("completed", c + count_status COMPLETED js);
    ("failed", d + count_status FAILED js);
    ("cancelled", e + count_status CANCELLED js) ].
Proof.
  revert a b c d e. induction js as [|j js IH]; intros a b c d e.
  - unfold count_status. simpl. by rewrite !Z.add_0_r.
  - rewrite !count_status_cons. cbn [fold_left].
    destruct (status j) eqn:Hs; simpl; rewrite IH;
      repeat case_bool_decide; try congruence;
      by rewrite ?Z.add_0_l, ?Z.add_assoc.
Qed.

Lemma count_status_total js :
  Z.of_nat (length js) =
  count_status PENDING js + count_status RUNNING js + count_status COMPLETED js
  + count_status FAILED js + count_status CANCELLED js.
Proof.
  induction js as [|j js IH]; [reflexivity|].
  rewrite !count_status_cons. cbn [length]. rewrite Nat2Z.inj_succ.
  destruct (status j); repeat case_bool_decide; try congruence; lia.
Qed.

(** X29: the statistics add up.  For every job store, [get_stats]
    returns exactly the six entries total, pending, running, completed,
    failed and cancelled, in this order; each of the five counters is
    the number of jobs of that status, and total, the number of jobs,
    is the sum of the five. *)
Theorem get_stats_counts_every_job_once jobs :
  let js := map snd jobs in
  get_stats jobs =
    [ ("total", Z.of_nat (length jobs));
      ("pending", count_status PENDING js);
      ("running", count_status RUNNING js);
      ("completed", count_status COMPLETED js);
      ("failed", count_status FAILED js);
      ("cancelled", count_status CANCELLED js) ] /\
  Z.of_nat (length jobs) =
    count_status PENDING js + count_status RUNNING js
    + count_status COMPLETED js + count_status FAILED js
    + count_status CANCELLED js.
Proof.
  intros js. split.
  - unfold get_stats. fold js. by rewrite stats_loop.
  - rewrite <- (length_map snd jobs). apply count_status_total.
Qed.

End StatsFacts.

(** ** Repairs: no action adds an error *)

Module RepairFacts.
Import Validator Fixer TreeFacts FixerFacts.

(** *** Direct formatting as a measure of a tree *)

Section dirt.
Variable forbid : pydict string bool.

(** Whether a child of an [rPr] is reported. *)
Definition hit (c : element) : bool :=
  match dict_get _DIRECT_RPR_TAGS (q_local (tag c)) with
  | Some kind => default false (dict_get forbid kind)
  | None => false
  end.

Definition reported (r : element) : bool := existsb hit (children r).

Definition dirty_rpr (e : element) : bool := has_tag (wq "rPr") e && reported e.

(** Some [rPr] among [cs] or below them is reported. *)
Definition soiledL (cs : list element) : bool :=
  existsb reported (matches_below (wq "rPr") cs).

Definition soiled (e : element) : bool := soiledL (children e).

(** The number of paragraphs among [cs] or below them that hold a
    reported [rPr]. *)
Definition DP (cs : list element) : nat :=
  length (List.filter soiled (matches_below (wq "p") cs)).

Lemma rpr_violations_nil r : rpr_violations forbid r = [] <-> reported r = false.
Proof.
  unfold rpr_violations, reported.
  induction (children r) as [|c cs IH]; [done|].
  cbn [flat_map existsb]. unfold hit at 1.
  destruct (dict_get _DIRECT_RPR_TAGS (q_local (tag c))) as [kind|];
    [destruct (default false (dict_get forbid kind))|]; cbn [app orb].
  - split; intros ?; discriminate.
  - exact IH.
  - exact IH.
Qed.

Lemma check_run_nil p :
  _check_run_direct_formatting p forbid = [] <-> soiled p = false.
Proof.
  unfold _check_run_direct_formatting, soiled, soiledL.
  rewrite <- findall_desc_children.
  induction (findall_desc (wq "rPr") p) as [|r rs IH]; simpl; [done|].
  rewrite orb_false_iff, <- IH, <- rpr_violations_nil.
  split.
  - intros H. by apply app_eq_nil in H.
  - intros [-> ->]. done.
Qed.

Lemma soiledL_cons c cs :
  soiledL (c :: cs) = dirty_rpr c || soiled c || soiledL cs.
Proof.
  unfold soiledL, soiled, dirty_rpr. rewrite matches_below_cons, !existsb_app.
  rewrite findall_desc_children.
  destruct (has_tag (wq "rPr") c); simpl; [|done].
  by rewrite orb_false_r, orb_assoc.
Qed.

Definition dirty_paragraph (c : element) : nat :=
  if has_tag (wq "p") c && soiled c then 1 else 0.

Lemma DP_cons c cs :
  DP (c :: cs) = (dirty_paragraph c + DP (children c) + DP cs)%nat.
Proof.
  unfold DP, dirty_paragraph. rewrite matches_below_cons, !List.filter_app, !length_app.
  rewrite findall_desc_children.
  destruct (has_tag (wq "p") c); simpl; [|lia].
  destruct (soiled c); simpl; lia.
Qed.

Lemma DP_app cs1 cs2 : DP (cs1 ++ cs2) = (DP cs1 + DP cs2)%nat.
Proof. unfold DP. by rewrite matches_below_app, List.filter_app, length_app. Qed.

Lemma soiledL_app cs1 cs2 : soiledL (cs1 ++ cs2) = soiledL cs1 || soiledL cs2.
Proof. unfold soiledL. by rewrite matches_below_app, existsb_app. Qed.

(** [cs'] holds no more direct formatting than [cs]. *)
Record leL (cs cs' : list element) : Prop := {
  le_hit : existsb hit cs' = true -> existsb hit cs = true;
  le_soil : soiledL cs' = true -> soiledL cs = true;
  le_dp : (DP cs' <= DP cs)%nat
}.

Definition le_tree (e e' : element) : Prop :=
  tag e' = tag e /\ leL (children e) (children e').

(** An element that brings no direct formatting with it. *)
Definition inert (x : element) : Prop :=
  hit x = false /\ dirty_rpr x = false /\ soiled x = false /\
  dirty_paragraph x = O /\ DP (children x) = O.

Lemma leL_refl cs : leL cs cs.
Proof. by split. Qed.

Lemma le_tree_refl e : le_tree e e.
Proof. split; [done | apply leL_refl]. Qed.

Lemma leL_trans cs1 cs2 cs3 : leL cs1 cs2 -> leL cs2 cs3 -> leL cs1 cs3.
Proof. intros [] []. split; [auto | auto | lia]. Qed.

Lemma le_tree_trans e1 e2 e3 : le_tree e1 e2 -> le_tree e2 e3 -> le_tree e1 e3.
Proof.
  intros [H1 L1] [H2 L2]. split; [congruence | by eapply leL_trans].
Qed.

Lemma hit_tag c c' : tag c' = tag c -> hit c' = hit c.
Proof. unfold hit. by intros ->. Qed.

Lemma has_tag_tag t c c' : tag c' = tag c -> has_tag t c' = has_tag t c.
Proof. unfold has_tag. by intros ->. Qed.

Lemma le_tree_parts c c' :
  le_tree c c' ->
  hit c' = hit c /\
  (dirty_rpr c' = true -> dirty_rpr c = true) /\
  (soiled c' = true -> soiled c = true) /\
  (dirty_paragraph c' <= dirty_paragraph c)%nat /\
  (DP (children c') <= DP (children c))%nat.
Proof.
  intros [Ht [Hh Hs Hd]]. split; [by apply hit_tag|]. split; [|split; [|split]].
  - unfold dirty_rpr, reported. rewrite (has_tag_tag _ _ _ Ht), !andb_true_iff.
    intros [? ?]. auto.
  - exact Hs.
  - unfold dirty_paragraph. rewrite (has_tag_tag _ _ _ Ht).
    destruct (has_tag (wq "p") c); simpl; [|lia].
    fold (soiled c) in Hs. fold (soiled c') in Hs.
    destruct (soiled c') eqn:E; [by rewrite Hs|]. destruct (soiled c); lia.
  - exact Hd.
Qed.

Lemma leL_cons c c' cs cs' :
  le_tree c c' -> leL cs cs' -> leL (c :: cs) (c' :: cs').
Proof.
  intros Hc [Hh Hs Hd].
  destruct (le_tree_parts _ _ Hc) as (H1 & H2 & H3 & H4 & H5).
  split.
  - simpl. rewrite H1, !orb_true_iff. intros [?|?]; auto.
  - rewrite !soiledL_cons, !orb_true_iff. intros [[?|?]|?]; auto.
  - rewrite !DP_cons. lia.
Qed.

Lemma leL_drop c cs cs' : leL cs cs' -> leL (c :: cs) cs'.
Proof.
  intros [Hh Hs Hd]. split.
  - simpl. rewrite orb_true_iff. auto.
  - rewrite soiledL_cons, !orb_true_iff. auto.
  - rewrite DP_cons. lia.
Qed.

Lemma leL_add x cs cs' : inert x -> leL cs cs' -> leL cs (x :: cs').
Proof.
  intros (H1 & H2 & H3 & H4 & H5) [Hh Hs Hd]. split.
  - simpl. by rewrite H1.
  - rewrite soiledL_cons, H2, H3. exact Hs.
  - rewrite DP_cons, H4, H5. exact Hd.
Qed.

Lemma leL_app cs1 cs1' cs2 cs2' :
  leL cs1 cs1' -> leL cs2 cs2' -> leL (cs1 ++ cs2) (cs1' ++ cs2').
Proof.
  intros [Hh1 Hs1 Hd1] [Hh2 Hs2 Hd2]. split.
  - rewrite !existsb_app, !orb_true_iff. intros [?|?]; auto.
  - rewrite !soiledL_app, !orb_true_iff. intros [?|?]; auto.
  - rewrite !DP_app. lia.
Qed.

Lemma le_set_children e cs' : leL (children e) cs' -> le_tree e (set_children e cs').
Proof. by split. Qed.

(** **** The mutations *)

Lemma leL_update_below t f cs :
  (forall c, has_tag t c = true -> le_tree c (f c)) ->
  Forall (fun c => forall n, le_tree c (update_desc t f n c)) cs ->
  forall n, leL cs (update_below t f cs n).
Proof.
  intros Hf. induction 1 as [|c cs Hc _ IH]; intros n; [apply leL_refl|].
  cbn [update_below].
  destruct (has_tag t c) eqn:Ht.
  - destruct n as [|m].
    + apply leL_cons; [by apply Hf | apply leL_refl].
    + destruct (m <? count_desc t c)%nat.
      * apply leL_cons; [apply Hc | apply leL_refl].
      * apply leL_cons; [apply le_tree_refl | apply IH].
  - destruct (n <? count_desc t c)%nat.
    + apply leL_cons; [apply Hc | apply leL_refl].
    + apply leL_cons; [apply le_tree_refl | apply IH].
Qed.

Lemma le_update_desc t f n e :
  (forall c, has_tag t c = true -> le_tree c (f c)) ->
  le_tree e (update_desc t f n e).
Proof.
  intros Hf. revert n.
  induction e as [tg at_ tx tl cs IH] using element_induction. intros n.
  rewrite update_desc_children. apply le_set_children. simpl.
  by apply leL_update_below.
Qed.

Lemma leL_update_first t f cs :
  (forall c, has_tag t c = true -> le_tree c (f c)) ->
  leL cs (update_first t f cs).
Proof.
  intros Hf. induction cs as [|c cs IH]; simpl; [apply leL_refl|].
  destruct (has_tag t c) eqn:Ht.
  - apply leL_cons; [by apply Hf | apply leL_refl].
  - apply leL_cons; [apply le_tree_refl | exact IH].
Qed.

Lemma le_update_find t f e :
  (forall c, has_tag t c = true -> le_tree c (f c)) ->
  le_tree e (update_find t f e).
Proof. intros Hf. apply le_set_children. by apply leL_update_first. Qed.

Lemma leL_update_last t f cs :
  (forall c, has_tag t c = true -> le_tree c (f c)) ->
  leL cs (update_last t f cs).
Proof.
  intros Hf. induction cs as [|c cs IH]; simpl; [apply leL_refl|].
  destruct (has_tag t c) eqn:Ht; simpl.
  - destruct (negb (existsb (has_tag t) cs)).
    + apply leL_cons; [by apply Hf | apply leL_refl].
    + apply leL_cons; [apply le_tree_refl | exact IH].
  - apply leL_cons; [apply le_tree_refl | exact IH].
Qed.

Lemma le_set_attr k v e : le_tree e (set_attr k v e).
Proof. split; [done | apply leL_refl]. Qed.

Lemma le_apply_writes ws e : le_tree e (apply_writes ws e).
Proof.
  unfold apply_writes. revert e. induction ws as [|w ws IH]; intros e; simpl.
  - apply le_tree_refl.
  - eapply le_tree_trans; [apply (le_set_attr w.1 w.2) | apply IH].
Qed.

Lemma le_insert_child i x e : inert x -> le_tree e (insert_child i x e).
Proof.
  intros Hx. apply le_set_children.
  rewrite <- (take_drop i (children e)) at 1.
  apply leL_app; [apply leL_refl|]. apply leL_add; [done | apply leL_refl].
Qed.

Lemma le_sub_element t e : inert (new_element t) -> le_tree e (sub_element t e).
Proof.
  intros Hx. apply le_set_children.
  rewrite <- (app_nil_r (children e)) at 1.
  apply leL_app; [apply leL_refl|]. apply leL_add; [done | apply leL_refl].
Qed.

Lemma le_ensure_child t e : inert (new_element t) -> le_tree e (ensure_child t e).
Proof.
  intros Hx. unfold ensure_child. destruct (find t e).
  - apply le_tree_refl.
  - by apply le_sub_element.
Qed.

Lemma leL_clear_below rpr cs :
  Forall (fun c => le_tree c (clear_rpr c)) cs -> leL cs (clear_below rpr cs).
Proof.
  induction 1 as [|c cs Hc _ IH]; [apply leL_refl|].
  cbn [clear_below]. destruct (rpr && is_forbidden c).
  - by apply leL_drop.
  - by apply leL_cons.
Qed.

Lemma le_clear_rpr e : le_tree e (clear_rpr e).
Proof.
  induction e as [tg at_ tx tl cs IH] using element_induction.
  rewrite clear_rpr_children. apply le_set_children. simpl.
  by apply leL_clear_below.
Qed.

Lemma le_clear_paragraph p : le_tree p (clear_paragraph p).
Proof.
  apply le_set_children.
  induction (children p) as [|c cs IH]; simpl; [apply leL_refl|].
  apply leL_cons; [apply le_clear_rpr | exact IH].
Qed.

Lemma inert_new t :
  dict_get _DIRECT_RPR_TAGS (q_local t) = None -> t <> wq "rPr" ->
  inert (new_element t).
Proof.
  intros Hd Ht. split; [|split; [|split; [|split]]].
  - unfold hit. change (tag (new_element t)) with t. by rewrite Hd.
  - unfold dirty_rpr, has_tag. change (tag (new_element t)) with t.
    by rewrite bool_decide_eq_false_2.
  - reflexivity.
  - unfold dirty_paragraph. change (soiled (new_element t)) with false.
    by rewrite andb_false_r.
  - reflexivity.
Qed.

Lemma inert_toc lvl : inert (toc_paragraph lvl).
Proof. repeat split. Qed.

Lemma le_style_paragraph sid p : le_tree p (style_paragraph sid p).
Proof.
  unfold style_paragraph.
  eapply le_tree_trans; [|apply le_update_find].
  - destruct (find (wq "pPr") p); [apply le_tree_refl|].
    apply le_insert_child. apply inert_new; [reflexivity | discriminate].
  - intros c _. eapply le_tree_trans; [apply (le_ensure_child (wq "pStyle")); apply inert_new; [reflexivity | discriminate]|].
    apply le_update_find. intros c' _. apply le_set_attr.
Qed.

Lemma le_update_sectpr f root :
  (forall c, le_tree c (f c)) -> le_tree root (update_sectpr f root).
Proof.
  intros Hf. apply le_update_find. intros body _.
  destruct (find (wq "sectPr") body).
  - apply le_update_find. auto.
  - apply le_set_children. apply leL_update_last. intros p _.
    apply le_update_find. intros pPr _. apply le_update_find. auto.
Qed.

End dirt.

(** **** The errors of the paragraphs *)

Lemma count_severity_app sev a b :
  count_severity sev (a ++ b) = (count_severity sev a + count_severity sev b)%nat.
Proof. unfold count_severity. by rewrite List.filter_app, length_app. Qed.

Lemma count_check_paragraph spec idx p :
  count_severity error (check_paragraph spec idx p)
  = if soiled (forbid_flags spec) p then 1%nat else 0%nat.
Proof.
  unfold check_paragraph. rewrite count_severity_app.
  assert (H1 : forall (b : bool) v, severity v = warning ->
             count_severity error (if b then [v] else []) = 0%nat).
  { intros [] v Hv; [|done]. unfold count_severity. simpl.
    rewrite bool_decide_eq_false_2; [done | by rewrite Hv]. }
  assert (Hstyle : count_severity error
            match _get_p_style p with
            | Some style =>
                if negb (bool_decide (style = ""))
                   && negb (bool_decide (style ∈ spec_style_ids spec))
                   && negb (bool_decide (style ∈ ["Normal"; "DefaultParagraphFont"]))
                then [ {| violation_id := "style.unknown_style";
                          severity := warning;
                          paragraph_index := Some (Z.of_nat idx); expected := None; actual := None;
                          suggestion :=
                            Some {| action := "set_paragraph_style";
                                    params := [("paragraph_index", PyInt (Z.of_nat idx));
                                               ("style_id", PyStr "Body")] |} |} ]
                else []
            | None => []
            end = 0%nat).
  { destruct (_get_p_style p); [|done]. by apply H1. }
  rewrite Hstyle. clear Hstyle H1.
  pose proof (check_run_nil (forbid_flags spec) p) as Hn.
  destruct (_check_run_direct_formatting p (forbid_flags spec)) as [|x xs].
  - destruct Hn as [Hn _]. by rewrite Hn.
  - destruct (soiled (forbid_flags spec) p); [done|].
    destruct Hn as [_ Hn]. by specialize (Hn eq_refl).
Qed.

Lemma count_concat_imap {A} (g : nat -> A -> list Violation) (ind : A -> bool) l :
  (forall i x, count_severity error (g i x) = if ind x then 1%nat else 0%nat) ->
  count_severity error (concat (imap g l)) = length (List.filter ind l).
Proof.
  revert g. induction l as [|x l IH]; intros g Hg; [done|].
  cbn [imap concat List.filter]. rewrite count_severity_app, Hg, IH.
  - by destruct (ind x).
  - intros i y. apply Hg.
Qed.

Lemma paragraph_errors root spec :
  count_severity error (check_paragraphs root spec)
  = DP (forbid_flags spec) (children root).
Proof.
  unfold check_paragraphs, DP. rewrite <- findall_desc_children.
  apply count_concat_imap. intros i x. apply count_check_paragraph.
Qed.

Lemma structure_errors root spec :
  count_severity error (check_structure root spec) = 0%nat.
Proof.
  unfold check_structure.
  induction (Stylespec.required_h1_titles (Stylespec.structure spec)) as [|r rs IH]; [done|].
  cbn [flat_map]. rewrite count_severity_app, IH.
  by case_bool_decide.
Qed.

Lemma toc_errors root spec : count_severity error (check_toc root spec) = 0%nat.
Proof. unfold check_toc. by destruct (_ && _). Qed.

Lemma margin_errors pgMar checks vs :
  check_margins pgMar checks = Ok vs -> count_severity error vs = length vs.
Proof.
  intros H. unfold count_severity. f_equal.
  assert (Hall : Forall (fun v => severity v = error) vs).
  { apply Forall_forall. intros v Hv.
    destruct (MarginFacts.check_margins_sound _ _ _ _ H Hv)
      as (k & mm & qn & val & act & ex & am & _ & _ & _ & _ & _ & _ & _ & ->).
    done. }
  clear H. induction Hall as [|v vs Hv _ IH]; [done|].
  simpl. rewrite Hv. rewrite bool_decide_eq_true_2 by done. by rewrite IH.
Qed.

Lemma layout_errors root spec vs :
  check_layout root spec = Ok vs -> count_severity error vs = length vs.
Proof.
  assert (H1 : forall vid, count_severity error [simple_violation vid error] = 1%nat).
  { intros vid. reflexivity. }
  unfold check_layout. destruct (Validator._find_sectpr root) as [s|];
    [|intros [= ?]; subst; apply H1].
  destruct (find (wq "pgMar") s) as [pg|]; [|intros [= ?]; subst; apply H1].
  apply margin_errors.
Qed.

(** The errors of a report: those of the layout and the paragraphs
    with direct formatting. *)
Definition all_violations (layout : list Violation) (root : element)
  (spec : Stylespec.StyleSpec) : list Violation :=
  layout ++ check_structure root spec ++ check_paragraphs root spec
         ++ check_toc root spec.

Lemma validate_root_layout_ok root spec layout :
  check_layout root spec = Ok layout ->
  validate_root root spec = Ok (make_report (all_violations layout root spec)).
Proof. unfold validate_root. by intros ->. Qed.

Lemma validate_root_inv root spec r :
  validate_root root spec = Ok r ->
  exists layout, check_layout root spec = Ok layout /\
                 r = make_report (all_violations layout root spec).
Proof.
  unfold validate_root. destruct (check_layout root spec) as [layout|]; [|done].
  intros [= <-]. by exists layout.
Qed.

Lemma errors_of_report root spec layout :
  check_layout root spec = Ok layout ->
  errors (summary (make_report (all_violations layout root spec)))
  = (length layout + DP (forbid_flags spec) (children root))%nat.
Proof.
  intros Hl. unfold make_report, all_violations. cbn [summary errors].
  rewrite !count_severity_app.
  rewrite (layout_errors _ _ _ Hl), structure_errors, paragraph_errors, toc_errors.
  lia.
Qed.

(** *** What the layout check reads *)

Definition O_sect (s : element) : option (pydict qname string) :=
  attrib <$> find (wq "pgMar") s.

Definition O_ppr (pPr : element) : option (option (pydict qname string)) :=
  O_sect <$> find (wq "sectPr") pPr.

Definition O_p (p : element) : option (option (pydict qname string)) :=
  match find (wq "pPr") p with
  | Some pPr => O_ppr pPr
  | None => None
  end.

Definition O_body (body : element) : option (option (pydict qname string)) :=
  match find (wq "sectPr") body with
  | Some s => Some (O_sect s)
  | None =>
      match last (findall (wq "p") body) with
      | Some last_p => O_p last_p
      | None => None
      end
  end.

Definition O_root (root : element) : option (option (pydict qname string)) :=
  match find (wq "body") root with
  | Some body => O_body body
  | None => None
  end.

Lemma O_root_find_sectpr root :
  O_root root = O_sect <$> Validator._find_sectpr root.
Proof.
  unfold O_root, Validator._find_sectpr, O_body, O_p, O_ppr, last_item.
  destruct (find (wq "body") root) as [body|]; [|done].
  destruct (find (wq "sectPr") body) as [s|]; [done|].
  destruct (last (findall (wq "p") body)) as [lp|]; [|done].
  destruct (find (wq "pPr") lp) as [ppr|]; [|done]. done.
Qed.

Lemma check_margins_attrib pg pg' checks :
  attrib pg' = attrib pg -> check_margins pg' checks = check_margins pg checks.
Proof.
  intros Ha. induction checks as [|[k mm] rest IH]; [done|].
  cbn [check_margins]. unfold get_attr in *. rewrite Ha, IH. done.
Qed.

Lemma check_layout_obs root root' spec :
  O_root root' = O_root root -> check_layout root' spec = check_layout root spec.
Proof.
  rewrite !O_root_find_sectpr. unfold check_layout.
  destruct (Validator._find_sectpr root') as [s'|],
           (Validator._find_sectpr root) as [s|]; try done.
  intros H. simpl in H. injection H as H. unfold O_sect in H.
  destruct (find (wq "pgMar") s') as [pg'|], (find (wq "pgMar") s) as [pg|];
    try done.
  simpl in H. injection H as H. by apply check_margins_attrib.
Qed.

(** Two trees in which the layout check reads the same. *)
Definition obs_eq (e e' : element) : Prop :=
  tag e' = tag e /\
  (has_tag (wq "pgMar") e = true -> attrib e' = attrib e) /\
  (has_tag (wq "sectPr") e = true -> O_sect e' = O_sect e) /\
  (has_tag (wq "pPr") e = true -> O_ppr e' = O_ppr e) /\
  (has_tag (wq "p") e = true -> O_p e' = O_p e) /\
  (has_tag (wq "body") e = true -> O_body e' = O_body e).

Lemma obs_eq_refl e : obs_eq e e.
Proof. by repeat split. Qed.

Lemma obs_eq_tag t e e' : obs_eq e e' -> has_tag t e' = has_tag t e.
Proof. intros [Ht _]. unfold has_tag. by rewrite Ht. Qed.

Lemma find_obs t cs cs' :
  Forall2 obs_eq cs cs' ->
  match List.find (has_tag t) cs, List.find (has_tag t) cs' with
  | Some c, Some c' => obs_eq c c' /\ has_tag t c = true
  | None, None => True
  | _, _ => False
  end.
Proof.
  induction 1 as [|c c' cs cs' Hc _ IH]; [done|].
  simpl. rewrite (obs_eq_tag t _ _ Hc).
  destruct (has_tag t c) eqn:Ht; [done | exact IH].
Qed.

Lemma last_obs t cs cs' :
  Forall2 obs_eq cs cs' ->
  match last (List.filter (has_tag t) cs), last (List.filter (has_tag t) cs') with
  | Some c, Some c' => obs_eq c c' /\ has_tag t c = true
  | None, None => True
  | _, _ => False
  end.
Proof.
  induction 1 as [|c c' cs cs' Hc _ IH]; [done|].
  simpl. rewrite (obs_eq_tag t _ _ Hc).
  destruct (has_tag t c) eqn:Ht; [|exact IH].
  rewrite !last_cons.
  destruct (last (List.filter (has_tag t) cs)) as [x|],
           (last (List.filter (has_tag t) cs')) as [x'|]; done.
Qed.

Lemma O_sect_children e e' :
  Forall2 obs_eq (children e) (children e') -> O_sect e' = O_sect e.
Proof.
  intros H. unfold O_sect, find. pose proof (find_obs (wq "pgMar") _ _ H) as Hf.
  destruct (List.find _ (children e)) as [c|],
           (List.find _ (children e')) as [c'|]; try done.
  destruct Hf as [(_ & Ha & _) Ht]. simpl. by rewrite Ha.
Qed.

Lemma O_ppr_children e e' :
  Forall2 obs_eq (children e) (children e') -> O_ppr e' = O_ppr e.
Proof.
  intros H. unfold O_ppr, find. pose proof (find_obs (wq "sectPr") _ _ H) as Hf.
  destruct (List.find _ (children e)) as [c|],
           (List.find _ (children e')) as [c'|]; try done.
  destruct Hf as [(_ & _ & Ha & _) Ht]. simpl. by rewrite Ha.
Qed.

Lemma O_p_children e e' :
  Forall2 obs_eq (children e) (children e') -> O_p e' = O_p e.
Proof.
  intros H. unfold O_p, find. pose proof (find_obs (wq "pPr") _ _ H) as Hf.
  destruct (List.find _ (children e)) as [c|],
           (List.find _ (children e')) as [c'|]; try done.
  destruct Hf as [(_ & _ & _ & Ha & _) Ht]. by apply Ha.
Qed.

Lemma O_body_children e e' :
  Forall2 obs_eq (children e) (children e') -> O_body e' = O_body e.
Proof.
  intros H. unfold O_body, find, findall.
  pose proof (find_obs (wq "sectPr") _ _ H) as Hf.
  pose proof (last_obs (wq "p") _ _ H) as Hl.
  destruct (List.find _ (children e)) as [c|],
           (List.find _ (children e')) as [c'|]; try done.
  - destruct Hf as [(_ & _ & Ha & _) Ht]. by rewrite Ha.
  - destruct (last (List.filter _ (children e))) as [p|],
             (last (List.filter _ (children e'))) as [p'|]; try done.
    destruct Hl as [(_ & _ & _ & _ & Ha & _) Ht]. by apply Ha.
Qed.

Lemma O_root_children e e' :
  Forall2 obs_eq (children e) (children e') -> O_root e' = O_root e.
Proof.
  intros H. unfold O_root, find. pose proof (find_obs (wq "body") _ _ H) as Hf.
  destruct (List.find _ (children e)) as [c|],
           (List.find _ (children e')) as [c'|]; try done.
  destruct Hf as [(_ & _ & _ & _ & _ & Ha) Ht]. by apply Ha.
Qed.

Lemma obs_eq_children e e' :
  tag e' = tag e -> attrib e' = attrib e ->
  Forall2 obs_eq (children e) (children e') -> obs_eq e e'.
Proof.
  intros Ht Ha H. split; [done|]. split; [done|].
  split; [intros _; by apply O_sect_children|].
  split; [intros _; by apply O_ppr_children|].
  split; [intros _; by apply O_p_children|].
  intros _; by apply O_body_children.
Qed.

Lemma Forall2_obs_refl cs : Forall2 obs_eq cs cs.
Proof. induction cs; constructor; [apply obs_eq_refl | done]. Qed.

Lemma obs_update_below t f cs :
  (forall c, has_tag t c = true -> obs_eq c (f c)) ->
  Forall (fun c => forall n, obs_eq c (update_desc t f n c)) cs ->
  forall n, Forall2 obs_eq cs (update_below t f cs n).
Proof.
  intros Hf. induction 1 as [|c cs Hc _ IH]; intros n; [constructor|].
  cbn [update_below].
  destruct (has_tag t c) eqn:Ht.
  - destruct n as [|m].
    + constructor; [by apply Hf | apply Forall2_obs_refl].
    + destruct (m <? count_desc t c)%nat.
      * constructor; [apply Hc | apply Forall2_obs_refl].
      * constructor; [apply obs_eq_refl | apply IH].
  - destruct (n <? count_desc t c)%nat.
    + constructor; [apply Hc | apply Forall2_obs_refl].
    + constructor; [apply obs_eq_refl | apply IH].
Qed.

Lemma obs_update_desc t f n e :
  (forall c, has_tag t c = true -> obs_eq c (f c)) ->
  obs_eq e (update_desc t f n e).
Proof.
  intros Hf. revert n.
  induction e as [tg at_ tx tl cs IH] using element_induction. intros n.
  rewrite update_desc_children. apply obs_eq_children; [done | done |].
  simpl. by apply obs_update_below.
Qed.

Lemma O_root_update_desc t f n root :
  (forall c, has_tag t c = true -> obs_eq c (f c)) ->
  O_root (update_desc t f n root) = O_root root.
Proof.
  intros Hf. apply O_root_children. rewrite update_desc_children. simpl.
  apply obs_update_below; [done|].
  apply Forall_forall. intros c _ m. by apply obs_update_desc.
Qed.

(** **** The paragraph actions *)

Lemma clear_below_map cs : clear_below false cs = map clear_rpr cs.
Proof. induction cs as [|c cs IH]; simpl; [done | by rewrite IH]. Qed.

Lemma Forall2_map_image {A} (R : A -> A -> Prop) (g : A -> A) l :
  Forall (fun c => R c (g c)) l -> Forall2 R l (map g l).
Proof. induction 1; simpl; by constructor. Qed.

Lemma tags_differ t t' e : t <> t' -> has_tag t e = true -> has_tag t' e = true -> False.
Proof.
  unfold has_tag. intros Hne H1 H2.
  apply bool_decide_eq_true in H1. apply bool_decide_eq_true in H2. congruence.
Qed.

Lemma obs_clear_rpr e : obs_eq e (clear_rpr e).
Proof.
  induction e as [tg at_ tx tl cs IH] using element_induction.
  rewrite clear_rpr_children.
  destruct (has_tag (wq "rPr") (Element tg at_ tx tl cs)) eqn:Hr.
  - split; [done|].
    repeat split; intros Ht; exfalso;
      (eapply (tags_differ (wq "rPr")); [|exact Hr|exact Ht]); discriminate.
  - rewrite clear_below_map. apply obs_eq_children; [done | done |].
    simpl. by apply Forall2_map_image.
Qed.

Lemma obs_clear_paragraph p : obs_eq p (clear_paragraph p).
Proof.
  apply obs_eq_children; [done | done |]. simpl.
  apply Forall2_map_image. apply Forall_forall. intros c _. apply obs_clear_rpr.
Qed.

Lemma find_update_first_other t t' f cs :
  t' <> t -> (forall c, tag (f c) = tag c) ->
  List.find (has_tag t') (update_first t f cs) = List.find (has_tag t') cs.
Proof.
  intros Hne Hf. induction cs as [|c cs IH]; simpl; [done|].
  destruct (has_tag t c) eqn:Ht; simpl.
  - assert (Hc : has_tag t' c = false).
    { destruct (has_tag t' c) eqn:E; [|done]. exfalso.
      by eapply (tags_differ t' t). }
    assert (Hfc : has_tag t' (f c) = false).
    { unfold has_tag in *. by rewrite Hf. }
    by rewrite Hc, Hfc.
  - by rewrite IH.
Qed.

Lemma find_update_find_other t t' f e :
  t' <> t -> (forall c, tag (f c) = tag c) ->
  find t' (update_find t f e) = find t' e.
Proof. intros. unfold find, update_find. simpl. by apply find_update_first_other. Qed.

Lemma find_skip t x a b :
  has_tag t x = false ->
  List.find (has_tag t) (a ++ x :: b) = List.find (has_tag t) (a ++ b).
Proof.
  intros Hx. induction a as [|c a IH]; simpl; [by rewrite Hx|].
  by destruct (has_tag t c).
Qed.

Lemma find_ensure_other t t' e :
  t' <> t -> find t' (ensure_child t e) = find t' e.
Proof.
  intros Hne. unfold ensure_child. destruct (find t e); [done|].
  unfold find, sub_element. simpl. rewrite find_skip, app_nil_r; [done|].
  unfold has_tag. simpl. by rewrite bool_decide_eq_false_2.
Qed.

Lemma find_insert_other t i x e :
  has_tag t x = false -> find t (insert_child i x e) = find t e.
Proof.
  intros Hx. unfold find, insert_child. simpl.
  by rewrite find_skip, take_drop.
Qed.

Lemma O_p_style_paragraph sid p : O_p (style_paragraph sid p) = O_p p.
Proof.
  unfold style_paragraph, O_p.
  set (g := fun pPr => update_find (wq "pStyle") (set_attr (wq "val") sid)
                         (ensure_child (wq "pStyle") pPr)).
  assert (Hg : forall c, tag (g c) = tag c).
  { intros c. unfold g. by rewrite tag_update_find, tag_ensure_child. }
  destruct (find (wq "pPr") p) as [pPr|] eqn:Hf.
  - rewrite find_update_find, Hf by done. simpl. unfold O_ppr, g.
    rewrite find_update_find_other, find_ensure_other; [done | done | done | done].
  - rewrite find_update_find by done. reflexivity.
Qed.

Lemma obs_style_paragraph sid p :
  has_tag (wq "p") p = true -> obs_eq p (style_paragraph sid p).
Proof.
  intros Hp. split; [apply tag_style_paragraph|].
  split; [intros Ht; exfalso; by eapply (tags_differ (wq "p") (wq "pgMar"))|].
  split; [intros Ht; exfalso; by eapply (tags_differ (wq "p") (wq "sectPr"))|].
  split; [intros Ht; exfalso; by eapply (tags_differ (wq "p") (wq "pPr"))|].
  split; [intros _; apply O_p_style_paragraph|].
  intros Ht; exfalso; by eapply (tags_differ (wq "p") (wq "body")).
Qed.

(** **** The table of contents *)

Lemma first_h1_index_lt ps k : first_h1_index ps = Some k -> (k < length ps)%nat.
Proof.
  revert k. induction ps as [|p ps IH]; intros k; simpl; [done|].
  destruct (is_h1_paragraph p); [intros [= <-]; lia|].
  destruct (first_h1_index ps) as [j|]; [|done].
  simpl. intros [= <-]. specialize (IH j eq_refl). lia.
Qed.

Lemma last_app_nonempty {A} (a b : list A) : b <> [] -> last (a ++ b) = last b.
Proof.
  intros Hb. induction a as [|x a IH]; [done|].
  simpl app. rewrite last_cons, IH.
  destruct b as [|y b]; [done|]. rewrite last_cons. by destruct (last b).
Qed.

Lemma length_filter_le {A} (P : A -> bool) l :
  (length (List.filter P l) <= length l)%nat.
Proof. induction l as [|x l IH]; simpl; [done|]. destruct (P x); simpl; lia. Qed.

Lemma O_body_insert_toc body lvl :
  O_body (insert_child (default O (first_h1_index (findall (wq "p") body)))
            (toc_paragraph lvl) body)
  = O_body body.
Proof.
  unfold O_body. rewrite find_insert_other by done.
  destruct (find (wq "sectPr") body) as [s|]; [done|].
  set (idx := default O (first_h1_index (findall (wq "p") body))).
  assert (Hall : findall (wq "p") body
                 = List.filter (has_tag (wq "p")) (take idx (children body))
                   ++ List.filter (has_tag (wq "p")) (drop idx (children body))).
  { unfold findall. by rewrite <- List.filter_app, take_drop. }
  assert (Hins : findall (wq "p") (insert_child idx (toc_paragraph lvl) body)
                 = List.filter (has_tag (wq "p")) (take idx (children body))
                   ++ toc_paragraph lvl
                      :: List.filter (has_tag (wq "p")) (drop idx (children body))).
  { unfold findall, insert_child. simpl. by rewrite List.filter_app. }
  rewrite Hins.
  destruct (List.filter (has_tag (wq "p")) (drop idx (children body)))
    as [|b bs] eqn:Hdrop.
  - assert (Hps : findall (wq "p") body = []).
    { subst idx. destruct (first_h1_index (findall (wq "p") body)) as [k|] eqn:Hk.
      - exfalso. apply first_h1_index_lt in Hk. rewrite Hall, app_nil_r in Hk.
        simpl in Hk.
        pose proof (length_filter_le (has_tag (wq "p")) (take k (children body))).
        pose proof (length_take_le (children body) k).
        rewrite length_take in *. lia.
      - simpl in Hall. by rewrite Hall. }
    rewrite Hps in Hall. symmetry in Hall. rewrite app_nil_r in Hall.
    rewrite Hall, Hps. reflexivity.
  - rewrite Hall. rewrite (last_app_nonempty _ (toc_paragraph lvl :: b :: bs)) by done.
    rewrite (last_app_nonempty _ (b :: bs)) by done.
    rewrite (last_cons (toc_paragraph lvl)), (last_cons b).
    by destruct (last bs).
Qed.

Lemma O_root_insert_toc root body lvl :
  find (wq "body") root = Some body ->
  O_root (update_find (wq "body")
            (insert_child (default O (first_h1_index (findall (wq "p") body)))
               (toc_paragraph lvl))
            root)
  = O_root root.
Proof.
  intros Hb. unfold O_root. rewrite find_update_find by done. rewrite Hb. simpl.
  apply O_body_insert_toc.
Qed.

(** **** The page margins *)

Lemma get_attr_apply_writes_other q ws e :
  q ∉ map fst ws -> get_attr q (apply_writes ws e) = get_attr q e.
Proof.
  unfold apply_writes. revert e. induction ws as [|[k v] ws IH]; intros e Hq; [done|].
  simpl in *. apply not_elem_of_cons in Hq as [Hk Hq].
  rewrite IH by done. by apply get_attr_set_other.
Qed.

Lemma check_margins_cons pg k mm rest :
  k ∈ MarginFacts.margin_keys ->
  check_margins pg ((k, mm) :: rest)
  = match get_attr (wq k) pg with
    | None => check_margins pg rest
    | Some val =>
        int_of_str val ≫= fun act_twips =>
        Stylespec._mm_to_twips mm ≫= fun exp_twips =>
        if (10 <? Z.abs (act_twips - exp_twips))%Z then
          Stylespec._twips_to_mm act_twips ≫= fun act_mm =>
          check_margins pg rest ≫= fun vs =>
          Ok (margin_violation k mm exp_twips (Stylespec.py_round2 act_mm)
                act_twips :: vs)
        else check_margins pg rest
    end.
Proof.
  intros Hk. cbn [check_margins]. by rewrite (MarginFacts.margin_key_qn k Hk).
Qed.

Lemma check_margins_rest pg k mm rest vs :
  k ∈ MarginFacts.margin_keys ->
  check_margins pg ((k, mm) :: rest) = Ok vs ->
  exists vr, check_margins pg rest = Ok vr /\ (length vr <= length vs)%nat.
Proof.
  intros Hk. rewrite check_margins_cons by done.
  destruct (get_attr (wq k) pg) as [val|]; [|intros H; by exists vs].
  intros H.
  apply MarginFacts.bind_ok in H as (act & _ & H).
  apply MarginFacts.bind_ok in H as (ex & _ & H).
  destruct (10 <? Z.abs (act - ex))%Z; [|by exists vs].
  apply MarginFacts.bind_ok in H as (am & _ & H).
  apply MarginFacts.bind_ok in H as (vr & Hr & H).
  exists vr. split; [done|]. injection H as <-. simpl. lia.
Qed.

(** After the writes of [set_page_margins] the margins count no more
    errors than before. *)
Lemma margins_after spec ws pg checks vs :
  (forall k mm v, (wq k, v) ∈ ws ->
     dict_get (margin_mapping spec) k = Some mm ->
     exists tw, Stylespec._mm_to_twips mm = Ok tw /\ v = str_of_int tw) ->
  (forall k mm, (k, mm) ∈ checks ->
     k ∈ MarginFacts.margin_keys /\ dict_get (margin_mapping spec) k = Some mm) ->
  check_margins pg checks = Ok vs ->
  exists vs', check_margins (apply_writes ws pg) checks = Ok vs' /\
              (length vs' <= length vs)%nat.
Proof.
  intros Hws. revert vs. induction checks as [|[k mm] rest IH]; intros vs Hchecks H.
  - exists []. split; [done|]. simpl. lia.
  - destruct (Hchecks k mm) as [Hk Hmm]; [apply elem_of_cons; by left|].
    assert (Hrest : forall k' mm', (k', mm') ∈ rest ->
              k' ∈ MarginFacts.margin_keys /\
              dict_get (margin_mapping spec) k' = Some mm').
    { intros k' mm' Hin. apply Hchecks. apply elem_of_cons. by right. }
    destruct (check_margins_rest _ _ _ _ _ Hk H) as (vr & Hr & Hlen).
    destruct (IH vr Hrest Hr) as (vr' & Hr' & Hlen').
    rewrite check_margins_cons by done.
    destruct (decide (wq k ∈ map fst ws)) as [Hw|Hw].
    + apply list_elem_of_In, in_map_iff in Hw as ([q v] & Hq & Hin).
      apply list_elem_of_In in Hin. simpl in Hq. subst q.
      destruct (Hws k mm v Hin Hmm) as (tw & Htw & ->).
      rewrite (get_attr_apply_writes (wq k) (str_of_int tw)).
      * rewrite (int_of_str_of_twips _ _ Htw). simpl. rewrite Htw. simpl.
        rewrite Z.sub_diag. simpl. exists vr'. split; [done | lia].
      * intros v' Hv'. destruct (Hws k mm v' Hv' Hmm) as (tw' & Htw' & ->).
        congruence.
      * by left.
    + rewrite get_attr_apply_writes_other by done.
      rewrite check_margins_cons in H by done.
      destruct (get_attr (wq k) pg) as [val|].
      * apply MarginFacts.bind_ok in H as (act & Hact & H).
        apply MarginFacts.bind_ok in H as (ex & Hex & H).
        rewrite Hact. simpl. rewrite Hex. simpl.
        destruct (10 <? Z.abs (act - ex))%Z.
        -- apply MarginFacts.bind_ok in H as (am & Ham & H).
           apply MarginFacts.bind_ok in H as (vr0 & Hr0 & H).
           rewrite Hr in Hr0. injection Hr0 as <-. injection H as <-.
           rewrite Ham. simpl. rewrite Hr'. simpl.
           eexists. split; [reflexivity|]. simpl. lia.
        -- rewrite H in Hr. injection Hr as <-. by exists vr'.
      * rewrite H in Hr. injection Hr as <-. by exists vr'.
Qed.

Lemma margin_checks_entries spec k mm :
  (k, mm) ∈ margin_checks spec ->
  k ∈ MarginFacts.margin_keys /\ dict_get (margin_mapping spec) k = Some mm.
Proof.
  intros Hin. split.
  - rewrite <- (MarginFacts.margin_checks_keys spec).
    apply list_elem_of_In, in_map_iff. exists (k, mm).
    split; [done | by apply list_elem_of_In].
  - change (margin_mapping spec) with (margin_checks spec).
    apply MarginFacts.dict_get_elem_of; [done | apply MarginFacts.margin_checks_NoDup].
Qed.

Lemma layout_after_margins root params spec root' layout :
  check_layout root spec = Ok layout ->
  _apply_set_page_margins root params spec = Ok root' ->
  exists layout', check_layout root' spec = Ok layout' /\
                  (length layout' <= length layout)%nat.
Proof.
  intros Hl Ha.
  destruct (Validator._find_sectpr root) as [sectPr|] eqn:Hs.
  - destruct (set_page_margins_result _ _ _ _ _ Hs Ha) as (ws & Hws & Hs' & Hpg').
    destruct (margin_writes_inv _ _ _ Hws) as [_ Hinv].
    unfold check_layout in *. rewrite Hs in Hl.
    change (Validator._find_sectpr root') with (_find_sectpr root').
    rewrite Hs', Hpg'. cbv beta iota.
    destruct (find (wq "pgMar") sectPr) as [pg|].
    + change (default (new_element (wq "pgMar")) (Some pg)) with pg.
      eapply margins_after; [exact Hinv | apply margin_checks_entries | exact Hl].
    + change (default (new_element (wq "pgMar")) None)
        with (new_element (wq "pgMar")).
      injection Hl as <-.
      destruct (margins_after spec ws (new_element (wq "pgMar"))
                  (margin_checks spec) [] Hinv (margin_checks_entries spec) eq_refl)
        as (vs' & Hvs' & Hlen).
      exists vs'. split; [done|]. simpl in *. lia.
  - unfold _apply_set_page_margins in Ha.
    change (_find_sectpr root) with (Validator._find_sectpr root) in Ha.
    rewrite Hs in Ha. injection Ha as <-. by exists layout.
Qed.

(** *** One action, then a patch *)

Lemma same_layout root root' spec layout :
  O_root root' = O_root root ->
  check_layout root spec = Ok layout ->
  exists layout', check_layout root' spec = Ok layout' /\
                  (length layout' <= length layout)%nat.
Proof.
  intros Ho Hl. exists layout. split; [|done].
  by rewrite (check_layout_obs _ _ _ Ho).
Qed.

Lemma action_adds_nothing spec root act root' layout :
  check_layout root spec = Ok layout ->
  apply_action spec root act = Ok root' ->
  le_tree (forbid_flags spec) root root' /\
  exists layout', check_layout root' spec = Ok layout' /\
                  (length layout' <= length layout)%nat.
Proof.
  intros Hl. unfold apply_action.
  destruct (decide (action act = "set_page_margins")) as [_|_];
    [|destruct (decide (action act = "set_paragraph_style")) as [_|_];
      [|destruct (decide (action act = "clear_direct_run_formatting")) as [_|_];
        [|destruct (decide (action act = "insert_toc_field")) as [_|_]]]].
  - intros Ha. split; [|by eapply layout_after_margins].
    unfold _apply_set_page_margins in Ha.
    destruct (_find_sectpr root); [|injection Ha as <-; apply le_tree_refl].
    apply MarginFacts.bind_ok in Ha as (ws & _ & Ha). injection Ha as <-.
    apply le_update_sectpr. intros c.
    eapply le_tree_trans;
      [apply (le_ensure_child _ (wq "pgMar")); apply inert_new;
       [reflexivity | discriminate]|].
    apply le_update_find. intros c' _. apply le_apply_writes.
  - unfold _apply_set_paragraph_style. intros Ha.
    apply MarginFacts.bind_ok in Ha as (target & _ & Ha).
    destruct target as [n|];
      [|injection Ha as <-; split; [apply le_tree_refl | by exists layout]].
    destruct (default (PyStr "Body") (dict_get (params act) "style_id"))
      as [|z|sid]; try discriminate.
    injection Ha as <-. split.
    + apply le_update_desc. intros c _. apply le_style_paragraph.
    + eapply same_layout; [|exact Hl]. apply O_root_update_desc.
      intros c Hc. by apply obs_style_paragraph.
  - unfold _apply_clear_direct_formatting. intros Ha.
    apply MarginFacts.bind_ok in Ha as (target & _ & Ha).
    destruct target as [n|];
      [|injection Ha as <-; split; [apply le_tree_refl | by exists layout]].
    injection Ha as <-. split.
    + apply le_update_desc. intros c _. apply le_clear_paragraph.
    + eapply same_layout; [|exact Hl]. apply O_root_update_desc.
      intros c _. apply obs_clear_paragraph.
  - unfold _apply_insert_toc.
    destruct (find (wq "body") root) as [body|] eqn:Hb;
      [|intros [= <-]; split; [apply le_tree_refl | by exists layout]].
    intros [= <-]. split.
    + apply le_update_find. intros c _. apply le_insert_child. apply inert_toc.
    + eapply same_layout; [|exact Hl]. by apply O_root_insert_toc.
  - intros [= <-]. split; [apply le_tree_refl | by exists layout].
Qed.

Lemma actions_add_nothing spec acts root root' layout :
  check_layout root spec = Ok layout ->
  apply_actions spec root acts = Ok root' ->
  le_tree (forbid_flags spec) root root' /\
  exists layout', check_layout root' spec = Ok layout' /\
                  (length layout' <= length layout)%nat.
Proof.
  revert root layout. induction acts as [|act acts IH]; intros root layout Hl.
  - intros [= <-]. split; [apply le_tree_refl | by exists layout].
  - cbn [apply_actions]. intros Ha.
    apply MarginFacts.bind_ok in Ha as (root1 & H1 & Ha).
    destruct (action_adds_nothing _ _ _ _ _ Hl H1) as (Hle1 & l1 & Hl1 & Hlen1).
    destruct (IH _ _ Hl1 Ha) as (Hle & l2 & Hl2 & Hlen2).
    split; [by eapply le_tree_trans|]. exists l2. split; [done | lia].
Qed.

Lemma patched_root_errors spec acts root root' r :
  validate_root root spec = Ok r ->
  apply_actions spec root acts = Ok root' ->
  exists r', validate_root root' spec = Ok r' /\
             (errors (summary r') <= errors (summary r))%nat.
Proof.
  intros Hv Ha. apply validate_root_inv in Hv as (layout & Hl & ->).
  destruct (actions_add_nothing _ _ _ _ _ Hl Ha) as ([_ [_ _ Hdp]] & l' & Hl' & Hlen).
  exists (make_report (all_violations l' root' spec)).
  split; [by apply validate_root_layout_ok|].
  rewrite !errors_of_report by done. lia.
Qed.

Lemma patched_docx_errors d patch spec clock d' r :
  validate_docx d spec = Ok r ->
  apply_patch d patch spec clock = Ok d' ->
  exists r', validate_docx d' spec = Ok r' /\
             (errors (summary r') <= errors (summary r))%nat.
Proof.
  intros Hv Hp.
  apply PackageRoundTrip.apply_patch_inv in Hp
    as (pkg & root & root' & Hpkg & Hroot & Ha & Hd').
  pose proof (MarginFacts.validate_docx_root _ _ _ _ _ Hv Hpkg Hroot) as Hvr.
  destruct (patched_root_errors _ _ _ _ _ Hvr Ha) as (r' & Hr' & Hle).
  exists r'. split; [|done].
  unfold validate_docx. rewrite Hd'.
  simpl. rewrite PackageRoundTrip.read_write_xml. by case_decide.
Qed.

(** X30: a repair never adds an error.  When [validate_docx] returns
    a report for a document and [fix_docx] returns for it, with the
    suggestions of that report or of any other, then [validate_docx]
    returns a report for the repaired document too, and it counts no
    more errors than the first one. *)
Theorem repair_never_adds_an_error d spec clock report suggested d' :
  validate_docx d spec = Ok report ->
  fix_docx d suggested spec clock = Ok d' ->
  exists report', validate_docx d' spec = Ok report' /\
    (errors (summary report') <= errors (summary report))%nat.
Proof.
  intros Hv. unfold fix_docx.
  destruct (build_patch_from_report suggested) as [|a acts].
  - intros [= <-]. by exists report.
  - by apply patched_docx_errors.
Qed.

Lemma repair_never_adds_an_error_witness :
  match validate_docx (Samples.docx_of Samples.bold_root) Samples.sample_spec with
  | Ok report =>
      match fix_docx (Samples.docx_of Samples.bold_root) report
              Samples.sample_spec (fun _ => 0) with
      | Ok d' =>
          exists report', validate_docx d' Samples.sample_spec = Ok report' /\
            (errors (summary report') <= errors (summary report))%nat
      | Raise _ => False
      end
  | Raise _ => False
  end.
Proof.
  destruct (validate_docx (Samples.docx_of Samples.bold_root) Samples.sample_spec)
    as [report|e] eqn:Hv; [|vm_compute in Hv; discriminate].
  destruct (fix_docx (Samples.docx_of Samples.bold_root) report
              Samples.sample_spec (fun _ => 0)) as [d'|e] eqn:Hf.
  - exact (repair_never_adds_an_error _ _ _ _ _ _ Hv Hf).
  - vm_compute in Hv. injection Hv as <-. vm_compute in Hf. discriminate.
Defined.

End RepairFacts.
